(** * Xilinx Zynq board composition: a shallow embedding of hw/xilinx_zynq.c

    The file holds two generations of the board code: the legacy
    hand-wired board ([zynq_init]) and the device-tree driven machine
    ([arm_generic_fdt_init] and its helpers).  Definitions come first, in
    the order of the source; the lemmas and theorems follow. *)

From stdpp Require Import base option list gmap strings.
From Stdlib Require Import ZArith Lia Ascii.

#[local] Set Warnings "-register-all".
#[local] Open Scope Z_scope.

(* ===================================================================== *)
(** * Part I: definitions *)
(* ===================================================================== *)

(** ** Machine integers *)

(** [uint32_t] and [uint64_t] values are integers with the wrap-around
    written out.  [ram_addr_t] and [uint64_t] are both 64 bits wide. *)
Definition wrap32 (x : Z) : Z := x mod 2 ^ 32.
Definition wrap64 (x : Z) : Z := x mod 2 ^ 64.

(** [bswap32]: reverse the four bytes of a 32-bit word. *)
Definition bswap32 (x : Z) : Z :=
  Z.lor (Z.lor (Z.shiftl (Z.land x 255) 24)
               (Z.shiftl (Z.land (Z.shiftr x 8) 255) 16))
        (Z.lor (Z.shiftl (Z.land (Z.shiftr x 16) 255) 8)
               (Z.land (Z.shiftr x 24) 255)).

(** The bytes of a 32-bit word, lowest address first. *)
Definition le_bytes32 (x : Z) : list Z :=
  [Z.land x 255; Z.land (Z.shiftr x 8) 255;
   Z.land (Z.shiftr x 16) 255; Z.land (Z.shiftr x 24) 255].

Definition be_bytes32 (x : Z) : list Z := rev (le_bytes32 x).

(** What a word looks like in the memory of a machine of the given byte
    order ([true] is big-endian). *)
Definition mem_bytes32 (big_endian : bool) (x : Z) : list Z :=
  if big_endian then be_bytes32 x else le_bytes32 x.

(** ** Outcomes of fallible code

    [exit(1)] after a diagnostic, [abort()] and [hw_error] end the
    process; everything else returns. *)
Inductive outcome (A : Type) : Type :=
  | Done (a : A)
  | Exit (code : Z) (diagnostic : string)
  | Abort.
Arguments Done {A} a.
Arguments Exit {A} code diagnostic.
Arguments Abort {A}.

#[global] Instance outcome_ret : MRet outcome := fun A a => Done a.
#[global] Instance outcome_bind : MBind outcome := fun A B k m =>
  match m with
  | Done a => k a
  | Exit c d => Exit c d
  | Abort => Abort
  end.

(** ** The boot descriptor ([struct arm_boot_info])

    Only the fields the board code writes.  A static descriptor starts
    zeroed ([= {}]). *)
Inductive secondary_boot_hook := ArmWriteSecondaryBoot.

Record arm_boot_info := {
  bi_ram_size : Z;
  bi_kernel_filename : option string;
  bi_kernel_cmdline : option string;
  bi_initrd_filename : option string;
  bi_nb_cpus : Z;
  bi_board_id : Z;
  bi_loader_start : Z;
  bi_smp_loader_start : Z;
  bi_smp_bootreg_addr : Z;
  bi_write_secondary_boot : option secondary_boot_hook;
  bi_fdt_present : bool;
  bi_fdt_size : Z;
  bi_secure_boot : bool }.

Definition binfo_zero : arm_boot_info :=
  {| bi_ram_size := 0; bi_kernel_filename := None; bi_kernel_cmdline := None;
     bi_initrd_filename := None; bi_nb_cpus := 0; bi_board_id := 0;
     bi_loader_start := 0; bi_smp_loader_start := 0;
     bi_smp_bootreg_addr := 0; bi_write_secondary_boot := None;
     bi_fdt_present := false; bi_fdt_size := 0; bi_secure_boot := false |}.

(** A RAM region placed in a container: name, size, offset. *)
Record ram_region := {
  rr_name : string;
  rr_size : Z;
  rr_offset : Z }.

(* ===================================================================== *)
(** ** The legacy board: [zynq_init] *)
(* ===================================================================== *)

Definition NUM_SPI_FLASHES : Z := 4.
Definition NUM_QSPI_FLASHES : Z := 2.
Definition NUM_QSPI_BUSSES : Z := 2.
Definition FLASH_SIZE : Z := 64 * 1024 * 1024.
Definition FLASH_SECTOR_SIZE : Z := 128 * 1024.
Definition NUM_I2C_EEPROMS : Z := 2.
Definition IRQ_OFFSET : Z := 32. (* pic interrupts start from index 32 *)

Record QEMUMachineInitArgs := {
  args_ram_size : Z;
  args_cpu_model : option string;
  args_kernel_filename : option string;
  args_kernel_cmdline : option string;
  args_initrd_filename : option string }.

(** An interrupt line: an input of the interrupt controller ([pic[n]]),
    the CPU's interrupt input, or the first GPIO input of the device
    created last (a chip-select line). *)
Inductive irq_line :=
  | Pic (n : Z)
  | CpuIrq
  | GpioIn0.

(** The calls the board code makes into the device framework, in the
    order it makes them.  A call that names no device is about the device
    created last. *)
Inductive board_call :=
  | CpuArmInit (cpu_model : string)
  | ArmPicInitCpu
  | MemoryRegionInitRam (name : string) (size : Z)
  | VmstateRegisterRamGlobal (name : string)
  | MemoryRegionAddSubregion (name : string) (offset : Z)
  | PflashCfi02Register (base : Z) (name : string) (size sector_len nb_blocs : Z)
  | QdevCreate (model : string)
  | QdevPropSetUint (prop : string) (value : Z)
  | QdevPropSetString (prop value : string)
  | QdevInitNofail
  | SysbusMmioMap (n : Z) (addr : Z)
  | SysbusConnectIrq (n : Z) (irq : irq_line)
  | SysbusCreate (model : string) (addr : Z) (irqs : list irq_line)
  | QdevGetChildBus (name : string)
  | SsiCreateSlaveNoInit (model : string)
  | I2cCreateSlave (model : string) (addr : Z)
  | I2cCreateSlaveNoInit (model : string) (addr : Z)
  | QemuCheckNicModel (nic : nat) (model : string)
  | QdevSetNicProperties (nic : nat)
  | ArmLoadKernel.

(** What [zynq_init] leaves behind: the text written to stderr, the calls
    made, and the static boot descriptor handed to [arm_load_kernel]. *)
Record legacy_board := {
  lb_stderr : list string;
  lb_calls : list board_call;
  lb_binfo : arm_boot_info }.

(** The loop counters of the source run over [0 .. n-1]. *)
Definition upto (n : Z) : list Z := Z.of_nat <$> seq 0 (Z.to_nat n).

Definition digit_string (i : Z) : string :=
  String (Ascii.ascii_of_N (48 + Z.to_N i)) EmptyString.

Definition gem_init (nd : nat) (base : Z) (irq : irq_line) : list board_call :=
  [ QemuCheckNicModel nd "cadence_gem";
    QdevCreate "cadence_gem";
    QdevSetNicProperties nd;
    QdevInitNofail;
    SysbusMmioMap 0 base;
    SysbusConnectIrq 0 irq ].

Definition zynq_init_spi_flashes (base_addr : Z) (irq : irq_line) (is_qspi : bool)
  : list board_call :=
  let num_busses := if is_qspi then NUM_QSPI_BUSSES else 1 in
  let num_ss := if is_qspi then NUM_QSPI_FLASHES else NUM_SPI_FLASHES in
  [ QdevCreate "xilinx,spips";
    QdevPropSetUint "num-txrx-bytes" (if is_qspi then 4 else 1);
    QdevPropSetUint "num-ss-bits" num_ss;
    QdevPropSetUint "num-busses" num_busses;
    QdevInitNofail;
    SysbusMmioMap 0 base_addr ]
  ++ (if is_qspi then [SysbusMmioMap 1 0xFC000000] else [])
  ++ [ SysbusConnectIrq 0 irq ]
  ++ flat_map (fun i =>
       QdevGetChildBus ("spi" +:+ digit_string i)
       :: flat_map (fun j =>
            [ SsiCreateSlaveNoInit "m25p80";
              QdevPropSetString "partname" "n25q128";
              QdevInitNofail;
              SysbusConnectIrq (i * num_ss + j + 1) GpioIn0 ])
            (upto num_ss))
       (upto num_busses).

Definition zynq_init_zc70x_i2c (base_addr : Z) (irq : irq_line) : list board_call :=
  [ SysbusCreate "xlnx.ps7-i2c" base_addr [irq];
    QdevGetChildBus "i2c";
    I2cCreateSlave "pca9548" 0 ]
  ++ flat_map (fun bus =>
       QdevGetChildBus ("i2c@" +:+ digit_string bus)
       :: flat_map (fun i =>
            [ I2cCreateSlaveNoInit "at.24c08" (0x50 + 0x4 * i);
              QdevPropSetUint "size" 1024 (* M24C08 *);
              QdevInitNofail ])
            (upto NUM_I2C_EEPROMS))
       [2; 3].

Section Legacy.
(** [cpu_arm_init] lives outside this file: it tells whether a CPU model
    of that name exists.  [nb_nics] is the global NIC count. *)
Variable cpu_arm_init : string -> bool.
Variable nb_nics : nat.

Definition zynq_init (args : QEMUMachineInitArgs) : outcome legacy_board :=
  let ram_size := args_ram_size args in
  let cpu_model :=
    match args_cpu_model args with
    | None => "cortex-a9"%string
    | Some m => m
    end in
  if negb (cpu_arm_init cpu_model)
  then Exit 1 "Unable to find CPU definition"
  else
    (* max 2GB ram *)
    let ram_size := if 0x80000000 <? ram_size then 0x80000000 else ram_size in
    let calls :=
      [ CpuArmInit cpu_model;
        ArmPicInitCpu;
        (* DDR remapped to address zero.  *)
        MemoryRegionInitRam "zynq.ext_ram" ram_size;
        VmstateRegisterRamGlobal "zynq.ext_ram";
        MemoryRegionAddSubregion "zynq.ext_ram" 0;
        (* 256K of on-chip memory *)
        MemoryRegionInitRam "zynq.ocm_ram" (Z.shiftl 256 10);
        VmstateRegisterRamGlobal "zynq.ocm_ram";
        MemoryRegionAddSubregion "zynq.ocm_ram" 0xFFFC0000;
        (* AMD *)
        PflashCfi02Register 0xe2000000 "zynq.pflash" FLASH_SIZE
          FLASH_SECTOR_SIZE (FLASH_SIZE / FLASH_SECTOR_SIZE);
        QdevCreate "xilinx,zynq_slcr";
        QdevInitNofail;
        SysbusMmioMap 0 0xF8000000;
        QdevCreate "a9mpcore_priv";
        QdevPropSetUint "num-cpu" 1;
        QdevInitNofail;
        SysbusMmioMap 0 0xF8F00000;
        SysbusConnectIrq 0 CpuIrq ]
      ++ zynq_init_zc70x_i2c 0xE0004000 (Pic (57 - IRQ_OFFSET))
      ++ zynq_init_zc70x_i2c 0xE0005000 (Pic (80 - IRQ_OFFSET))
      ++ zynq_init_spi_flashes 0xE0006000 (Pic (58 - IRQ_OFFSET)) false
      ++ zynq_init_spi_flashes 0xE0007000 (Pic (81 - IRQ_OFFSET)) false
      ++ zynq_init_spi_flashes 0xE000D000 (Pic (51 - IRQ_OFFSET)) true
      ++ [ SysbusCreate "xlnx,ps7-usb" 0xE0002000 [Pic (53 - IRQ_OFFSET)];
           SysbusCreate "xlnx,ps7-usb" 0xE0003000 [Pic (75 - IRQ_OFFSET)];
           SysbusCreate "cadence_uart" 0xE0000000 [Pic (59 - IRQ_OFFSET)];
           SysbusCreate "cadence_uart" 0xE0001000 [Pic (82 - IRQ_OFFSET)];
           SysbusCreate "cadence_ttc" 0xF8001000
             [Pic (42 - IRQ_OFFSET); Pic (43 - IRQ_OFFSET); Pic (44 - IRQ_OFFSET)];
           SysbusCreate "cadence_ttc" 0xF8002000
             [Pic (69 - IRQ_OFFSET); Pic (70 - IRQ_OFFSET); Pic (71 - IRQ_OFFSET)] ]
      ++ flat_map (fun n =>
           if (n =? 0)%nat then gem_init n 0xE000B000 (Pic (54 - IRQ_OFFSET))
           else if (n =? 1)%nat then gem_init n 0xE000C000 (Pic (77 - IRQ_OFFSET))
           else [])
           (seq 0 nb_nics)
      ++ [ ArmLoadKernel ] in
    let zynq_binfo :=
      {| bi_ram_size := ram_size;
         bi_kernel_filename := args_kernel_filename args;
         bi_kernel_cmdline := args_kernel_cmdline args;
         bi_initrd_filename := args_initrd_filename args;
         bi_nb_cpus := 1;
         bi_board_id := 0xd32;
         bi_loader_start := 0;
         bi_smp_loader_start := bi_smp_loader_start binfo_zero;
         bi_smp_bootreg_addr := bi_smp_bootreg_addr binfo_zero;
         bi_write_secondary_boot := bi_write_secondary_boot binfo_zero;
         bi_fdt_present := bi_fdt_present binfo_zero;
         bi_fdt_size := bi_fdt_size binfo_zero;
         bi_secure_boot := bi_secure_boot binfo_zero |} in
    Done {| lb_stderr := []; lb_calls := calls; lb_binfo := zynq_binfo |}.
End Legacy.

(* ===================================================================== *)
(** ** The hardware description tree *)
(* ===================================================================== *)

(** Modelled from the spec: the tree library (libfdt and the
    [qemu_fdt_*]/[qemu_devtree_*] helpers) is not part of this file.  A
    HardwareNode has a name, an ordered list of children and a mapping of
    property name to value; a value is the raw byte string of the
    property (a string property ends in a NUL byte, a cell is four bytes,
    most significant first), and the compatible-type strings are the
    NUL-separated entries of the ["compatible"] property. *)
Inductive fdt_node := FdtNode {
  node_name : string;
  node_props : gmap string string;
  node_children : list fdt_node }.

(** A node path is the list of node names from the root; ["/"] is [[]].
    The source keeps paths in buffers of [DT_PATH_LENGTH] characters;
    the buffers' bound is not part of the model. *)
Definition path := list string.

Definition NUL : ascii := Ascii.zero.
Definition AT : ascii := "@"%char.

Fixpoint has_unit_address (s : string) : bool :=
  match s with
  | EmptyString => false
  | String c s' => Ascii.eqb c AT || has_unit_address s'
  end.

(** The name without its unit address: ["memory@0"] gives ["memory"]. *)
Fixpoint unit_base (s : string) : string :=
  match s with
  | EmptyString => EmptyString
  | String c s' => if Ascii.eqb c AT then EmptyString else String c (unit_base s')
  end.

(** How a path component [s] selects a node: by its full name, or by its
    name without the unit address when [s] has none. *)
Definition fdt_nodename_eq (name s : string) : bool :=
  String.eqb name s || (has_unit_address name && String.eqb (unit_base name) s).

(** How [qemu_devtree_get_node_by_name] compares: names up to the unit
    address. *)
Definition devtree_name_eq (name cmpname : string) : bool :=
  String.eqb (unit_base name) cmpname.

(** Property values as bytes. *)
Fixpoint cstring (bytes : string) : string :=
  match bytes with
  | EmptyString => EmptyString
  | String c rest => if Ascii.eqb c NUL then EmptyString else String c (cstring rest)
  end.

Fixpoint stringlist_from (cur : string) (bytes : string) : list string :=
  match bytes with
  | EmptyString => []
  | String c rest =>
      if Ascii.eqb c NUL then cur :: stringlist_from EmptyString rest
      else stringlist_from (cur +:+ String c EmptyString) rest
  end.

Definition stringlist (bytes : string) : list string :=
  stringlist_from EmptyString bytes.

Definition string_value (s : string) : string := s +:+ String NUL EmptyString.

Definition byte_char (b : Z) : ascii := Ascii.ascii_of_N (Z.to_N (b mod 256)).

Definition cell_value (x : Z) : string :=
  fold_right (fun b acc => String (byte_char b) acc) EmptyString (be_bytes32 x).

Fixpoint cells_value (xs : list Z) : string :=
  match xs with
  | [] => EmptyString
  | x :: xs' => cell_value x +:+ cells_value xs'
  end.

Fixpoint string_drop (n : nat) (s : string) : string :=
  match n, s with
  | O, _ => s
  | S n', String _ s' => string_drop n' s'
  | S _, EmptyString => EmptyString
  end.

(** The [i]-th cell of a property value, if the value is long enough. *)
Definition read_cell (bytes : string) (i : nat) : option Z :=
  match string_drop (4 * i) bytes with
  | String b3 (String b2 (String b1 (String b0 _))) =>
      Some (Z.of_N (Ascii.N_of_ascii b3) * 2 ^ 24
            + Z.of_N (Ascii.N_of_ascii b2) * 2 ^ 16
            + Z.of_N (Ascii.N_of_ascii b1) * 2 ^ 8
            + Z.of_N (Ascii.N_of_ascii b0))
  | _ => None
  end.

(** *** Walking the tree *)

(** Every node below [n] with its path, in the order of the flattened
    tree (a node before its children, children in order). *)
Fixpoint fdt_subnodes (prefix : path) (n : fdt_node) : list (path * fdt_node) :=
  flat_map (fun c => (prefix ++ [node_name c], c)
                       :: fdt_subnodes (prefix ++ [node_name c]) c)
           (node_children n).

Definition select_child (s : string) (n : fdt_node) : bool :=
  fdt_nodename_eq (node_name n) s.

(** [fdt_path_offset]: resolve a path, taking at each level the first
    child the component selects. *)
Fixpoint fdt_path_offset (fdt : fdt_node) (p : path) : option fdt_node :=
  match p with
  | [] => Some fdt
  | s :: rest =>
      match List.find (select_child s) (node_children fdt) with
      | Some c => fdt_path_offset c rest
      | None => None
      end
  end.

(** Rewrite the first element of a list that [sel] selects. *)
Fixpoint alter_first {A} (sel : A -> bool) (f : A -> option A) (l : list A)
  : option (list A) :=
  match l with
  | [] => None
  | x :: l' =>
      if sel x then x' ← f x; Some (x' :: l')
      else l'' ← alter_first sel f l'; Some (x :: l'')
  end.

Fixpoint remove_first {A} (sel : A -> bool) (l : list A) : option (list A) :=
  match l with
  | [] => None
  | x :: l' =>
      if sel x then Some l'
      else l'' ← remove_first sel l'; Some (x :: l'')
  end.

Definition with_children (n : fdt_node) (cs : list fdt_node) : fdt_node :=
  FdtNode (node_name n) (node_props n) cs.

(** Apply [f] to the node a path resolves to; [None] when it does not
    resolve. *)
Fixpoint fdt_alter (f : fdt_node -> option fdt_node) (p : path) (fdt : fdt_node)
  : option fdt_node :=
  match p with
  | [] => f fdt
  | s :: rest =>
      cs ← alter_first (select_child s) (fdt_alter f rest) (node_children fdt);
      Some (with_children fdt cs)
  end.

Definition set_prop (name value : string) (n : fdt_node) : fdt_node :=
  FdtNode (node_name n) (<[name := value]> (node_props n)) (node_children n).

Definition add_first_child (name : string) (n : fdt_node) : option fdt_node :=
  match List.find (select_child name) (node_children n) with
  | Some _ => None
  | None => Some (with_children n (FdtNode name ∅ [] :: node_children n))
  end.

Definition remove_child (name : string) (n : fdt_node) : option fdt_node :=
  cs ← remove_first (select_child name) (node_children n);
  Some (with_children n cs).

(** Split a path into the parent's path and the last name. *)
Fixpoint path_split (p : path) : option (path * string) :=
  match p with
  | [] => None
  | [s] => Some ([], s)
  | s :: rest => '(d, b) ← path_split rest; Some (s :: d, b)
  end.

(** *** The description as the board code holds it *)

(** The operations applied to a description, oldest first: a record kept
    beside the tree so that statements about what was done to it, and in
    which order, can be made.  An operation is recorded when it is called,
    whether or not libfdt carries it out. *)
Inductive fdt_op :=
  | OpSetProp (p : path) (name value : string)
  | OpAddSubnode (p : path)
  | OpDelNode (p : path)
  | OpCreateMachine.

#[global] Instance fdt_op_eq_dec : EqDecision fdt_op.
Proof. solve_decision. Defined.

(** What [void *fdt] points to: the tree and the record of operations. *)
Record fdt_blob := {
  fdt_root : fdt_node;
  fdt_history : list fdt_op }.

Definition blob_step (fdt : fdt_blob) (root : fdt_node) (op : fdt_op) : fdt_blob :=
  {| fdt_root := root; fdt_history := fdt_history fdt ++ [op] |}.

Definition tree_setprop (t : fdt_node) (p : path) (name value : string)
  : option fdt_node :=
  fdt_alter (fun n => Some (set_prop name value n)) p t.

Definition tree_add_subnode (t : fdt_node) (p : path) : option fdt_node :=
  '(d, b) ← path_split p; fdt_alter (add_first_child b) d t.

Definition tree_del_node (t : fdt_node) (p : path) : option fdt_node :=
  '(d, b) ← path_split p; fdt_alter (remove_child b) d t.

(** *** The operations the board code calls *)

(** [fdt_setprop(fdt, fdt_path_offset(fdt, p), name, val, len)]: the
    result code is dropped by the callers, so an unresolved path leaves
    the tree as it is. *)
Definition fdt_setprop (fdt : fdt_blob) (p : path) (name value : string) : fdt_blob :=
  blob_step fdt (default (fdt_root fdt) (tree_setprop (fdt_root fdt) p name value))
            (OpSetProp p name value).

(** [fdt_del_node(fdt, fdt_path_offset(fdt, p))], result code dropped. *)
Definition fdt_del_node (fdt : fdt_blob) (p : path) : fdt_blob :=
  blob_step fdt (default (fdt_root fdt) (tree_del_node (fdt_root fdt) p))
            (OpDelNode p).

(** The [qemu_fdt_*] writers end the process when libfdt refuses. *)
Definition qemu_fdt_setprop (fdt : fdt_blob) (p : path) (name value : string)
  : outcome fdt_blob :=
  match tree_setprop (fdt_root fdt) p name value with
  | Some t => Done (blob_step fdt t (OpSetProp p name value))
  | None => Exit 1 "qemu_fdt_setprop: Couldn't set property"
  end.

Definition qemu_fdt_setprop_string (fdt : fdt_blob) (p : path) (name s : string)
  : outcome fdt_blob :=
  qemu_fdt_setprop fdt p name (string_value s).

Definition qemu_fdt_setprop_cells (fdt : fdt_blob) (p : path) (name : string)
    (cells : list Z) : outcome fdt_blob :=
  qemu_fdt_setprop fdt p name (cells_value cells).

(** A new, empty node becomes the first child of its parent; the parent
    must resolve and must not already have a child the name selects. *)
Definition qemu_fdt_add_subnode (fdt : fdt_blob) (p : path) : outcome fdt_blob :=
  match tree_add_subnode (fdt_root fdt) p with
  | Some t => Done (blob_step fdt t (OpAddSubnode p))
  | None => Exit 1 "FDT: Failed to create subnode"
  end.

(** [qemu_fdt_getprop] with a null [errp]: the raw value, or [NULL]. *)
Definition qemu_fdt_getprop (fdt : fdt_blob) (p : path) (name : string)
  : option string :=
  n ← fdt_path_offset (fdt_root fdt) p; node_props n !! name.

(** [qemu_fdt_getprop_cell] with a null [errp]: 0 when the property or the
    cell is missing. *)
Definition qemu_fdt_getprop_cell (fdt : fdt_blob) (p : path) (name : string)
    (offset : nat) : Z :=
  default 0 (v ← qemu_fdt_getprop fdt p name; read_cell v offset).

Definition fdt_node_check_compatible (n : fdt_node) (compat : string) : bool :=
  match node_props n !! "compatible"%string with
  | Some v => bool_decide (compat ∈ stringlist v)
  | None => false
  end.

(** Every node below the root whose compatible list has [compat], in
    tree order: the nodes [fdt_node_offset_by_compatible] steps through
    when started at offset 0. *)
Definition fdt_nodes_by_compatible (fdt : fdt_blob) (compat : string) : list path :=
  fst <$> List.filter (fun pn => fdt_node_check_compatible pn.2 compat)
                      (fdt_subnodes [] (fdt_root fdt)).

(** [qemu_devtree_node_by_compatible]: the first such node ([Some] stands
    for the return value 0). *)
Definition qemu_devtree_node_by_compatible (fdt : fdt_blob) (compat : string)
  : option path :=
  head (fdt_nodes_by_compatible fdt compat).

Definition qemu_devtree_get_node_by_name (fdt : fdt_blob) (cmpname : string)
  : option path :=
  head (fst <$> List.filter (fun pn => devtree_name_eq (node_name pn.2) cmpname)
                            (fdt_subnodes [] (fdt_root fdt))).

(** Children one level below a node, as paths. *)
Definition qemu_devtree_get_children (fdt : fdt_blob) (p : path) : list path :=
  match fdt_path_offset (fdt_root fdt) p with
  | Some n => (fun c => p ++ [node_name c]) <$> node_children n
  | None => []
  end.

Definition qemu_devtree_get_num_children (fdt : fdt_blob) (p : path) : Z :=
  Z.of_nat (length (qemu_devtree_get_children fdt p)).

(** The parent of a node that resolves and is not the root ([Some] stands
    for the return value 0). *)
Definition qemu_devtree_getparent (fdt : fdt_blob) (p : path) : option path :=
  match fdt_path_offset (fdt_root fdt) p, path_split p with
  | Some _, Some (d, _) => Some d
  | _, _ => None
  end.

(** [qemu_fdt_get_phandle] ends the process when the node has none. *)
Definition qemu_fdt_get_phandle (fdt : fdt_blob) (p : path) : outcome Z :=
  match fdt_path_offset (fdt_root fdt) p with
  | None => Exit 1 "qemu_fdt_get_phandle: Couldn't find node"
  | Some n =>
      let r := default 0 (v ← node_props n !! "phandle"%string; read_cell v 0) in
      if r =? 0 then Exit 1 "qemu_fdt_get_phandle: Couldn't get phandle"
      else Done r
  end.

(* ===================================================================== *)
(** ** The device-tree driven machine *)
(* ===================================================================== *)

Definition GENERAL_MACHINE_NAME : string := "arm-generic-fdt".
Definition ZYNQ7000_MACHINE_NAME : string := "arm-generic-fdt-7series".
Definition DEP_GENERAL_MACHINE_NAME : string := "arm-generic-fdt-plnx".
Definition MAX_CPUS : Z := 4.
Definition ZYNQ7000_MPCORE_PERIPHBASE : Z := 0xF8F00000.
Definition SMP_BOOT_ADDR : Z := 0xfffffff0.
(* Meaningless, but keeps arm boot happy *)
Definition SMP_BOOTREG_ADDR : Z := 0xfffffffc.

(** Entry point for secondary CPU: the initial content of the static
    array [zynq_smpboot]. *)
Definition zynq_smpboot : list Z :=
  [ 0xe320f003 (* wfi *);
    0xeafffffd (* beq     <wfi> *) ].

(** *** Tree patches *)

Definition zynq7000_usb_nuke_phy (fdt : fdt_blob) : outcome fdt_blob :=
  match qemu_devtree_node_by_compatible fdt "xlnx,ps7-usb-1.00.a" with
  | Some usb_node_path =>
      qemu_fdt_setprop_string fdt usb_node_path "dr_mode" "host"
  | None => Done fdt
  end.

Definition QSPI_DUMMY_NAME : string := "ps7-qspi-dummy@0".

(** Returns the patched description and the name of the cloned node
    ([None] is the null pointer). *)
Definition zynq7000_qspi_flash_node_clone (fdt : fdt_blob)
  : outcome (fdt_blob * option path) :=
  (* search for ps7 qspi node *)
  match qemu_devtree_node_by_compatible fdt "xlnx,zynq-qspi-1.0" with
  | None => Done (fdt, None)
  | Some qspi_node_path =>
      let qspi_is_dual := qemu_fdt_getprop_cell fdt qspi_node_path "is-dual" 0 in
      (* Set bus-cells property to 1 *)
      let fdt := fdt_setprop fdt qspi_node_path "#bus-cells" (cell_value 1) in
      (* Generate dummy name *)
      let qspi_new_node_path := qspi_node_path ++ [QSPI_DUMMY_NAME] in
      (* get the spi flash node to clone from (assume first child node) *)
      match qemu_devtree_get_children fdt qspi_node_path with
      | [] => Done (fdt, None)
      | child_flash_0 :: _ =>
          let compat_str := qemu_fdt_getprop fdt child_flash_0 "compatible" in
          (* Attach Default flash node to bus 1 *)
          let fdt := fdt_setprop fdt child_flash_0 "reg" (cells_value [0; 0]) in
          match compat_str with
          | None => Done (fdt, None)
          | Some compat_bytes =>
              if qspi_is_dual =? 1 then
                (* Clone first node, preserving only 'compatible' value *)
                fdt ← qemu_fdt_add_subnode fdt qspi_new_node_path;
                fdt ← qemu_fdt_setprop_string fdt qspi_new_node_path
                        "compatible" (cstring compat_bytes);
                (* Attach Dummy flash node to bus 0 *)
                let fdt := fdt_setprop fdt qspi_new_node_path "reg"
                                       (cells_value [0; 1]) in
                Done (fdt, Some qspi_new_node_path)
              else Done (fdt, None)
          end
      end
  end.

(** The interrupt-controller quirk of [arm_generic_fdt_init]: ensure that
    an interrupt controller exists before disabling it. *)
Definition zynq7000_disable_gic (fdt : fdt_blob) : outcome fdt_blob :=
  match qemu_devtree_get_node_by_name fdt "interrupt-controller" with
  | Some node_path =>
      qemu_fdt_setprop_cells fdt node_path "disable-linux-gic-init" [1]
  | None => Done fdt
  end.

(** The reset-cbar loop: every A9 CPU node gets the SCU base. *)
Fixpoint zynq7000_set_reset_cbar (fdt : fdt_blob) (cpus : list path)
  : outcome fdt_blob :=
  match cpus with
  | [] => Done fdt
  | node_path :: rest =>
      fdt ← qemu_fdt_setprop_cells fdt node_path "reset-cbar"
              [ZYNQ7000_MPCORE_PERIPHBASE];
      zynq7000_set_reset_cbar fdt rest
  end.

(** Find a memory node or add new one if needed.  The loop of the source
    adds ["/memory@0"] while no node is called memory; a second turn that
    still finds none is refused by [qemu_fdt_add_subnode], the node being
    there by then. *)
Definition find_or_add_memory_node (fdt : fdt_blob) (ram_size : Z)
  : outcome (fdt_blob * path) :=
  match qemu_devtree_get_node_by_name fdt "memory" with
  | Some node_path => Done (fdt, node_path)
  | None =>
      fdt ← qemu_fdt_add_subnode fdt ["memory@0"%string];
      fdt ← qemu_fdt_setprop_cells fdt ["memory@0"%string] "reg"
              [0; wrap32 ram_size];
      match qemu_devtree_get_node_by_name fdt "memory" with
      | Some node_path => Done (fdt, node_path)
      | None =>
          fdt ← qemu_fdt_add_subnode fdt ["memory@0"%string];
          Exit 1 "FDT: Failed to create subnode"
      end
  end.

Definition mark_memory_node (fdt : fdt_blob) : outcome fdt_blob :=
  match qemu_fdt_getprop fdt ["memory"%string] "compatible" with
  | Some _ => Done fdt
  | None =>
      fdt ← qemu_fdt_setprop_string fdt ["memory"%string] "compatible"
              "qemu:memory-region";
      qemu_fdt_setprop_cells fdt ["memory"%string] "qemu,ram" [1]
  end.

(** *** The MDIO connect task *)

(** QOM objects are known by their address; 0 is the null pointer. *)
Definition Object := Z.

(** Modelled from the spec: the instance table of [FDTMachineInfo] and its
    accessors [fdt_init_set_opaque], [fdt_init_has_opaque] and
    [fdt_init_get_opaque] are not part of this file.  [register_instance]
    publishes a handle under a node path; [lookup_instance] finds it. *)
Record FDTMachineInfo := {
  fdti_fdt : fdt_blob;
  fdti_dev_opaques : gmap path Object }.

Definition fdt_init_set_opaque (fdti : FDTMachineInfo) (node_path : path)
    (opaque : Object) : FDTMachineInfo :=
  {| fdti_fdt := fdti_fdt fdti;
     fdti_dev_opaques := <[node_path := opaque]> (fdti_dev_opaques fdti) |}.

Definition fdt_init_has_opaque (fdti : FDTMachineInfo) (node_path : path) : bool :=
  bool_decide (is_Some (fdti_dev_opaques fdti !! node_path)).

Definition fdt_init_get_opaque (fdti : FDTMachineInfo) (node_path : path) : Object :=
  default 0 (fdti_dev_opaques fdti !! node_path).

(** What a task does that others can see, oldest first. *)
Inductive task_event :=
  | EvSetOpaque (node_path : path) (opaque : Object)
  | EvYield
  | EvAddChild (parent : Object) (name : string) (child : Object)
  | EvSetLink (parent : Object) (name : string) (target : Object).

#[global] Instance task_event_eq_dec : EqDecision task_event.
Proof. solve_decision. Defined.

(** The object graph as far as the task writes it. *)
Record builder_world := {
  bw_fdti : FDTMachineInfo;
  bw_children : list (Object * string * Object);
  bw_links : list (Object * string * Object);
  bw_trace : list task_event }.

(** Where the coroutine running [zynq7000_mdio_phy_connect] stands:
    not entered yet, parked in [fdt_init_yield] inside the wait loop,
    returned, or ended in [abort()]. *)
Inductive mdio_task :=
  | MdioEntry
  | MdioYielded (parent_node_path : path)
  | MdioReturned (ret : Z)
  | MdioAborted.

#[global] Instance mdio_task_eq_dec : EqDecision mdio_task.
Proof. solve_decision. Defined.

(** The wait loop and what follows it: run until the next yield or the
    return. *)
Definition mdio_wait_for_parent (Opaque : Object) (parent_node_path : path)
    (bw : builder_world) : mdio_task * builder_world :=
  if fdt_init_has_opaque (bw_fdti bw) parent_node_path then
    (* Get the parent obj (i.e gem object), which was registerd in fdti *)
    let parent := fdt_init_get_opaque (bw_fdti bw) parent_node_path in
    (MdioReturned 0,
     {| bw_fdti := bw_fdti bw;
        (* Add parent to mdio node *)
        bw_children := bw_children bw ++ [(parent, "mdio_child"%string, Opaque)];
        (* Set mdio property of gem device *)
        bw_links := bw_links bw ++ [(parent, "mdio"%string, Opaque)];
        bw_trace := bw_trace bw ++ [EvAddChild parent "mdio_child" Opaque;
                                    EvSetLink parent "mdio" Opaque] |})
  else
    (MdioYielded parent_node_path,
     {| bw_fdti := bw_fdti bw;
        bw_children := bw_children bw;
        bw_links := bw_links bw;
        bw_trace := bw_trace bw ++ [EvYield] |}).

(** One turn of the coroutine: from where the task stands to its next
    yield, its return or its abort. *)
Definition zynq7000_mdio_phy_connect (node_path : path) (Opaque : Object)
    (task : mdio_task) (bw : builder_world) : mdio_task * builder_world :=
  match task with
  | MdioEntry =>
      (* Register MDIO obj instance to fdti, useful during child registration *)
      let bw :=
        {| bw_fdti := fdt_init_set_opaque (bw_fdti bw) node_path Opaque;
           bw_children := bw_children bw;
           bw_links := bw_links bw;
           bw_trace := bw_trace bw ++ [EvSetOpaque node_path Opaque] |} in
      match qemu_devtree_getparent (fdti_fdt (bw_fdti bw)) node_path with
      | None => (MdioAborted, bw)
      | Some parent_node_path =>
          (* Wait for the parent to be created *)
          mdio_wait_for_parent Opaque parent_node_path bw
      end
  | MdioYielded parent_node_path =>
      mdio_wait_for_parent Opaque parent_node_path bw
  | MdioReturned _ | MdioAborted => (task, bw)
  end.

(** Modelled from the spec: the scheduler is not part of this file.  It
    resumes a parked task some number of times; between two turns other
    tasks may publish instances of their own.  A schedule lists, for each
    turn given to the MDIO task, what the others registered before it. *)
Definition others_register (bw : builder_world) (regs : list (path * Object))
  : builder_world :=
  {| bw_fdti := fold_left (fun fdti r => fdt_init_set_opaque fdti r.1 r.2)
                          regs (bw_fdti bw);
     bw_children := bw_children bw;
     bw_links := bw_links bw;
     bw_trace := bw_trace bw |}.

Fixpoint mdio_run (node_path : path) (Opaque : Object)
    (schedule : list (list (path * Object))) (task : mdio_task)
    (bw : builder_world) : mdio_task * builder_world :=
  match schedule with
  | [] => (task, bw)
  | regs :: rest =>
      let '(task', bw') :=
        zynq7000_mdio_phy_connect node_path Opaque task (others_register bw regs) in
      mdio_run node_path Opaque rest task' bw'
  end.

Definition mdio_settled (task : mdio_task) : bool :=
  match task with
  | MdioReturned _ | MdioAborted => true
  | MdioEntry | MdioYielded _ => false
  end.

(** *** Machine state outside the description *)

Record rom_blob := {
  rom_name : string;
  rom_data : list Z;
  rom_addr : Z }.

(** Where a region is placed: in the system memory or in the region that
    stands for a node. *)
Inductive container :=
  | SystemMemory
  | RegionOfNode (node_path : path).

Inductive mapping :=
  | MapRam (into : container) (r : ram_region)
  | MapNodeRegion (into : container) (node_path : path) (offset : Z).

(** The process-wide state the machine init reads and writes: stderr, the
    memory map, the global [ram_size], the ["size"] option of the
    ["memory"] option group, the static boot descriptor, the ROM blobs,
    the static array [zynq_smpboot] and whether the kernel loader ran. *)
Record world := {
  w_stderr : list string;
  w_map : list mapping;
  w_ram_size : Z;
  w_memory_opt_size : option Z;
  w_binfo : arm_boot_info;
  w_roms : list rom_blob;
  w_smpboot : list Z;
  w_kernel_loaded : bool }.

Definition world_at_start (ram_size : Z) : world :=
  {| w_stderr := []; w_map := []; w_ram_size := ram_size;
     w_memory_opt_size := None; w_binfo := binfo_zero; w_roms := [];
     w_smpboot := zynq_smpboot; w_kernel_loaded := false |}.

Definition world_print (w : world) (msg : string) : world :=
  {| w_stderr := w_stderr w ++ [msg]; w_map := w_map w;
     w_ram_size := w_ram_size w; w_memory_opt_size := w_memory_opt_size w;
     w_binfo := w_binfo w; w_roms := w_roms w; w_smpboot := w_smpboot w;
     w_kernel_loaded := w_kernel_loaded w |}.

Definition world_map (w : world) (m : mapping) : world :=
  {| w_stderr := w_stderr w; w_map := w_map w ++ [m];
     w_ram_size := w_ram_size w; w_memory_opt_size := w_memory_opt_size w;
     w_binfo := w_binfo w; w_roms := w_roms w; w_smpboot := w_smpboot w;
     w_kernel_loaded := w_kernel_loaded w |}.

Definition world_set_ram_size (w : world) (size : Z) : world :=
  {| w_stderr := w_stderr w; w_map := w_map w;
     w_ram_size := size; w_memory_opt_size := Some size;
     w_binfo := w_binfo w; w_roms := w_roms w; w_smpboot := w_smpboot w;
     w_kernel_loaded := w_kernel_loaded w |}.

Definition world_set_binfo (w : world) (bi : arm_boot_info) : world :=
  {| w_stderr := w_stderr w; w_map := w_map w;
     w_ram_size := w_ram_size w; w_memory_opt_size := w_memory_opt_size w;
     w_binfo := bi; w_roms := w_roms w; w_smpboot := w_smpboot w;
     w_kernel_loaded := w_kernel_loaded w |}.

(** *** Secondary boot code *)

Section ByteOrder.
(** The byte orders of the host and of the emulated target ([true] is
    big-endian) are fixed when QEMU is built. *)
Variable host_big_endian target_big_endian : bool.

Definition tswap32 (x : Z) : Z :=
  if Bool.eqb host_big_endian target_big_endian then x else bswap32 x.

(** The words of [zynq_smpboot] are swapped in place, then the array's
    bytes, as they lie in host memory, are copied into a ROM blob. *)
Definition arm_write_secondary_boot (w : world) : world :=
  let smpboot := tswap32 <$> w_smpboot w in
  {| w_stderr := w_stderr w; w_map := w_map w;
     w_ram_size := w_ram_size w; w_memory_opt_size := w_memory_opt_size w;
     w_binfo := w_binfo w;
     w_roms := w_roms w ++
               [{| rom_name := "smpboot";
                   rom_data := flat_map (mem_bytes32 host_big_endian) smpboot;
                   rom_addr := SMP_BOOT_ADDR |}];
     w_smpboot := smpboot;
     w_kernel_loaded := w_kernel_loaded w |}.

(** Modelled from the spec: the kernel loader [arm_load_kernel] is not
    part of this file.  It is handed the boot descriptor and, for a
    multi-core configuration, calls the descriptor's secondary-boot hook
    to inject the spin code. *)
Definition arm_load_kernel (info : arm_boot_info) (w : world) : world :=
  let w :=
    match bi_write_secondary_boot info with
    | Some ArmWriteSecondaryBoot =>
        if 1 <? bi_nb_cpus info then arm_write_secondary_boot w else w
    | None => w
    end in
  {| w_stderr := w_stderr w; w_map := w_map w;
     w_ram_size := w_ram_size w; w_memory_opt_size := w_memory_opt_size w;
     w_binfo := w_binfo w; w_roms := w_roms w; w_smpboot := w_smpboot w;
     w_kernel_loaded := true |}.
End ByteOrder.

(** *** Memory sizing *)

(** What a memory-region node describes: the three cells of its ["reg"]
    property folded into one 64-bit number. *)
Definition memory_reg_value (fdt : fdt_blob) (mem_node_path : path) : Z :=
  let reg_value := qemu_fdt_getprop_cell fdt mem_node_path "reg" 0 in
  let reg_value := wrap64 (Z.shiftl reg_value 32) in
  let reg_value := wrap64 (reg_value + qemu_fdt_getprop_cell fdt mem_node_path "reg" 1) in
  wrap64 (reg_value + qemu_fdt_getprop_cell fdt mem_node_path "reg" 2).

(** The scan over the ["qemu:memory-region"] nodes: only top level nodes
    whose container is the main memory node count; the largest amount
    seen is kept. *)
Fixpoint scan_memory_max (fdt : fdt_blob) (node_path : path)
    (regions : list path) (memory_max : Z) : outcome Z :=
  match regions with
  | [] => Done memory_max
  | mem_node_path :: rest =>
      (* Check that it is top level memory *)
      if (length mem_node_path =? 1)%nat then
        let mem_container := qemu_fdt_getprop_cell fdt mem_node_path "container" 0 in
        phandle ← qemu_fdt_get_phandle fdt node_path;
        if negb (mem_container =? phandle) then
          scan_memory_max fdt node_path rest memory_max
        else
          let reg_value := memory_reg_value fdt mem_node_path in
          scan_memory_max fdt node_path rest
            (if memory_max <? reg_value then reg_value else memory_max)
      else scan_memory_max fdt node_path rest memory_max
  end.

Section Reconciler.
(** The two constants come from [hw/arm/xlnx-zynqmp.h], which is not
    part of this file: the most RAM that fits below the low/high split
    and the address at which the high range starts. *)
Variable XLNX_ZYNQMP_MAX_LOW_RAM_SIZE : Z.
Variable XLNX_ZYNQMP_HIGH_RAM_START : Z.

(** We now have the maximum amount of DDR that has been created:
    [memory_max].  [mem_area] is the region new RAM is placed in. *)
Definition reconcile_ram (mem_area : container) (memory_max machine_ram_size : Z)
    (w : world) : world :=
  if memory_max <? machine_ram_size then
    let '(ddr_low_size, w) :=
      if XLNX_ZYNQMP_MAX_LOW_RAM_SIZE <? machine_ram_size then
        let ddr_low_size := wrap64 (XLNX_ZYNQMP_MAX_LOW_RAM_SIZE - memory_max) in
        let ddr_high_size := wrap64 (machine_ram_size - XLNX_ZYNQMP_MAX_LOW_RAM_SIZE) in
        (ddr_low_size,
         world_map w (MapRam mem_area
                        {| rr_name := "ddr-ram-high"; rr_size := ddr_high_size;
                           rr_offset := XLNX_ZYNQMP_HIGH_RAM_START |}))
      else
        (wrap64 (machine_ram_size - memory_max), w) in
    if negb (ddr_low_size =? 0) then
      world_map w (MapRam mem_area
                     {| rr_name := "ddr-ram-low"; rr_size := ddr_low_size;
                        rr_offset := memory_max |})
    else w
  else
    (* The device tree generated more or equal amount of memory then
       the user specified. Set that internally in QEMU. *)
    world_set_ram_size w memory_max.
End Reconciler.

(** *** The machine init *)

Record MachineState := {
  machine_class_name : string;
  machine_ram_size : Z;
  machine_kernel_filename : option string;
  machine_kernel_cmdline : option string;
  machine_initrd_filename : option string;
  (** the ["dtb"] and ["hw-dtb"] machine options *)
  machine_opt_dtb : option string;
  machine_opt_hw_dtb : option string }.

(** What the instantiation pass leaves for the board code: the number of
    CPUs it created and, for a node path, the memory region object of that
    name with its ["addr"] and ["size"] properties. *)
Record memory_region_obj := {
  mro_addr : Z;
  mro_size : Z;
  mro_mapped : bool }.

Record machine_objects := {
  fdt_generic_num_cpus : Z;
  object_resolve_path : path -> option memory_region_obj }.

(** Map every memory-region node that is not mapped yet (Zynq-7000). *)
Fixpoint map_memory_regions (objs : machine_objects) (regions : list path)
    (w : world) : outcome world :=
  match regions with
  | [] => Done w
  | node_path :: rest =>
      match object_resolve_path objs node_path with
      | None => Abort
      | Some mem_area =>
          let w :=
            if negb (mro_mapped mem_area)
            then world_map w (MapNodeRegion SystemMemory node_path (mro_addr mem_area))
            else w in
          map_memory_regions objs rest w
      end
  end.

Section Machine.
Variable host_big_endian target_big_endian : bool.
Variable XLNX_ZYNQMP_MAX_LOW_RAM_SIZE : Z.
Variable XLNX_ZYNQMP_HIGH_RAM_START : Z.
(** [load_device_tree]: the tree in a file and its size, or null. *)
Variable load_device_tree : string -> option (fdt_node * Z).
(** Modelled from the spec: the Topology Builder
    [fdt_generic_create_machine] is not part of this file.  It walks the
    patched tree and instantiates the components; the tree is not
    mutated by it. *)
Variable create_machine_objects : fdt_node -> machine_objects.

Definition fdt_generic_create_machine (fdt : fdt_blob)
  : fdt_blob * machine_objects :=
  (blob_step fdt (fdt_root fdt) OpCreateMachine,
   create_machine_objects (fdt_root fdt)).

(** The patches applied when booting a Zynq-7000 machine. *)
Definition zynq7000_patches (fdt : fdt_blob) : outcome (fdt_blob * option path) :=
  (* Added a dummy flash node, if is-dual property is set to 1 *)
  '(fdt, qspi_clone_spi_flash_node_name) ← zynq7000_qspi_flash_node_clone fdt;
  fdt ← zynq7000_disable_gic fdt;
  fdt ← zynq7000_set_reset_cbar fdt (fdt_nodes_by_compatible fdt "arm,cortex-a9");
  Done (fdt, qspi_clone_spi_flash_node_name).

(** Remove cloned DTB node. *)
Definition remove_cloned_node (fdt : fdt_blob)
    (qspi_clone_spi_flash_node_name : option path) : fdt_blob :=
  match qspi_clone_spi_flash_node_name with
  | Some name => fdt_del_node fdt name
  | None => fdt
  end.

Definition arm_generic_fdt_init (machine : MachineState) (w : world)
  : outcome (fdt_blob * world) :=
  (* If booting a Zynq-7000 Machine *)
  let '(zynq_7000, w) :=
    if String.eqb (machine_class_name machine) ZYNQ7000_MACHINE_NAME
    then (true, w)
    else if String.eqb (machine_class_name machine) DEP_GENERAL_MACHINE_NAME
    then (true,
          world_print w "The 'arm-generic-fdt-plnx' machine has been deprecated. Please use 'arm-generic-fdt-7series' instead.")
    else (false, w) in
  let dtb_arg := machine_opt_dtb machine in
  let hw_dtb_arg := machine_opt_hw_dtb machine in
  if bool_decide (dtb_arg = None) && bool_decide (hw_dtb_arg = None)
  then Abort  (* hw_error: DTB must be specified *)
  else
    (* Software dtb is always the -dtb arg *)
    sw ← match dtb_arg with
         | Some f =>
             match load_device_tree f with
             | Some t => Done (Some t)
             | None => Exit 1 "Error: Unable to load Device Tree"
             end
         | None => Done None
         end;
    (* If the user provided a -hw-dtb, use it as the hw description. *)
    hw ← match hw_dtb_arg with
         | Some f =>
             match load_device_tree f with
             | Some t => Done (Some t)
             | None => Exit 1 "Error: Unable to load Device Tree"
             end
         | None => Done sw
         end;
    match hw with
    | None => Abort
    | Some (root, _) =>
      let fdt := {| fdt_root := root; fdt_history := [] |} in
      '(fdt, qspi_clone_spi_flash_node_name) ←
        (if zynq_7000 then zynq7000_patches fdt else Done (fdt, None));
      (* Find a memory node or add new one if needed *)
      '(fdt, node_path) ← find_or_add_memory_node fdt (machine_ram_size machine);
      fdt ← mark_memory_node fdt;
      (* Instantiate peripherals from the FDT. *)
      let '(fdt, objs) := fdt_generic_create_machine fdt in
      match object_resolve_path objs node_path with
      | None => Abort
      | Some mem_area =>
        let ram_kernel_base := mro_addr mem_area in
        let ram_kernel_size := mro_size mem_area in
        w ← (if zynq_7000
             then map_memory_regions objs
                    (fdt_nodes_by_compatible fdt "qemu:memory-region") w
             else Done w);
        (* For ZynqMP let's find out how much memory we have already
           created, then based on what the user ser with '-m' let's add
           more if needed. *)
        w ← (if negb zynq_7000 then
               memory_max ← scan_memory_max fdt node_path
                              (fdt_nodes_by_compatible fdt "qemu:memory-region") 0;
               Done (reconcile_ram XLNX_ZYNQMP_MAX_LOW_RAM_SIZE
                       XLNX_ZYNQMP_HIGH_RAM_START (RegionOfNode node_path)
                       memory_max (machine_ram_size machine) w)
             else Done w);
        let arm_generic_fdt_binfo :=
          {| bi_ram_size := ram_kernel_size;
             bi_kernel_filename := machine_kernel_filename machine;
             bi_kernel_cmdline := machine_kernel_cmdline machine;
             bi_initrd_filename := machine_initrd_filename machine;
             bi_nb_cpus := fdt_generic_num_cpus objs;
             bi_board_id := 0xd32;
             bi_loader_start := ram_kernel_base;
             bi_smp_loader_start := SMP_BOOT_ADDR;
             bi_smp_bootreg_addr := SMP_BOOTREG_ADDR;
             bi_write_secondary_boot := Some ArmWriteSecondaryBoot;
             bi_fdt_present := bool_decide (is_Some sw);
             bi_fdt_size := match sw with Some (_, n) => n | None => 0 end;
             bi_secure_boot := true |} in
        let w := world_set_binfo w arm_generic_fdt_binfo in
        let fdt := remove_cloned_node fdt qspi_clone_spi_flash_node_name in
        fdt ← (if zynq_7000 then zynq7000_usb_nuke_phy fdt else Done fdt);
        let w :=
          match machine_kernel_filename machine with
          | Some _ =>
              arm_load_kernel host_big_endian target_big_endian
                arm_generic_fdt_binfo w
          | None => w
          end in
        Done (fdt, w)
      end
    end.
End Machine.

(** *** The Zynq-7000 machine init *)

Inductive nand_manufacturer := NAND_MFR_STMICRO.

(** The calls [arm_generic_fdt_7000_init] makes into the device framework
    around the general init, in the order it makes them.  A call that
    names no device is about the device created last. *)
Inductive device_call :=
  | DevVmstateRegisterRamGlobal (name : string)
  | DevQdevCreate (model : string)
  | DevAddUnattachedChild (name : string)
  | DevPropSetUint (prop : string) (value : Z)
  | DevNandInit (has_drive : bool) (manf : nand_manufacturer) (chip : Z)
  | DevSetLink (name : string)
  | DevInitNofail
  | DevMmioMap (n : Z) (addr : Z)
  | AddToCompatTable (key : string)
  | AddToInstBindTableMdioPhyConnect (key : string).

(** 256K of on-chip memory, as [arm_generic_fdt_7000_init] places it. *)
Definition zynq_ocm_ram : ram_region :=
  {| rr_name := "zynq.ocm_ram"; rr_size := Z.shiftl 256 10;
     rr_offset := 0xFFFC0000 |}.

Section Machine7000.
Variable host_big_endian target_big_endian : bool.
Variable XLNX_ZYNQMP_MAX_LOW_RAM_SIZE : Z.
Variable XLNX_ZYNQMP_HIGH_RAM_START : Z.
Variable load_device_tree : string -> option (fdt_node * Z).
Variable create_machine_objects : fdt_node -> machine_objects.
(** Whether [drive_get_next(IF_PFLASH)] finds a drive. *)
Variable pflash_drive : bool.

(** Returns the device calls, the description and the world.  The global
    [fdt_generic_num_cpus] is read back from the boot descriptor, where
    the general init has just stored it. *)
Definition arm_generic_fdt_7000_init (machine : MachineState) (w : world)
  : outcome (list device_call * fdt_blob * world) :=
  let w := world_map w (MapRam SystemMemory zynq_ocm_ram) in
  let before :=
    [ DevVmstateRegisterRamGlobal "zynq.ocm_ram";
      DevQdevCreate "arm.pl35x";
      DevAddUnattachedChild "pl353";
      DevPropSetUint "x" 3;
      DevNandInit pflash_drive NAND_MFR_STMICRO 0xaa;
      DevSetLink "dev1";
      DevInitNofail;
      DevMmioMap 0 0xe000e000;
      DevMmioMap 2 0xe1000000;
      (* Mark the simple-bus as incompatible as it breaks the Zynq boot *)
      AddToCompatTable "compatible:simple-bus";
      DevQdevCreate "mdio";
      DevInitNofail;
      (* Add MDIO Connect Call back *)
      AddToInstBindTableMdioPhyConnect "mdio" ] in
  '(fdt, w) ← arm_generic_fdt_init host_big_endian target_big_endian
                XLNX_ZYNQMP_MAX_LOW_RAM_SIZE XLNX_ZYNQMP_HIGH_RAM_START
                load_device_tree create_machine_objects machine w;
  let fdt_generic_num_cpus := bi_nb_cpus (w_binfo w) in
  let after :=
    [ DevQdevCreate "a9-scu";
      DevPropSetUint "num-cpu" fdt_generic_num_cpus;
      DevInitNofail;
      DevMmioMap 0 ZYNQ7000_MPCORE_PERIPHBASE ] in
  Done (before ++ after, fdt, w).
End Machine7000.

(* ===================================================================== *)
(** ** Vocabulary of the statements *)
(* ===================================================================== *)

(** The sizes of the RAM regions of a given name that a list of calls
    initialises. *)
Definition ram_inits (name : string) (calls : list board_call) : list Z :=
  flat_map (fun c => match c with
                     | MemoryRegionInitRam n size =>
                         if String.eqb n name then [size] else []
                     | _ => []
                     end) calls.

Definition MiB : Z := 1024 * 1024.
Definition GiB : Z := 1024 * MiB.

(** The blob deposited last. *)
Definition last_rom (w : world) : option rom_blob := last (w_roms w).

(** Whether some node below the root lists [compat] as compatible, and
    whether some node below the root is called [cmpname] (up to the unit
    address). *)
Definition has_compatible_node (fdt : fdt_blob) (compat : string) : bool :=
  existsb (fun pn => fdt_node_check_compatible pn.2 compat)
          (fdt_subnodes [] (fdt_root fdt)).

Definition has_named_node (fdt : fdt_blob) (cmpname : string) : bool :=
  existsb (fun pn => devtree_name_eq (node_name pn.2) cmpname)
          (fdt_subnodes [] (fdt_root fdt)).

(** The deletions among the operations applied to a description. *)
Definition is_del_node (op : fdt_op) : bool :=
  match op with OpDelNode _ => true | _ => false end.

Definition deletions (ops : list fdt_op) : list fdt_op :=
  List.filter is_del_node ops.

(** The names of the children of the node a path resolves to.  Which node
    a path selects depends on names only, so this is what an operation has
    to keep for paths to go on meaning the same nodes. *)
Definition child_names (n : fdt_node) : list string :=
  node_name <$> node_children n.

Definition names_at (t : fdt_node) (q : path) : option (list string) :=
  child_names <$> fdt_path_offset t q.

Definition same_names (t t' : fdt_node) : Prop :=
  forall q, names_at t' q = names_at t q.

(** A function on nodes that keeps the name of the node, and one that
    also keeps the names below it. *)
Definition keeps_name (f : fdt_node -> option fdt_node) : Prop :=
  forall n n', f n = Some n' -> node_name n' = node_name n.

Definition keeps_shape (f : fdt_node -> option fdt_node) : Prop :=
  forall n n', f n = Some n' -> node_name n' = node_name n /\ same_names n n'.

(** The names a path component does not select. *)
Definition unselected (b : string) (names : list string) : Prop :=
  Forall (fun nm => fdt_nodename_eq nm b = false) names.

(** A step that only writes properties: the names stay and no deletion is
    recorded. *)
Definition writes_props (fdt fdt' : fdt_blob) : Prop :=
  same_names (fdt_root fdt) (fdt_root fdt') /\
  exists ops, fdt_history fdt' = fdt_history fdt ++ ops /\ deletions ops = [].

(** When the flash helper node is called for, and under which name: a
    zynq-qspi controller exists, its first child has a compatible
    property, and the controller's is-dual cell is 1. *)
Definition qspi_helper_wanted (fdt : fdt_blob) : option path :=
  qspi ← qemu_devtree_node_by_compatible fdt "xlnx,zynq-qspi-1.0";
  child ← head (qemu_devtree_get_children fdt qspi);
  _ ← qemu_fdt_getprop fdt child "compatible";
  if qemu_fdt_getprop_cell fdt qspi "is-dual" 0 =? 1
  then Some (qspi ++ [QSPI_DUMMY_NAME]) else None.

(** The two machine classes that boot a Zynq-7000. *)
Definition machine_is_zynq_7000 (machine : MachineState) : bool :=
  String.eqb (machine_class_name machine) ZYNQ7000_MACHINE_NAME
  || String.eqb (machine_class_name machine) DEP_GENERAL_MACHINE_NAME.

(** The tree the machine is built from: the one of ["hw-dtb"] when that
    option is given, the one of ["dtb"] otherwise. *)
Definition hw_description (load_device_tree : string -> option (fdt_node * Z))
    (machine : MachineState) : option fdt_node :=
  fst <$> match machine_opt_hw_dtb machine with
          | Some f => load_device_tree f
          | None => machine_opt_dtb machine ≫= load_device_tree
          end.

(** The boot descriptor [arm_generic_fdt_init] fills in. *)
Definition generic_fdt_binfo (machine : MachineState) (objs : machine_objects)
    (mem_area : memory_region_obj) (sw : option (fdt_node * Z)) : arm_boot_info :=
  {| bi_ram_size := mro_size mem_area;
     bi_kernel_filename := machine_kernel_filename machine;
     bi_kernel_cmdline := machine_kernel_cmdline machine;
     bi_initrd_filename := machine_initrd_filename machine;
     bi_nb_cpus := fdt_generic_num_cpus objs;
     bi_board_id := 0xd32;
     bi_loader_start := mro_addr mem_area;
     bi_smp_loader_start := SMP_BOOT_ADDR;
     bi_smp_bootreg_addr := SMP_BOOTREG_ADDR;
     bi_write_secondary_boot := Some ArmWriteSecondaryBoot;
     bi_fdt_present := bool_decide (is_Some sw);
     bi_fdt_size := match sw with Some (_, n) => n | None => 0 end;
     bi_secure_boot := true |}.

(** A stretch of work on a description in which no deletion is
    recorded. *)
Definition no_deletion_since (fdt fdt' : fdt_blob) : Prop :=
  exists ops, fdt_history fdt' = fdt_history fdt ++ ops /\ deletions ops = [].

(** The nodes of a tree without their properties: what is left to compare
    when only the nodes matter. *)
Fixpoint node_shape (n : fdt_node) : fdt_node :=
  FdtNode (node_name n) ∅ (List.map node_shape (node_children n)).

Definition same_shape (fdt fdt' : fdt_blob) : Prop :=
  node_shape (fdt_root fdt') = node_shape (fdt_root fdt).

(** A tree with ["/memory@0"] added as the first node under the root. *)
Definition with_memory_node (t : fdt_node) : fdt_node :=
  with_children t (FdtNode "memory@0" ∅ [] :: node_children t).

(** A small Zynq-7000 description used as a test tree:
    a QSPI controller in dual mode with one flash, an ethernet controller
    with an MDIO bus, and a CPU. *)
Definition leaf (name : string) (props : list (string * string)) : fdt_node :=
  FdtNode name (list_to_map props) [].

Definition sample_flash : fdt_node :=
  leaf "flash@0" [("compatible", string_value "n25q128")].

Definition sample_qspi (is_dual : Z) : fdt_node :=
  FdtNode "spi@e000d000"
    (list_to_map [("compatible", string_value "xlnx,zynq-qspi-1.0");
                  ("is-dual", cell_value is_dual)])
    [sample_flash].

Definition sample_mdio : fdt_node :=
  leaf "mdio" [("compatible", string_value "mdio")].

Definition sample_ethernet : fdt_node :=
  FdtNode "ethernet@e000b000"
    (list_to_map [("compatible", string_value "cdns,gem")])
    [sample_mdio].

Definition sample_amba (is_dual : Z) : fdt_node :=
  FdtNode "amba" ∅ [sample_qspi is_dual; sample_ethernet].

Definition sample_memory : fdt_node :=
  leaf "memory@0" [("compatible", string_value "qemu:memory-region");
                   ("reg", cells_value [0; 0x20000000])].

Definition sample_tree (is_dual : Z) : fdt_node :=
  FdtNode "" ∅ [sample_memory; sample_amba is_dual].

Definition sample_fdt (is_dual : Z) : fdt_blob :=
  {| fdt_root := sample_tree is_dual; fdt_history := [] |}.

Definition sample_mdio_path : path :=
  ["amba"; "ethernet@e000b000"; "mdio"]%string.

Definition sample_ethernet_path : path :=
  ["amba"; "ethernet@e000b000"]%string.

(** The instantiation pass at the moment the MDIO node is reached and
    nothing has been published yet. *)
Definition sample_builder_world : builder_world :=
  {| bw_fdti := {| fdti_fdt := sample_fdt 1; fdti_dev_opaques := ∅ |};
     bw_children := []; bw_links := []; bw_trace := [] |}.


(** A test machine around the test tree: the description is the only
    file there is, the instantiation pass reports [cpus] CPUs and a mapped
    512 MiB region for every node. *)
Definition sample_load (is_dual : Z) (file : string) : option (fdt_node * Z) :=
  if String.eqb file "system.dtb" then Some (sample_tree is_dual, 4096) else None.

Definition sample_create (cpus : Z) (t : fdt_node) : machine_objects :=
  {| fdt_generic_num_cpus := cpus;
     object_resolve_path := fun _ =>
       Some {| mro_addr := 0; mro_size := 512 * MiB; mro_mapped := true |} |}.

Definition sample_machine (kernel : option string) : MachineState :=
  {| machine_class_name := ZYNQ7000_MACHINE_NAME;
     machine_ram_size := 512 * MiB;
     machine_kernel_filename := kernel;
     machine_kernel_cmdline := None;
     machine_initrd_filename := None;
     machine_opt_dtb := Some "system.dtb"%string;
     machine_opt_hw_dtb := None |}.

(** The test machine on a little-endian host for a little-endian target,
    with the ceiling at 2 GiB, started in a fresh process. *)
Definition sample_run (is_dual cpus : Z) (kernel : option string)
  : outcome (fdt_blob * world) :=
  arm_generic_fdt_init false false (2 * GiB) 0x800000000
    (sample_load is_dual) (sample_create cpus) (sample_machine kernel)
    (world_at_start (512 * MiB)).

Definition sample_result (is_dual cpus : Z) (kernel : option string)
  : fdt_blob * world :=
  match sample_run is_dual cpus kernel with
  | Done r => r
  | _ => (sample_fdt is_dual, world_at_start 0)
  end.

Definition sample_qspi_path : path := ["amba"; "spi@e000d000"]%string.

Definition sample_helper_path : path :=
  ["amba"; "spi@e000d000"; "ps7-qspi-dummy@0"]%string.

(** A small ZynqMP description: the main memory node and one RAM bank of
    [described] bytes placed in it. *)
Definition sample_zynqmp_tree (described : Z) : fdt_node :=
  FdtNode "" ∅
    [ leaf "memory@0" [("compatible", string_value "qemu:memory-region");
                       ("phandle", cell_value 1)];
      leaf "ddr@0" [("compatible", string_value "qemu:memory-region");
                    ("container", cell_value 1);
                    ("reg", cells_value [0; 0; described])] ].

Definition sample_zynqmp_run (described requested : Z)
  : outcome (fdt_blob * world) :=
  arm_generic_fdt_init false false (2 * GiB) 0x800000000
    (fun _ => Some (sample_zynqmp_tree described, 4096)) (sample_create 4)
    {| machine_class_name := GENERAL_MACHINE_NAME;
       machine_ram_size := requested;
       machine_kernel_filename := None;
       machine_kernel_cmdline := None;
       machine_initrd_filename := None;
       machine_opt_dtb := None;
       machine_opt_hw_dtb := Some "zynqmp.dtb"%string |}
    (world_at_start requested).

(* ===================================================================== *)
(** ** Vocabulary of the further statements *)
(* ===================================================================== *)

(** *** The legacy board's calls *)

(** The addresses at which a list of calls places windows, the DDR region
    ["zynq.ext_ram"] left out; the interrupt lines it hands to devices,
    and among them the inputs of the interrupt controller; the number of
    devices of a model it creates; the entries of the NIC table it
    uses. *)
Definition device_bases (calls : list board_call) : list Z :=
  flat_map (fun c => match c with
                     | MemoryRegionAddSubregion name offset =>
                         if String.eqb name "zynq.ext_ram" then [] else [offset]
                     | PflashCfi02Register base _ _ _ _ => [base]
                     | SysbusMmioMap _ addr => [addr]
                     | SysbusCreate _ addr _ => [addr]
                     | _ => []
                     end) calls.

Definition irq_lines (calls : list board_call) : list irq_line :=
  flat_map (fun c => match c with
                     | SysbusConnectIrq _ irq => [irq]
                     | SysbusCreate _ _ irqs => irqs
                     | _ => []
                     end) calls.

Definition pic_inputs (calls : list board_call) : list Z :=
  flat_map (fun irq => match irq with Pic n => [n] | _ => [] end) (irq_lines calls).

Definition created (model : string) (calls : list board_call) : nat :=
  length (List.filter (fun c => match c with
                                | QdevCreate m => String.eqb m model
                                | _ => false
                                end) calls).

Definition is_arm_load_kernel (c : board_call) : bool :=
  match c with ArmLoadKernel => true | _ => false end.

Definition nics_used (calls : list board_call) : list nat :=
  flat_map (fun c => match c with
                     | QdevSetNicProperties nd => [nd]
                     | _ => []
                     end) calls.

(** *** The description tree *)

(** Sibling names are unambiguous when every node is the first among its
    siblings that its own name selects. *)
Fixpoint first_selected (l : list fdt_node) : bool :=
  match l with
  | [] => true
  | c :: l' =>
      forallb (fun c' => negb (select_child (node_name c') c)) l'
      && first_selected l'
  end.

Fixpoint unambiguous (n : fdt_node) : bool :=
  first_selected (node_children n) && forallb unambiguous (node_children n).

(** The value of a property of the node a path resolves to. *)
Definition prop_at (t : fdt_node) (p : path) (name : string) : option string :=
  n ← fdt_path_offset t p; node_props n !! name.

(** A function on nodes that writes properties only: the name and the
    children stay. *)
Definition props_only (f : fdt_node -> option fdt_node) : Prop :=
  forall n n', f n = Some n' ->
    node_name n' = node_name n /\ node_children n' = node_children n.

(** A patch is idempotent on the tree when a second application, on what
    the first returned, returns as well and leaves the tree as it is. *)
Definition tree_idempotent (patch : fdt_blob -> outcome fdt_blob) : Prop :=
  forall fdt fdt', patch fdt = Done fdt' ->
    exists fdt'', patch fdt' = Done fdt'' /\ fdt_root fdt'' = fdt_root fdt'.

Definition zynq7000_reset_cbar_patch (fdt : fdt_blob) : outcome fdt_blob :=
  zynq7000_set_reset_cbar fdt (fdt_nodes_by_compatible fdt "arm,cortex-a9").

(** The value the reset-cbar loop writes. *)
Definition reset_cbar_value : string := cells_value [ZYNQ7000_MPCORE_PERIPHBASE].

(** The node the machine init adds when the description has no memory
    node: ["/memory@0"] with a two-cell ["reg"], address 0 and the low 32
    bits of the RAM size. *)
Definition added_memory_node (ram_size : Z) : fdt_node :=
  FdtNode "memory@0"
    (<["reg"%string := cells_value [0; wrap32 ram_size]]> ∅) [].

(** *** The machine init *)

(** The line the deprecated machine name puts on stderr. *)
Definition DEPRECATION_MESSAGE : string :=
  "The 'arm-generic-fdt-plnx' machine has been deprecated. Please use 'arm-generic-fdt-7series' instead.".

(** The world after the machine class has been looked at. *)
Definition world_after_class_check (machine : MachineState) (w : world) : world :=
  if String.eqb (machine_class_name machine) ZYNQ7000_MACHINE_NAME then w
  else if String.eqb (machine_class_name machine) DEP_GENERAL_MACHINE_NAME
  then world_print w DEPRECATION_MESSAGE
  else w.

(** The description as the instantiation pass leaves it. *)
Definition after_create_machine (fdt : fdt_blob) : fdt_blob :=
  blob_step fdt (fdt_root fdt) OpCreateMachine.

(** A memory-region node the scan counts: top level, and placed in the
    container with phandle [ph]. *)
Definition counted_region (fdt : fdt_blob) (ph : Z) (p : path) : bool :=
  (length p =? 1)%nat && (qemu_fdt_getprop_cell fdt p "container" 0 =? ph).

(** [memory_max] is the largest amount among [start] and what the counted
    regions describe. *)
Definition largest_described (fdt : fdt_blob) (ph : Z) (regions : list path)
    (start memory_max : Z) : Prop :=
  start <= memory_max
  /\ (forall p, In p regions -> counted_region fdt ph p = true ->
                memory_reg_value fdt p <= memory_max)
  /\ (memory_max = start
      \/ exists p, In p regions /\ counted_region fdt ph p = true
                   /\ memory_reg_value fdt p = memory_max).

(** Whether a range of [len] bytes at [addr] lies inside a RAM region. *)
Definition inside_region (r : ram_region) (addr len : Z) : Prop :=
  rr_offset r <= addr /\ addr + len <= rr_offset r + rr_size r.

(** *** Further test data *)

(** A request of 3 GiB on the legacy board, with a kernel. *)
Definition sample_args : QEMUMachineInitArgs :=
  {| args_ram_size := 3 * GiB;
     args_cpu_model := None;
     args_kernel_filename := Some "zImage"%string;
     args_kernel_cmdline := None;
     args_initrd_filename := None |}.

Definition empty_board : legacy_board :=
  {| lb_stderr := []; lb_calls := []; lb_binfo := binfo_zero |}.

(** The legacy board as [zynq_init] builds it when every CPU model is
    known. *)
Definition sample_board (nb_nics : nat) : legacy_board :=
  match zynq_init (fun _ => true) nb_nics sample_args with
  | Done b => b
  | _ => empty_board
  end.

(** A description with the targets of the property quirks: two A9 CPUs,
    an interrupt controller and a USB controller. *)
Definition sample_quirk_tree : fdt_node :=
  FdtNode "" ∅
    [ FdtNode "cpus" ∅
        [ leaf "cpu@0" [("compatible", string_value "arm,cortex-a9")];
          leaf "cpu@1" [("compatible", string_value "arm,cortex-a9")] ];
      FdtNode "amba" ∅
        [ leaf "interrupt-controller@f8f01000"
            [("compatible", string_value "arm,cortex-a9-gic")];
          leaf "usb@e0002000"
            [("compatible", string_value "xlnx,ps7-usb-1.00.a")] ] ].

Definition sample_quirk_fdt : fdt_blob :=
  {| fdt_root := sample_quirk_tree; fdt_history := [] |}.

Definition sample_usb_path : path := ["amba"; "usb@e0002000"]%string.

Definition sample_gic_path : path :=
  ["amba"; "interrupt-controller@f8f01000"]%string.

Definition sample_outcome {A} (dflt : A) (r : outcome A) : A :=
  match r with
  | Done a => a
  | _ => dflt
  end.

(** What the clone function returns on the test tree. *)
Definition sample_clone (is_dual : Z) : fdt_blob * option path :=
  sample_outcome (sample_fdt is_dual, None)
    (zynq7000_qspi_flash_node_clone (sample_fdt is_dual)).

Definition sample_flash_path : path :=
  ["amba"; "spi@e000d000"; "flash@0"]%string.

(** The general machine on the small ZynqMP description. *)
Definition sample_zynqmp_result (described requested : Z) : fdt_blob * world :=
  sample_outcome ({| fdt_root := sample_zynqmp_tree described; fdt_history := [] |},
                  world_at_start requested)
    (sample_zynqmp_run described requested).

(** The general machine on a description that has no memory node. *)
Definition sample_bare_tree : fdt_node := FdtNode "" ∅ [sample_amba 0].

Definition sample_general_machine (requested : Z) : MachineState :=
  {| machine_class_name := GENERAL_MACHINE_NAME;
     machine_ram_size := requested;
     machine_kernel_filename := None;
     machine_kernel_cmdline := None;
     machine_initrd_filename := None;
     machine_opt_dtb := None;
     machine_opt_hw_dtb := Some "bare.dtb"%string |}.

(** The test machine through the Zynq-7000 init. *)
Definition sample_7000_run (cpus : Z) (kernel : option string)
  : outcome (list device_call * fdt_blob * world) :=
  arm_generic_fdt_7000_init false false (2 * GiB) 0x800000000
    (sample_load 1) (sample_create cpus) false (sample_machine kernel)
    (world_at_start (512 * MiB)).

Definition sample_7000_result (cpus : Z) (kernel : option string)
  : list device_call * fdt_blob * world :=
  sample_outcome ([], sample_fdt 1, world_at_start 0) (sample_7000_run cpus kernel).

(* ===================================================================== *)
(** * Part II: lemmas and theorems *)
(* ===================================================================== *)

(** ** The legacy board *)

Lemma ram_inits_app (name : string) (l1 l2 : list board_call) :
  ram_inits name (l1 ++ l2) = ram_inits name l1 ++ ram_inits name l2.
Proof. apply flat_map_app. Qed.

Lemma ram_inits_flat_map {A} (name : string) (f : A -> list board_call)
    (l : list A) :
  (forall x, ram_inits name (f x) = []) -> ram_inits name (flat_map f l) = [].
Proof.
  intros Hf. induction l as [|x l IH]; [reflexivity|].
  cbn [flat_map]. rewrite ram_inits_app, Hf, IH. reflexivity.
Qed.

(** C9: a requested RAM size above 0x80000000 is clamped to exactly
    0x80000000, any smaller or equal size is kept; the one external RAM
    region that is made (and mapped at address 0) and the boot descriptor
    carry that size, and nothing is written to stderr.  The only way out
    of [zynq_init] without a board is the CPU model not being found, which
    is reported before any RAM is sized. *)
Theorem zynq_init_clamps_ram (cpu_arm_init : string -> bool) (nb_nics : nat)
    (args : QEMUMachineInitArgs) :
  match zynq_init cpu_arm_init nb_nics args with
  | Done b =>
      let eff := if decide (args_ram_size args > 0x80000000)
                 then 0x80000000 else args_ram_size args in
      ram_inits "zynq.ext_ram" (lb_calls b) = [eff]
      /\ In (MemoryRegionAddSubregion "zynq.ext_ram" 0) (lb_calls b)
      /\ bi_ram_size (lb_binfo b) = eff
      /\ lb_stderr b = []
  | Exit _ _ | Abort =>
      cpu_arm_init (default "cortex-a9"%string (args_cpu_model args)) = false
  end.
Proof.
  unfold zynq_init.
  assert (Hdefault : match args_cpu_model args with
                     | Some m => m
                     | None => "cortex-a9"%string
                     end = default "cortex-a9"%string (args_cpu_model args)).
  { destruct (args_cpu_model args); reflexivity. }
  rewrite Hdefault.
  destruct (cpu_arm_init _) eqn:Hcpu; cbn [negb]; [|reflexivity].
  cbv zeta. cbn [lb_calls lb_binfo lb_stderr bi_ram_size].
  assert (Heff : (if 0x80000000 <? args_ram_size args
                  then 0x80000000 else args_ram_size args)
                 = if decide (args_ram_size args > 0x80000000)
                   then 0x80000000 else args_ram_size args).
  { destruct (Z.ltb_spec 0x80000000 (args_ram_size args)); case_decide;
      try lia; reflexivity. }
  rewrite Heff.
  split; [|split; [|split; reflexivity]].
  - rewrite !ram_inits_app.
    rewrite (ram_inits_flat_map "zynq.ext_ram").
    + reflexivity.
    + intros n. destruct (n =? 0)%nat; [reflexivity|].
      destruct (n =? 1)%nat; reflexivity.
  - apply in_or_app. left. cbn [In]. auto 10.
Qed.

(** ** Memory sizing *)

Lemma wrap64_small (x : Z) : 0 <= x < 2 ^ 64 -> wrap64 x = x.
Proof. intros H. unfold wrap64. apply Z.mod_small. exact H. Qed.

Lemma world_map_w_map (w : world) (m : mapping) :
  w_map (world_map w m) = w_map w ++ [m].
Proof. reflexivity. Qed.

(** The regions [reconcile_ram] adds, and nothing else of the world
    changes when RAM is added. *)
Lemma reconcile_ram_adds (C H : Z) (area : container) (P R : Z) (w : world) :
  P < R ->
  let w' := reconcile_ram C H area P R w in
  w_ram_size w' = w_ram_size w /\
  w_memory_opt_size w' = w_memory_opt_size w /\
  w_stderr w' = w_stderr w /\
  w_binfo w' = w_binfo w /\
  w_roms w' = w_roms w /\
  w_smpboot w' = w_smpboot w.
Proof.
  intros HPR. unfold reconcile_ram.
  destruct (Z.ltb_spec P R); [|lia].
  destruct (C <? R); destruct (negb _); simpl; auto 10.
Qed.

(** C1: with the described amount [P] below the request [R] and below the
    ceiling [C], a low region of size [min (R - P) (C - P)] is placed at
    offset [P]; what is left of the shortfall, if anything, becomes a high
    region at [XLNX_ZYNQMP_HIGH_RAM_START].  Nothing else is mapped. *)
Theorem reconcile_ram_below_ceiling (C H : Z) (area : container) (P R : Z)
    (w : world) :
  0 <= P -> P < R -> R < 2 ^ 64 -> P < C -> C < 2 ^ 64 ->
  let low := Z.min (R - P) (C - P) in
  let rest := R - P - low in
  w_map (reconcile_ram C H area P R w) =
    w_map w
    ++ (if decide (0 < rest)
        then [MapRam area {| rr_name := "ddr-ram-high"; rr_size := rest;
                             rr_offset := H |}]
        else [])
    ++ [MapRam area {| rr_name := "ddr-ram-low"; rr_size := low;
                       rr_offset := P |}].
Proof.
  intros HP HPR HR HPC HC low rest. subst low rest.
  unfold reconcile_ram.
  destruct (Z.ltb_spec P R); [|lia].
  destruct (Z.ltb_spec C R) as [HCR|HCR].
  - rewrite (wrap64_small (C - P)) by lia.
    rewrite (wrap64_small (R - C)) by lia.
    destruct (Z.eqb_spec (C - P) 0); [lia|]. simpl negb. cbv iota.
    rewrite !world_map_w_map.
    rewrite Z.min_r by lia.
    case_decide; [|lia].
    replace (R - P - (C - P)) with (R - C) by lia.
    rewrite <- app_assoc. reflexivity.
  - rewrite (wrap64_small (R - P)) by lia.
    destruct (Z.eqb_spec (R - P) 0); [lia|]. simpl negb. cbv iota.
    rewrite world_map_w_map.
    rewrite Z.min_l by lia.
    case_decide; [lia|]. reflexivity.
Qed.

(** The spec's test point: 512 MiB described, 3 GiB requested, ceiling at
    2 GiB: 1 GiB high, 1536 MiB low at 512 MiB. *)
Lemma reconcile_ram_below_ceiling_witness :
  w_map (reconcile_ram (2 * GiB) 0x800000000 SystemMemory (512 * MiB) (3 * GiB)
           (world_at_start (3 * GiB))) =
    [MapRam SystemMemory {| rr_name := "ddr-ram-high"; rr_size := 1 * GiB;
                            rr_offset := 0x800000000 |};
     MapRam SystemMemory {| rr_name := "ddr-ram-low"; rr_size := 1536 * MiB;
                            rr_offset := 512 * MiB |}].
Proof.
  exact (reconcile_ram_below_ceiling (2 * GiB) 0x800000000 SystemMemory
           (512 * MiB) (3 * GiB) (world_at_start (3 * GiB))
           ltac:(vm_compute; discriminate) ltac:(reflexivity) ltac:(reflexivity)
           ltac:(reflexivity) ltac:(reflexivity)).
Defined.

(** The spec's other test point below the ceiling: nothing described,
    512 MiB requested: 512 MiB low at 0 and no high region. *)
Example reconcile_ram_from_nothing :
  w_map (reconcile_ram (2 * GiB) 0x800000000 SystemMemory 0 (512 * MiB)
           (world_at_start (512 * MiB))) =
    [MapRam SystemMemory {| rr_name := "ddr-ram-low"; rr_size := 512 * MiB;
                            rr_offset := 0 |}].
Proof. reflexivity. Qed.

(** X18: when the described amount sits exactly on the ceiling (and the
    request is above it), the whole shortfall [R - C] becomes one high
    region at [XLNX_ZYNQMP_HIGH_RAM_START] and no low region is made. *)
Lemma reconcile_ram_at_ceiling (C H : Z) (area : container) (R : Z) (w : world) :
  0 <= C -> C < R -> R < 2 ^ 64 ->
  w_map (reconcile_ram C H area C R w) =
    w_map w ++ [MapRam area {| rr_name := "ddr-ram-high"; rr_size := R - C;
                               rr_offset := H |}].
Proof.
  intros HC HCR HR. unfold reconcile_ram.
  destruct (Z.ltb_spec C R); [|lia].
  rewrite Z.sub_diag. rewrite (wrap64_small (R - C)) by lia.
  reflexivity.
Qed.

(** C2, at a described amount above the ceiling: 3 GiB described, 4 GiB
    requested, ceiling at 2 GiB.  The shortfall is 1 GiB, yet the high
    region gets 2 GiB and a low region of [2^64 - 1 GiB] bytes is asked
    for at 3 GiB: [ddr_low_size] has wrapped around. *)
Theorem reconcile_ram_above_ceiling_wraps :
  w_map (reconcile_ram (2 * GiB) 0x800000000 SystemMemory (3 * GiB) (4 * GiB)
           (world_at_start (4 * GiB))) =
    [MapRam SystemMemory {| rr_name := "ddr-ram-high"; rr_size := 2 * GiB;
                            rr_offset := 0x800000000 |};
     MapRam SystemMemory {| rr_name := "ddr-ram-low"; rr_size := 2 ^ 64 - 1 * GiB;
                            rr_offset := 3 * GiB |}].
Proof. reflexivity. Qed.

(** C3: when the request [R] does not exceed the described amount [P], no
    region is made, [P] becomes the global RAM size and the ["size"]
    option of the memory options is set to [P]; the rest of the world,
    stderr included, is left alone. *)
Theorem reconcile_ram_description_wins (C H : Z) (area : container) (P R : Z)
    (w : world) :
  R <= P ->
  let w' := reconcile_ram C H area P R w in
  w_map w' = w_map w /\
  w_ram_size w' = P /\
  w_memory_opt_size w' = Some P /\
  w_stderr w' = w_stderr w /\
  w_binfo w' = w_binfo w /\
  w_roms w' = w_roms w.
Proof.
  intros HRP. unfold reconcile_ram.
  destruct (Z.ltb_spec P R); [lia|].
  simpl. auto 10.
Qed.

Lemma reconcile_ram_description_wins_witness :
  let w' := reconcile_ram (2 * GiB) 0x800000000 SystemMemory (512 * MiB)
              (256 * MiB) (world_at_start (256 * MiB)) in
  w_map w' = [] /\ w_ram_size w' = 512 * MiB /\
  w_memory_opt_size w' = Some (512 * MiB) /\ w_stderr w' = [] /\
  w_binfo w' = binfo_zero /\ w_roms w' = [].
Proof.
  exact (reconcile_ram_description_wins (2 * GiB) 0x800000000 SystemMemory
           (512 * MiB) (256 * MiB) (world_at_start (256 * MiB))
           ltac:(vm_compute; discriminate)).
Defined.

(** ** Secondary boot code *)

(** Swapping twice gives the word back. *)
Lemma bswap32_smpboot_involutive :
  bswap32 <$> (bswap32 <$> zynq_smpboot) = zynq_smpboot.
Proof. reflexivity. Qed.

(** A word swapped for the target lies in host memory the way the plain
    word lies in target memory: this is what makes the first deposit
    right. *)
Lemma tswap32_smpboot_target_order (host target : bool) :
  flat_map (mem_bytes32 host) (tswap32 host target <$> zynq_smpboot) =
  flat_map (mem_bytes32 target) zynq_smpboot.
Proof. destruct host, target; reflexivity. Qed.

Lemma arm_write_secondary_boot_rom (host target : bool) (w : world) :
  last_rom (arm_write_secondary_boot host target w) =
    Some {| rom_name := "smpboot";
            rom_data := flat_map (mem_bytes32 host)
                          (tswap32 host target <$> w_smpboot w);
            rom_addr := SMP_BOOT_ADDR |}.
Proof. unfold last_rom, arm_write_secondary_boot. simpl. apply last_snoc. Qed.

(** The static array after [n] calls: back to the original after an even
    number, byte-swapped after an odd number, when host and target differ
    in byte order. *)
Lemma smpboot_after_calls (host target : bool) (n : nat) (w : world) :
  host <> target ->
  w_smpboot w = zynq_smpboot ->
  w_smpboot (Nat.iter n (arm_write_secondary_boot host target) w) =
    if Nat.even n then zynq_smpboot else bswap32 <$> zynq_smpboot.
Proof.
  intros Hne Hw.
  assert (Hsw : forall x, tswap32 host target x = bswap32 x).
  { intros x. unfold tswap32. destruct host, target; simpl; congruence. }
  induction n as [|n IH].
  - exact Hw.
  - rewrite Nat.even_succ, <- Nat.negb_even.
    change (Nat.iter (S n) (arm_write_secondary_boot host target) w)
      with (arm_write_secondary_boot host target
              (Nat.iter n (arm_write_secondary_boot host target) w)).
    set (wn := Nat.iter n (arm_write_secondary_boot host target) w) in *.
    change (w_smpboot (arm_write_secondary_boot host target wn))
      with (tswap32 host target <$> w_smpboot wn).
    rewrite IH.
    destruct (Nat.even n); cbn [negb];
      (etransitivity; [apply list_fmap_ext; intros ? x ?; apply Hsw|]);
      reflexivity.
Qed.

(** C10: the static array is swapped in place on every call, so what a
    call deposits depends on the number [n] of calls before it.  On a host
    whose byte order differs from the target's, a call after an even
    number of earlier calls deposits the words in target byte order; a
    call after an odd number (the second call, for one) deposits them in
    host byte order, that is, not swapped; and the two contents
    differ. *)
Theorem arm_write_secondary_boot_depends_on_calls (host target : bool)
    (n : nat) (w : world) :
  host <> target ->
  w_smpboot w = zynq_smpboot ->
  rom_data <$> last_rom (Nat.iter (S n) (arm_write_secondary_boot host target) w) =
    Some (flat_map (mem_bytes32 (if Nat.even n then target else host)) zynq_smpboot)
  /\ flat_map (mem_bytes32 host) zynq_smpboot
     <> flat_map (mem_bytes32 target) zynq_smpboot.
Proof.
  intros Hne Hw. split.
  - change (Nat.iter (S n) (arm_write_secondary_boot host target) w)
      with (arm_write_secondary_boot host target
              (Nat.iter n (arm_write_secondary_boot host target) w)).
    rewrite arm_write_secondary_boot_rom. cbn [fmap option_fmap option_map rom_data].
    rewrite smpboot_after_calls by assumption.
    f_equal. destruct (Nat.even n).
    + apply tswap32_smpboot_target_order.
    + destruct host, target; try congruence; reflexivity.
  - destruct host, target; try congruence; vm_compute; discriminate.
Qed.

(** The second call on a little-endian host for a big-endian target:
    the bytes deposited are those of the little-endian words. *)
Lemma arm_write_secondary_boot_depends_on_calls_witness :
  rom_data <$> last_rom (Nat.iter 2 (arm_write_secondary_boot false true)
                           (world_at_start 0)) =
    Some (flat_map le_bytes32 zynq_smpboot)
  /\ flat_map le_bytes32 zynq_smpboot <> flat_map be_bytes32 zynq_smpboot.
Proof.
  exact (arm_write_secondary_boot_depends_on_calls false true 1
           (world_at_start 0) ltac:(discriminate) ltac:(reflexivity)).
Defined.

(** On a host of the target's byte order nothing is swapped and every
    call deposits the same bytes. *)
Lemma arm_write_secondary_boot_same_order (order : bool) (w : world) :
  w_smpboot (arm_write_secondary_boot order order w) = w_smpboot w.
Proof.
  unfold arm_write_secondary_boot, tswap32. cbn [w_smpboot].
  rewrite Bool.eqb_reflx. apply list_fmap_id.
Qed.

(** ** Tree patches whose target is missing *)

Lemma head_filter_None {A B} (f : A -> B) (P : A -> bool) (l : list A) :
  existsb P l = false -> head (f <$> List.filter P l) = None.
Proof.
  induction l as [|x l IH]; cbn [existsb List.filter]; [reflexivity|].
  destruct (P x); cbn [orb]; [discriminate|exact IH].
Qed.

Lemma node_by_compatible_absent (fdt : fdt_blob) (compat : string) :
  has_compatible_node fdt compat = false ->
  qemu_devtree_node_by_compatible fdt compat = None.
Proof. apply head_filter_None. Qed.

Lemma get_node_by_name_absent (fdt : fdt_blob) (cmpname : string) :
  has_named_node fdt cmpname = false ->
  qemu_devtree_get_node_by_name fdt cmpname = None.
Proof. apply head_filter_None. Qed.

(** C8: when no node is compatible with ["xlnx,ps7-usb-1.00.a"], the USB
    quirk returns the description as it got it (tree and record of
    operations alike) and does not end the process; the same holds for the
    interrupt-controller quirk when no node is called
    ["interrupt-controller"]. *)
Theorem quirk_target_absent_skipped (fdt : fdt_blob) :
  (has_compatible_node fdt "xlnx,ps7-usb-1.00.a" = false ->
   zynq7000_usb_nuke_phy fdt = Done fdt)
  /\ (has_named_node fdt "interrupt-controller" = false ->
      zynq7000_disable_gic fdt = Done fdt).
Proof.
  split; intros Habsent.
  - unfold zynq7000_usb_nuke_phy.
    rewrite node_by_compatible_absent by exact Habsent. reflexivity.
  - unfold zynq7000_disable_gic.
    rewrite get_node_by_name_absent by exact Habsent. reflexivity.
Qed.

Lemma quirk_target_absent_skipped_witness :
  zynq7000_usb_nuke_phy (sample_fdt 1) = Done (sample_fdt 1)
  /\ zynq7000_disable_gic (sample_fdt 1) = Done (sample_fdt 1).
Proof.
  split.
  - exact (proj1 (quirk_target_absent_skipped (sample_fdt 1)) ltac:(reflexivity)).
  - exact (proj2 (quirk_target_absent_skipped (sample_fdt 1)) ltac:(reflexivity)).
Defined.

(** With the target present the quirks do write: the test is not
    vacuous. *)
Example usb_quirk_applies :
  let fdt := {| fdt_root := FdtNode "" ∅
                  [leaf "usb@e0002000"
                     [("compatible", string_value "xlnx,ps7-usb-1.00.a")]];
                fdt_history := [] |} in
  match zynq7000_usb_nuke_phy fdt with
  | Done fdt' =>
      qemu_fdt_getprop fdt' ["usb@e0002000"%string] "dr_mode"
        = Some (string_value "host")
      /\ fdt_history fdt' =
           [OpSetProp ["usb@e0002000"%string] "dr_mode" (string_value "host")]
  | _ => False
  end.
Proof. vm_compute. split; reflexivity. Qed.

(** ** The MDIO connect task *)

Lemma has_opaque_set (fdti : FDTMachineInfo) (p q : path) (o : Object) :
  fdt_init_has_opaque (fdt_init_set_opaque fdti p o) q =
    bool_decide (p = q) || fdt_init_has_opaque fdti q.
Proof.
  unfold fdt_init_has_opaque, fdt_init_set_opaque. cbn [fdti_dev_opaques].
  destruct (decide (p = q)) as [->|Hne].
  - rewrite lookup_insert_eq.
    rewrite (bool_decide_eq_true_2 (q = q)) by reflexivity.
    apply bool_decide_eq_true_2. eauto.
  - rewrite lookup_insert_ne by assumption.
    rewrite (bool_decide_eq_false_2 (p = q)) by assumption.
    reflexivity.
Qed.

Lemma has_opaque_others (regs : list (path * Object)) (fdti : FDTMachineInfo)
    (q : path) :
  fdt_init_has_opaque
    (fold_left (fun fdti r => fdt_init_set_opaque fdti r.1 r.2) regs fdti) q =
  fdt_init_has_opaque fdti q || bool_decide (q ∈ regs.*1).
Proof.
  revert fdti. induction regs as [|[p o] regs IH]; intros fdti; cbn [fold_left].
  - rewrite (bool_decide_eq_false_2 (q ∈ _)) by (cbn; apply not_elem_of_nil).
    symmetry. apply orb_false_r.
  - rewrite IH, has_opaque_set. cbn [fst snd fmap list_fmap].
    destruct (decide (p = q)) as [->|Hne].
    + rewrite (bool_decide_eq_true_2 (q = q)) by reflexivity.
      rewrite (bool_decide_eq_true_2 (q ∈ q :: _)) by apply list_elem_of_here.
      cbn. symmetry. apply orb_true_r.
    + rewrite (bool_decide_eq_false_2 (p = q)) by assumption. cbn [orb].
      f_equal. apply bool_decide_ext. rewrite elem_of_cons. intuition congruence.
Qed.

Lemma others_register_fdt (bw : builder_world) (regs : list (path * Object)) :
  fdti_fdt (bw_fdti (others_register bw regs)) = fdti_fdt (bw_fdti bw).
Proof.
  unfold others_register. cbn [bw_fdti].
  generalize (bw_fdti bw). induction regs as [|r regs IH]; intros fdti;
    cbn [fold_left]; [reflexivity|]. rewrite IH. reflexivity.
Qed.

(** A task parked on a parent nobody has published stays parked: one turn
    adds one yield and touches nothing else. *)
Lemma mdio_wait_absent (Opaque : Object) (parent : path) (bw : builder_world) :
  fdt_init_has_opaque (bw_fdti bw) parent = false ->
  mdio_wait_for_parent Opaque parent bw =
    (MdioYielded parent,
     {| bw_fdti := bw_fdti bw; bw_children := bw_children bw;
        bw_links := bw_links bw; bw_trace := bw_trace bw ++ [EvYield] |}).
Proof. intros H. unfold mdio_wait_for_parent. rewrite H. reflexivity. Qed.

Lemma mdio_run_parked (node_path : path) (Opaque : Object) (parent : path)
    (schedule : list (list (path * Object))) (bw : builder_world) :
  Forall (fun regs => parent ∉ regs.*1) schedule ->
  fdt_init_has_opaque (bw_fdti bw) parent = false ->
  exists fdti,
    mdio_run node_path Opaque schedule (MdioYielded parent) bw =
      (MdioYielded parent,
       {| bw_fdti := fdti; bw_children := bw_children bw;
          bw_links := bw_links bw;
          bw_trace := bw_trace bw ++ repeat EvYield (length schedule) |})
    /\ fdti_fdt fdti = fdti_fdt (bw_fdti bw)
    /\ fdt_init_has_opaque fdti parent = false.
Proof.
  intros Hsched. revert bw.
  induction Hsched as [|regs schedule Hregs _ IH]; intros bw Hbw.
  - exists (bw_fdti bw). cbn [mdio_run length repeat]. rewrite app_nil_r.
    destruct bw; auto.
  - cbn [mdio_run zynq7000_mdio_phy_connect].
    assert (Habs : fdt_init_has_opaque (bw_fdti (others_register bw regs)) parent
                   = false).
    { unfold others_register. cbn [bw_fdti].
      rewrite has_opaque_others, Hbw, bool_decide_eq_false_2 by assumption.
      reflexivity. }
    rewrite (mdio_wait_absent _ _ _ Habs).
    edestruct IH as (fdti & Hrun & Hfdt & Hhas); [|rewrite Hrun].
    { exact Habs. }
    exists fdti. cbn [bw_fdti bw_children bw_links bw_trace others_register] in *.
    split; [|split].
    + cbn [length repeat]. rewrite <- app_assoc. reflexivity.
    + rewrite Hfdt. apply (others_register_fdt bw regs).
    + exact Hhas.
Qed.

Lemma getparent_proper (fdt : fdt_blob) (p d : path) :
  qemu_devtree_getparent fdt p = Some d -> exists b, p = d ++ [b].
Proof.
  unfold qemu_devtree_getparent.
  destruct (fdt_path_offset _ p); [|discriminate].
  destruct (path_split p) as [[d' b]|] eqn:Hsplit; [|discriminate].
  intros [= <-]. exists b.
  revert d' Hsplit. induction p as [|s p IH]; intros d' Hsplit; [discriminate|].
  cbn [path_split] in Hsplit. destruct p as [|s' p].
  - injection Hsplit as <- <-. reflexivity.
  - destruct (path_split (s' :: p)) as [[d'' b'']|]; [|discriminate].
    cbn in Hsplit. injection Hsplit as <- <-.
    rewrite (IH d'' eq_refl). reflexivity.
Qed.

Lemma getparent_differs (fdt : fdt_blob) (p d : path) :
  qemu_devtree_getparent fdt p = Some d -> p <> d.
Proof.
  intros H Heq. destruct (getparent_proper _ _ _ H) as [b Hb].
  apply (f_equal length) in Hb. rewrite length_app, Heq in Hb. cbn in Hb. lia.
Qed.






(** The whole life of that task when the ethernet controller is published
    (as object 42) after the first turn. *)
Example mdio_complete_run :
  let '(task, bw) :=
    mdio_run sample_mdio_path 77 [[]; [(sample_ethernet_path, 42)]]
             MdioEntry sample_builder_world in
  task = MdioReturned 0
  /\ bw_trace bw = [EvSetOpaque sample_mdio_path 77; EvYield;
                    EvAddChild 42 "mdio_child" 77; EvSetLink 42 "mdio" 77]
  /\ bw_children bw = [(42, "mdio_child"%string, 77)]
  /\ bw_links bw = [(42, "mdio"%string, 77)].
Proof. vm_compute. auto. Qed.

(** From its entry, a task whose parent nobody publishes is parked after
    every turn. *)
Lemma mdio_run_entry_parked (node_path : path) (Opaque : Object) (parent : path)
    (schedule : list (list (path * Object))) (bw : builder_world) :
  qemu_devtree_getparent (fdti_fdt (bw_fdti bw)) node_path = Some parent ->
  fdt_init_has_opaque (bw_fdti bw) parent = false ->
  Forall (fun regs => parent ∉ regs.*1) schedule ->
  schedule <> [] ->
  exists fdti,
    mdio_run node_path Opaque schedule MdioEntry bw =
      (MdioYielded parent,
       {| bw_fdti := fdti; bw_children := bw_children bw;
          bw_links := bw_links bw;
          bw_trace := bw_trace bw ++ EvSetOpaque node_path Opaque
                                  :: repeat EvYield (length schedule) |}).
Proof.
  intros Hparent Habsent Hsched Hne.
  destruct schedule as [|regs schedule]; [congruence|]. clear Hne.
  apply Forall_cons in Hsched as [Hregs Hsched].
  cbn [mdio_run zynq7000_mdio_phy_connect].
  cbn [bw_fdti fdt_init_set_opaque fdti_fdt].
  rewrite others_register_fdt, Hparent.
  set (bw1 := {| bw_fdti := _; bw_children := _; bw_links := _; bw_trace := _ |}).
  assert (Habs1 : fdt_init_has_opaque (bw_fdti bw1) parent = false).
  { unfold bw1. cbn [bw_fdti].
    change ({| fdti_fdt := ?f; fdti_dev_opaques := <[node_path:=Opaque]> ?m |})
      with (fdt_init_set_opaque {| fdti_fdt := f; fdti_dev_opaques := m |}
              node_path Opaque).
    rewrite has_opaque_set.
    rewrite (bool_decide_eq_false_2 (node_path = parent))
      by (eapply getparent_differs; exact Hparent).
    cbn [orb]. destruct (bw_fdti (others_register bw regs)) as [f m] eqn:Hfdti.
    cbn [fdti_fdt fdti_dev_opaques].
    change (fdt_init_has_opaque {| fdti_fdt := f; fdti_dev_opaques := m |} parent)
      with (bool_decide (is_Some (m !! parent))).
    assert (H := has_opaque_others regs (bw_fdti bw) parent).
    unfold others_register in Hfdti. cbn [bw_fdti] in Hfdti. rewrite Hfdti in H.
    rewrite Habsent, bool_decide_eq_false_2 in H by assumption. exact H. }
  rewrite (mdio_wait_absent _ _ _ Habs1).
  edestruct (mdio_run_parked node_path Opaque parent schedule) as (fdti & Hrun & _);
    [exact Hsched| |rewrite Hrun].
  { exact Habs1. }
  exists fdti. cbn [bw_children bw_links bw_trace bw1 others_register length repeat].
  do 2 f_equal. rewrite <- !app_assoc. reflexivity.
Qed.




(** As soon as the parent is published the next turn returns: the wait is
    for the parent and for nothing else. *)
Lemma mdio_returns_once_parent_published (node_path : path) (Opaque : Object)
    (parent : path) (bw : builder_world) :
  fdt_init_has_opaque (bw_fdti bw) parent = true ->
  (zynq7000_mdio_phy_connect node_path Opaque (MdioYielded parent) bw).1
    = MdioReturned 0.
Proof.
  intros H. cbn [zynq7000_mdio_phy_connect]. unfold mdio_wait_for_parent.
  rewrite H. reflexivity.
Qed.

(** ** The description tree: what the operations keep *)

(** Induction over a tree with the children at hand. *)
Lemma fdt_node_tree_ind (P : fdt_node -> Prop) :
  (forall name props children,
      Forall P children -> P (FdtNode name props children)) ->
  forall n, P n.
Proof.
  intros Hstep. fix IH 1. intros [name props children].
  apply Hstep. induction children as [|c children IHc]; constructor.
  - apply IH.
  - exact IHc.
Qed.

Lemma find_app_cons {A} (P : A -> bool) (l1 l2 : list A) (x : A) :
  List.find P (l1 ++ x :: l2) =
    match List.find P l1 with
    | Some y => Some y
    | None => if P x then Some x else List.find P l2
    end.
Proof.
  induction l1 as [|y l1 IH]; cbn [app List.find]; [reflexivity|].
  destruct (P y); [reflexivity|exact IH].
Qed.

Lemma find_none_iff {A} (P : A -> bool) (l : list A) :
  List.find P l = None <-> Forall (fun x => P x = false) l.
Proof.
  induction l as [|x l IH]; cbn [List.find].
  - split; [constructor|reflexivity].
  - destruct (P x) eqn:HP.
    + split; [discriminate|]. intros H. apply Forall_cons in H as [H _]. congruence.
    + rewrite IH. split; [intros H; constructor; assumption|].
      intros H. apply Forall_cons in H as [_ H]. exact H.
Qed.

(** What [alter_first] does, spelled out. *)
Lemma alter_first_Some {A} (sel : A -> bool) (f : A -> option A) (l l' : list A) :
  alter_first sel f l = Some l' ->
  exists l1 x x' l2,
    l = l1 ++ x :: l2 /\ l' = l1 ++ x' :: l2 /\
    List.find sel l1 = None /\ sel x = true /\ f x = Some x'.
Proof.
  revert l'. induction l as [|y l IH]; intros l' H; cbn [alter_first] in H.
  - discriminate.
  - destruct (sel y) eqn:Hy.
    + destruct (f y) as [y'|] eqn:Hf; [|discriminate]. cbn in H.
      injection H as <-. exists [], y, y', l. auto.
    + destruct (alter_first sel f l) as [l''|]; [|discriminate]. cbn in H.
      injection H as <-.
      destruct (IH l'' eq_refl) as (l1 & x & x' & l2 & -> & -> & Hl1 & Hx & Hf).
      exists (y :: l1), x, x', l2. cbn [app List.find]. rewrite Hy. auto.
Qed.

Lemma alter_first_total {A} (sel : A -> bool) (f : A -> option A) (l : list A)
    (x x' : A) :
  List.find sel l = Some x -> f x = Some x' ->
  exists l', alter_first sel f l = Some l'.
Proof.
  induction l as [|y l IH]; cbn [List.find alter_first]; [discriminate|].
  destruct (sel y).
  - intros [= ->] ->. eexists. reflexivity.
  - intros Hfind Hf. destruct (IH Hfind Hf) as [l' ->]. eexists. reflexivity.
Qed.

Lemma select_child_name (s : string) (n n' : fdt_node) :
  node_name n' = node_name n -> select_child s n' = select_child s n.
Proof. unfold select_child. intros ->. reflexivity. Qed.

Lemma names_at_nil (t : fdt_node) : names_at t [] = Some (child_names t).
Proof. reflexivity. Qed.

Lemma names_at_cons (t : fdt_node) (s : string) (q : path) :
  names_at t (s :: q) =
    c ← List.find (select_child s) (node_children t); names_at c q.
Proof.
  unfold names_at. cbn [fdt_path_offset].
  destruct (List.find _ _); reflexivity.
Qed.

Lemma fdt_path_offset_app (t : fdt_node) (q p : path) :
  fdt_path_offset t (q ++ p) = n ← fdt_path_offset t q; fdt_path_offset n p.
Proof.
  revert t. induction q as [|s q IH]; intros t; cbn [app fdt_path_offset].
  - reflexivity.
  - destruct (List.find _ _) as [c|]; [apply IH|reflexivity].
Qed.

Lemma same_names_refl (t : fdt_node) : same_names t t.
Proof. intros q. reflexivity. Qed.

Lemma same_names_trans (t1 t2 t3 : fdt_node) :
  same_names t1 t2 -> same_names t2 t3 -> same_names t1 t3.
Proof. intros H12 H23 q. rewrite H23. apply H12. Qed.

Lemma fdt_alter_keeps_name (f : fdt_node -> option fdt_node) (p : path) :
  keeps_name f -> keeps_name (fdt_alter f p).
Proof.
  intros Hf. destruct p as [|s p]; intros n n' H; cbn [fdt_alter] in H.
  - apply Hf, H.
  - destruct (alter_first _ _ _); [|discriminate]. cbn in H.
    injection H as <-. reflexivity.
Qed.

Lemma keeps_shape_name (f : fdt_node -> option fdt_node) :
  keeps_shape f -> keeps_name f.
Proof. intros Hf n n' H. apply (Hf n n' H). Qed.

(** Rewriting below the root keeps the names of the root's children. *)
Lemma fdt_alter_child_names (f : fdt_node -> option fdt_node) (s : string)
    (p : path) (t t' : fdt_node) :
  keeps_name f -> fdt_alter f (s :: p) t = Some t' ->
  child_names t' = child_names t.
Proof.
  intros Hf H. cbn [fdt_alter] in H.
  destruct (alter_first _ _ _) as [cs|] eqn:Hcs; [|discriminate]. cbn in H.
  injection H as <-.
  destruct (alter_first_Some _ _ _ _ Hcs) as (l1 & x & x' & l2 & Hl & -> & _ & _ & Hx).
  unfold child_names. cbn [with_children node_children]. rewrite Hl.
  rewrite !fmap_app, !fmap_cons.
  rewrite (fdt_alter_keeps_name f p Hf x x' Hx). reflexivity.
Qed.

Lemma fdt_alter_keeps_shape (f : fdt_node -> option fdt_node) (p : path) :
  keeps_shape f -> keeps_shape (fdt_alter f p).
Proof.
  intros Hf. induction p as [|s p IH]; intros t t' H.
  - apply Hf, H.
  - split; [exact (fdt_alter_keeps_name f (s :: p) (keeps_shape_name f Hf) t t' H)|].
    intros q. destruct q as [|s2 q].
    + rewrite !names_at_nil. f_equal.
      exact (fdt_alter_child_names f s p t t' (keeps_shape_name f Hf) H).
    + cbn [fdt_alter] in H.
      destruct (alter_first _ _ _) as [cs|] eqn:Hcs; [|discriminate]. cbn in H.
      injection H as <-.
      destruct (alter_first_Some _ _ _ _ Hcs)
        as (l1 & x & x' & l2 & Hl & -> & _ & _ & Hx).
      destruct (IH x x' Hx) as [Hname Hsame].
      rewrite !names_at_cons. cbn [with_children node_children]. rewrite Hl.
      rewrite !find_app_cons. destruct (List.find _ l1); [reflexivity|].
      rewrite (select_child_name s2 x x' Hname).
      destruct (select_child s2 x); [|reflexivity]. cbn. apply Hsame.
Qed.

Lemma set_prop_keeps_shape (name value : string) :
  keeps_shape (fun n => Some (set_prop name value n)).
Proof.
  intros n n' [= <-]. split; [reflexivity|].
  intros [|s q]; [reflexivity|]. rewrite !names_at_cons. reflexivity.
Qed.

Lemma tree_setprop_same_names (t t' : fdt_node) (p : path) (name value : string) :
  tree_setprop t p name value = Some t' -> same_names t t'.
Proof.
  intros H.
  apply (fdt_alter_keeps_shape _ p (set_prop_keeps_shape name value) t t' H).
Qed.

(** Where a rewritten path leads before and after. *)
Lemma fdt_alter_lookup (f : fdt_node -> option fdt_node) (p : path)
    (t t' : fdt_node) :
  keeps_name f -> fdt_alter f p t = Some t' ->
  exists n n', fdt_path_offset t p = Some n /\ f n = Some n'
               /\ fdt_path_offset t' p = Some n'.
Proof.
  intros Hf. revert t t'. induction p as [|s p IH]; intros t t' H.
  - exists t, t'. auto.
  - cbn [fdt_alter] in H.
    destruct (alter_first _ _ _) as [cs|] eqn:Hcs; [|discriminate]. cbn in H.
    injection H as <-.
    destruct (alter_first_Some _ _ _ _ Hcs)
      as (l1 & x & x' & l2 & Hl & -> & Hl1 & Hsel & Hx).
    destruct (IH x x' Hx) as (n & n' & Hn & Hfn & Hn').
    exists n, n'. cbn [fdt_path_offset with_children node_children].
    rewrite Hl, !find_app_cons, Hl1.
    rewrite (select_child_name s x x' (fdt_alter_keeps_name f p Hf x x' Hx)).
    rewrite Hsel. auto.
Qed.

Lemma fdt_alter_total (f : fdt_node -> option fdt_node) (p : path)
    (t n n' : fdt_node) :
  fdt_path_offset t p = Some n -> f n = Some n' ->
  exists t', fdt_alter f p t = Some t'.
Proof.
  revert t. induction p as [|s p IH]; intros t Hn Hf; cbn [fdt_path_offset] in Hn.
  - injection Hn as ->. exists n'. exact Hf.
  - destruct (List.find _ _) as [c|] eqn:Hc; [|discriminate].
    destruct (IH c Hn Hf) as [c' Hc'].
    destruct (alter_first_total _ _ _ _ _ Hc Hc') as [cs Hcs].
    exists (with_children t cs). cbn [fdt_alter]. rewrite Hcs. reflexivity.
Qed.

Lemma path_split_snoc (q : path) (b : string) : path_split (q ++ [b]) = Some (q, b).
Proof.
  induction q as [|s q IH]; [reflexivity|].
  cbn [app path_split]. rewrite IH.
  destruct (q ++ [b]) eqn:Hq; [destruct q; discriminate|reflexivity].
Qed.

Lemma add_first_child_keeps_name (b : string) : keeps_name (add_first_child b).
Proof.
  intros n n' H. unfold add_first_child in H.
  destruct (List.find _ _); [discriminate|]. injection H as <-. reflexivity.
Qed.

Lemma remove_child_keeps_name (b : string) : keeps_name (remove_child b).
Proof.
  intros n n' H. unfold remove_child in H.
  destruct (remove_first _ _); [|discriminate]. injection H as <-. reflexivity.
Qed.

Lemma unselected_children (b : string) (n : fdt_node) :
  List.find (select_child b) (node_children n) = None ->
  unselected b (child_names n).
Proof.
  intros H. apply find_none_iff in H. unfold unselected, child_names.
  apply Forall_fmap. exact H.
Qed.

(** A new node is the first child of its parent, and no other child of
    that parent answers to its name. *)
Lemma tree_add_subnode_names (t t' : fdt_node) (q : path) (b : string) :
  tree_add_subnode t (q ++ [b]) = Some t' ->
  exists names,
    names_at t q = Some names /\ names_at t' q = Some (b :: names)
    /\ unselected b names.
Proof.
  unfold tree_add_subnode. rewrite path_split_snoc. cbn. intros H.
  destruct (fdt_alter_lookup _ _ _ _ (add_first_child_keeps_name b) H)
    as (n & n' & Hn & Hadd & Hn').
  unfold add_first_child in Hadd.
  destruct (List.find _ _) eqn:Hfind; [discriminate|]. injection Hadd as <-.
  exists (child_names n). unfold names_at. rewrite Hn, Hn'.
  split; [reflexivity|]. split; [reflexivity|].
  apply unselected_children, Hfind.
Qed.

Lemma tree_add_subnode_child_names (t t' : fdt_node) (s : string) (q : path)
    (b : string) :
  tree_add_subnode t ((s :: q) ++ [b]) = Some t' ->
  child_names t' = child_names t.
Proof.
  unfold tree_add_subnode. rewrite path_split_snoc. cbn.
  apply fdt_alter_child_names, add_first_child_keeps_name.
Qed.

Lemma fdt_nodename_eq_refl (b : string) : fdt_nodename_eq b b = true.
Proof. unfold fdt_nodename_eq. rewrite String.eqb_refl. reflexivity. Qed.

(** Deleting a node that is the first child of its parent leaves the
    other children. *)
Lemma tree_del_node_names (t : fdt_node) (q : path) (b : string)
    (names : list string) :
  names_at t q = Some (b :: names) ->
  exists t', tree_del_node t (q ++ [b]) = Some t' /\ names_at t' q = Some names.
Proof.
  unfold names_at. intros H.
  destruct (fdt_path_offset t q) as [n|] eqn:Hn; [|discriminate].
  cbn in H. injection H as H. unfold child_names in H.
  destruct (node_children n) as [|h rest] eqn:Hch; [discriminate|].
  rewrite fmap_cons in H. injection H as Hh Hrest.
  assert (Hrm : remove_child b n = Some (with_children n rest)).
  { unfold remove_child. rewrite Hch. cbn [remove_first].
    unfold select_child at 1. rewrite Hh, fdt_nodename_eq_refl. reflexivity. }
  destruct (fdt_alter_total _ _ _ _ _ Hn Hrm) as [t' Ht'].
  exists t'. unfold tree_del_node. rewrite path_split_snoc. cbn.
  split; [exact Ht'|].
  destruct (fdt_alter_lookup _ _ _ _ (remove_child_keeps_name b) Ht')
    as (n0 & n' & Hn0 & Hrm' & Hn').
  rewrite Hn in Hn0. injection Hn0 as <-. rewrite Hrm in Hrm'.
  injection Hrm' as <-. rewrite Hn'. cbn. unfold child_names. cbn. congruence.
Qed.

(** A path whose last name no child answers to does not resolve. *)
Lemma path_absent (t : fdt_node) (q : path) (b : string) (names : list string) :
  names_at t q = Some names -> unselected b names ->
  fdt_path_offset t (q ++ [b]) = None.
Proof.
  unfold names_at. intros H Hun. rewrite fdt_path_offset_app.
  destruct (fdt_path_offset t q) as [n|]; [|reflexivity].
  cbn in H. injection H as <-. cbn [mbind option_bind fdt_path_offset].
  assert (Hfind : List.find (select_child b) (node_children n) = None).
  { apply find_none_iff. unfold unselected, child_names in Hun.
    apply Forall_fmap in Hun. exact Hun. }
  rewrite Hfind. reflexivity.
Qed.

(** A new child of the root is not in the way of paths whose first name
    it does not answer to. *)
Lemma tree_add_root_child (t t' : fdt_node) (m c : string) (q : path) :
  tree_add_subnode t [m] = Some t' ->
  fdt_nodename_eq m c = false ->
  names_at t' (c :: q) = names_at t (c :: q).
Proof.
  intros H Hc. unfold tree_add_subnode in H. cbn in H.
  unfold add_first_child in H.
  destruct (List.find _ _); [discriminate|]. injection H as <-.
  rewrite !names_at_cons. cbn [with_children node_children List.find].
  unfold select_child at 1. cbn [node_name]. rewrite Hc. reflexivity.
Qed.

Lemma tree_add_root_child_exists (t t' : fdt_node) (m : string) :
  tree_add_subnode t [m] = Some t' -> tree_add_subnode t' [m] = None.
Proof.
  intros H. unfold tree_add_subnode in *. cbn in *.
  unfold add_first_child in *.
  destruct (List.find _ (node_children t)); [discriminate|]. injection H as <-.
  cbn [with_children node_children List.find].
  unfold select_child at 1. cbn [node_name]. rewrite fdt_nodename_eq_refl.
  reflexivity.
Qed.

(** ** Walking the tree: where the paths of a search come from *)

Lemma fdt_subnodes_paths (t : fdt_node) :
  forall prefix p n,
    In (p, n) (fdt_subnodes prefix t) ->
    exists c rest, p = prefix ++ c :: rest /\ In c (child_names t).
Proof.
  induction t as [name props children IH] using fdt_node_tree_ind.
  intros prefix p n Hin. cbn [fdt_subnodes node_children] in Hin.
  apply in_flat_map in Hin as (child & Hchild & Hin).
  assert (Hname : In (node_name child) (child_names (FdtNode name props children))).
  { unfold child_names. cbn [node_children]. apply in_map, Hchild. }
  destruct Hin as [Hin|Hin].
  - injection Hin as <- <-. exists (node_name child), []. auto.
  - rewrite Forall_forall in IH.
    destruct (IH child (proj2 (list_elem_of_In _ _) Hchild) _ _ _ Hin)
      as (c & rest & -> & _).
    exists (node_name child), (c :: rest). rewrite <- app_assoc. auto.
Qed.

Lemma root_child_in_subnodes (t c : fdt_node) :
  In c (node_children t) -> In ([node_name c], c) (fdt_subnodes [] t).
Proof.
  intros H. destruct t as [name props children]. cbn [fdt_subnodes node_children] in *.
  apply in_flat_map. exists c. split; [exact H|]. left. reflexivity.
Qed.

Lemma head_filter_Some {A B} (f : A -> B) (P : A -> bool) (l : list A) (y : B) :
  head (f <$> List.filter P l) = Some y -> exists x, In x l /\ f x = y.
Proof.
  induction l as [|x l IH]; cbn [List.filter]; [discriminate|].
  destruct (P x).
  - cbn. intros [= <-]. exists x. split; [left|]; reflexivity.
  - intros H. destruct (IH H) as (x' & Hin & <-). exists x'.
    split; [right; exact Hin|reflexivity].
Qed.

Lemma head_filter_None_inv {A B} (f : A -> B) (P : A -> bool) (l : list A) :
  head (f <$> List.filter P l) = None -> forall x, In x l -> P x = false.
Proof.
  induction l as [|x l IH]; cbn [List.filter]; intros H y Hy; [destruct Hy|].
  destruct (P x) eqn:HP; [discriminate|].
  destruct Hy as [->|Hy]; [exact HP|exact (IH H y Hy)].
Qed.

(** A node found by its compatible string lies below a child of the
    root. *)
Lemma node_by_compatible_head (fdt : fdt_blob) (compat : string) (q : path) :
  qemu_devtree_node_by_compatible fdt compat = Some q ->
  exists c rest, q = c :: rest /\ In c (child_names (fdt_root fdt)).
Proof.
  intros H. apply head_filter_Some in H as ([p n] & Hin & Hp).
  cbn in Hp. subst p.
  exact (fdt_subnodes_paths _ [] _ _ Hin).
Qed.

(** When no node is called [cmpname], no child of the root is. *)
Lemma get_node_by_name_None_root (fdt : fdt_blob) (cmpname c : string) :
  qemu_devtree_get_node_by_name fdt cmpname = None ->
  In c (child_names (fdt_root fdt)) ->
  devtree_name_eq c cmpname = false.
Proof.
  intros H Hc. unfold child_names in Hc.
  apply list_elem_of_In, list_elem_of_fmap in Hc as (n & -> & Hn).
  apply list_elem_of_In in Hn.
  exact (head_filter_None_inv _ _ _ H ([node_name n], n)
           (root_child_in_subnodes _ _ Hn)).
Qed.

(** A name that is not memory up to its unit address is not selected by
    the node ["memory@0"]. *)
Lemma memory_node_not_selected (c : string) :
  devtree_name_eq c "memory" = false -> fdt_nodename_eq "memory@0" c = false.
Proof.
  unfold devtree_name_eq, fdt_nodename_eq. intros H.
  destruct (String.eqb_spec "memory@0" c) as [<-|_]; [discriminate H|].
  destruct (String.eqb_spec (unit_base "memory@0") c) as [<-|_];
    [discriminate H|reflexivity].
Qed.

(** ** What the patches do to names and to the record of operations *)

Lemma bind_Done {A B} (m : outcome A) (k : A -> outcome B) (r : B) :
  (m ≫= k) = Done r -> exists a, m = Done a /\ k a = Done r.
Proof. destruct m as [a| |]; cbn; [eauto|discriminate..]. Qed.

Lemma deletions_app (ops1 ops2 : list fdt_op) :
  deletions (ops1 ++ ops2) = deletions ops1 ++ deletions ops2.
Proof. apply List.filter_app. Qed.

Lemma writes_props_refl (fdt : fdt_blob) : writes_props fdt fdt.
Proof.
  split; [apply same_names_refl|]. exists []. rewrite app_nil_r. auto.
Qed.

Lemma writes_props_trans (fdt1 fdt2 fdt3 : fdt_blob) :
  writes_props fdt1 fdt2 -> writes_props fdt2 fdt3 -> writes_props fdt1 fdt3.
Proof.
  intros [Hn12 (ops12 & Hh12 & Hd12)] [Hn23 (ops23 & Hh23 & Hd23)].
  split; [exact (same_names_trans _ _ _ Hn12 Hn23)|].
  exists (ops12 ++ ops23). rewrite Hh23, Hh12, <- app_assoc, deletions_app.
  rewrite Hd12, Hd23. auto.
Qed.

Lemma fdt_setprop_writes (fdt : fdt_blob) (p : path) (name value : string) :
  writes_props fdt (fdt_setprop fdt p name value).
Proof.
  split.
  - unfold fdt_setprop. cbn [blob_step fdt_root].
    destruct (tree_setprop _ _ _ _) eqn:H; cbn [default].
    + exact (tree_setprop_same_names _ _ _ _ _ H).
    + apply same_names_refl.
  - exists [OpSetProp p name value]. auto.
Qed.

Lemma qemu_fdt_setprop_writes (fdt fdt' : fdt_blob) (p : path)
    (name value : string) :
  qemu_fdt_setprop fdt p name value = Done fdt' -> writes_props fdt fdt'.
Proof.
  unfold qemu_fdt_setprop.
  destruct (tree_setprop _ _ _ _) eqn:H; [|discriminate]. intros [= <-].
  split; [exact (tree_setprop_same_names _ _ _ _ _ H)|].
  exists [OpSetProp p name value]. auto.
Qed.

Lemma zynq7000_usb_nuke_phy_writes (fdt fdt' : fdt_blob) :
  zynq7000_usb_nuke_phy fdt = Done fdt' -> writes_props fdt fdt'.
Proof.
  unfold zynq7000_usb_nuke_phy.
  destruct (qemu_devtree_node_by_compatible _ _).
  - apply qemu_fdt_setprop_writes.
  - intros [= <-]. apply writes_props_refl.
Qed.

Lemma zynq7000_disable_gic_writes (fdt fdt' : fdt_blob) :
  zynq7000_disable_gic fdt = Done fdt' -> writes_props fdt fdt'.
Proof.
  unfold zynq7000_disable_gic.
  destruct (qemu_devtree_get_node_by_name _ _).
  - apply qemu_fdt_setprop_writes.
  - intros [= <-]. apply writes_props_refl.
Qed.

Lemma zynq7000_set_reset_cbar_writes (cpus : list path) (fdt fdt' : fdt_blob) :
  zynq7000_set_reset_cbar fdt cpus = Done fdt' -> writes_props fdt fdt'.
Proof.
  revert fdt. induction cpus as [|p cpus IH]; intros fdt H;
    cbn [zynq7000_set_reset_cbar] in H.
  - injection H as <-. apply writes_props_refl.
  - apply bind_Done in H as (fdt1 & H1 & H).
    exact (writes_props_trans _ _ _ (qemu_fdt_setprop_writes _ _ _ _ _ H1) (IH _ H)).
Qed.

Lemma mark_memory_node_writes (fdt fdt' : fdt_blob) :
  mark_memory_node fdt = Done fdt' -> writes_props fdt fdt'.
Proof.
  unfold mark_memory_node. destruct (qemu_fdt_getprop _ _ _).
  - intros [= <-]. apply writes_props_refl.
  - intros H. apply bind_Done in H as (fdt1 & H1 & H).
    exact (writes_props_trans _ _ _ (qemu_fdt_setprop_writes _ _ _ _ _ H1)
             (qemu_fdt_setprop_writes _ _ _ _ _ H)).
Qed.

(** Reading below a node whose properties were written. *)
Lemma tree_setprop_below (t t' : fdt_node) (q : path) (name value : string)
    (s : string) (r : path) :
  tree_setprop t q name value = Some t' ->
  fdt_path_offset t' (q ++ s :: r) = fdt_path_offset t (q ++ s :: r).
Proof.
  intros H.
  destruct (fdt_alter_lookup _ _ _ _
              (keeps_shape_name _ (set_prop_keeps_shape name value)) H)
    as (n & n' & Hn & Hset & Hn').
  injection Hset as <-. rewrite !fdt_path_offset_app, Hn, Hn'. reflexivity.
Qed.

Lemma fdt_setprop_below (fdt : fdt_blob) (q : path) (name value : string)
    (s : string) (r : path) :
  fdt_path_offset (fdt_root (fdt_setprop fdt q name value)) (q ++ s :: r) =
  fdt_path_offset (fdt_root fdt) (q ++ s :: r).
Proof.
  unfold fdt_setprop. cbn [blob_step fdt_root].
  destruct (tree_setprop _ _ _ _) eqn:H; cbn [default]; [|reflexivity].
  exact (tree_setprop_below _ _ _ _ _ _ _ H).
Qed.

Lemma get_children_names (fdt : fdt_blob) (p : path) :
  qemu_devtree_get_children fdt p =
    match names_at (fdt_root fdt) p with
    | Some names => (fun nm => p ++ [nm]) <$> names
    | None => []
    end.
Proof.
  unfold qemu_devtree_get_children, names_at.
  destruct (fdt_path_offset _ _) as [n|]; [|reflexivity].
  cbn. unfold child_names. rewrite <- list_fmap_compose. reflexivity.
Qed.

Lemma get_children_same_names (fdt fdt' : fdt_blob) (p : path) :
  same_names (fdt_root fdt) (fdt_root fdt') ->
  qemu_devtree_get_children fdt' p = qemu_devtree_get_children fdt p.
Proof. intros H. rewrite !get_children_names, H. reflexivity. Qed.

Lemma get_children_below (fdt : fdt_blob) (p c : path) :
  In c (qemu_devtree_get_children fdt p) -> exists s, c = p ++ [s].
Proof.
  rewrite get_children_names. destruct (names_at _ _) as [names|]; [|intros []].
  intros H. apply list_elem_of_In, list_elem_of_fmap in H as (s & -> & _). eauto.
Qed.

Lemma no_deletion_refl (fdt : fdt_blob) : no_deletion_since fdt fdt.
Proof. exists []. rewrite app_nil_r. auto. Qed.

Lemma no_deletion_trans (fdt1 fdt2 fdt3 : fdt_blob) :
  no_deletion_since fdt1 fdt2 -> no_deletion_since fdt2 fdt3 ->
  no_deletion_since fdt1 fdt3.
Proof.
  intros (ops12 & Hh12 & Hd12) (ops23 & Hh23 & Hd23).
  exists (ops12 ++ ops23). rewrite Hh23, Hh12, <- app_assoc, deletions_app.
  rewrite Hd12, Hd23. auto.
Qed.

Lemma writes_props_no_deletion (fdt fdt' : fdt_blob) :
  writes_props fdt fdt' -> no_deletion_since fdt fdt'.
Proof. intros [_ H]. exact H. Qed.

Lemma no_deletion_keeps (fdt fdt' : fdt_blob) (op : fdt_op) :
  no_deletion_since fdt fdt' -> In op (fdt_history fdt) -> In op (fdt_history fdt').
Proof. intros (ops & -> & _) H. apply in_or_app. left. exact H. Qed.

Lemma no_deletion_deletions (fdt fdt' : fdt_blob) :
  no_deletion_since fdt fdt' ->
  deletions (fdt_history fdt') = deletions (fdt_history fdt).
Proof.
  intros (ops & -> & Hd). rewrite deletions_app, Hd. apply app_nil_r.
Qed.

(** What the clone function returns and what it does on the way: the name
    is the one called for by the description it was given; without a name
    only properties were written; with a name the helper was added in
    between property writes. *)
Lemma zynq7000_qspi_flash_node_clone_spec (fdt fdt' : fdt_blob) (r : option path) :
  zynq7000_qspi_flash_node_clone fdt = Done (fdt', r) ->
  r = qspi_helper_wanted fdt /\
  match r with
  | None => writes_props fdt fdt'
  | Some helper =>
      exists q fa fb,
        qemu_devtree_node_by_compatible fdt "xlnx,zynq-qspi-1.0" = Some q
        /\ helper = q ++ [QSPI_DUMMY_NAME]
        /\ writes_props fdt fa
        /\ tree_add_subnode (fdt_root fa) helper = Some (fdt_root fb)
        /\ fdt_history fb = fdt_history fa ++ [OpAddSubnode helper]
        /\ writes_props fb fdt'
  end.
Proof.
  unfold zynq7000_qspi_flash_node_clone, qspi_helper_wanted.
  destruct (qemu_devtree_node_by_compatible fdt _) as [q|] eqn:Hq.
  2:{ intros [= <- <-]. split; [reflexivity|apply writes_props_refl]. }
  cbn [mbind option_bind].
  set (fdt1 := fdt_setprop fdt q "#bus-cells" _).
  assert (W1 : writes_props fdt fdt1) by apply fdt_setprop_writes.
  rewrite (get_children_same_names fdt fdt1 q (proj1 W1)).
  destruct (qemu_devtree_get_children fdt q) as [|c0 cs] eqn:Hch.
  { intros [= <- <-]. split; [reflexivity|exact W1]. }
  cbn [head mbind option_bind].
  destruct (get_children_below fdt q c0) as [s ->].
  { rewrite Hch. left. reflexivity. }
  assert (Hcompat : qemu_fdt_getprop fdt1 (q ++ [s]) "compatible"
                    = qemu_fdt_getprop fdt (q ++ [s]) "compatible").
  { unfold qemu_fdt_getprop, fdt1. rewrite fdt_setprop_below. reflexivity. }
  rewrite Hcompat.
  set (fdt2 := fdt_setprop fdt1 (q ++ [s]) "reg" _).
  assert (W2 : writes_props fdt fdt2).
  { apply (writes_props_trans _ _ _ W1), fdt_setprop_writes. }
  destruct (qemu_fdt_getprop fdt (q ++ [s]) "compatible") as [bytes|].
  2:{ intros [= <- <-]. split; [reflexivity|exact W2]. }
  cbn [mbind option_bind].
  destruct (qemu_fdt_getprop_cell fdt q "is-dual" 0 =? 1).
  2:{ intros [= <- <-]. split; [reflexivity|exact W2]. }
  intros H. apply bind_Done in H as (fdt3 & H3 & H).
  apply bind_Done in H as (fdt4 & H4 & H). injection H as <- <-.
  split; [reflexivity|]. exists q, fdt2, fdt3.
  unfold qemu_fdt_add_subnode in H3.
  destruct (tree_add_subnode _ _) as [t3|] eqn:Hadd; [|discriminate].
  injection H3 as <-. cbn [blob_step fdt_root fdt_history].
  split; [reflexivity|]. split; [reflexivity|]. split; [exact W2|].
  split; [reflexivity|]. split; [reflexivity|].
  apply (writes_props_trans _ fdt4).
  - exact (qemu_fdt_setprop_writes _ _ _ _ _ H4).
  - apply fdt_setprop_writes.
Qed.

(** The memory node is found, or it is added once under the root and then
    found. *)
Lemma find_or_add_memory_node_spec (fdt fdt' : fdt_blob) (ram_size : Z)
    (node_path : path) :
  find_or_add_memory_node fdt ram_size = Done (fdt', node_path) ->
  fdt' = fdt \/
  (qemu_devtree_get_node_by_name fdt "memory" = None /\
   exists fa,
     tree_add_subnode (fdt_root fdt) ["memory@0"%string] = Some (fdt_root fa)
     /\ fdt_history fa = fdt_history fdt ++ [OpAddSubnode ["memory@0"%string]]
     /\ writes_props fa fdt').
Proof.
  unfold find_or_add_memory_node.
  destruct (qemu_devtree_get_node_by_name fdt _) eqn:Hname.
  { intros [= <- <-]. left. reflexivity. }
  intros H. right. split; [reflexivity|].
  apply bind_Done in H as (fa & Ha & H).
  apply bind_Done in H as (fb & Hb & H).
  unfold qemu_fdt_add_subnode in Ha.
  destruct (tree_add_subnode _ _) as [ta|] eqn:Hadd; [|discriminate].
  injection Ha as <-.
  destruct (qemu_devtree_get_node_by_name fb _).
  - injection H as <- <-.
    exists (blob_step fdt ta (OpAddSubnode ["memory@0"%string])).
    cbn [blob_step fdt_root fdt_history].
    split; [reflexivity|]. split; [reflexivity|].
    exact (qemu_fdt_setprop_writes _ _ _ _ _ Hb).
  - apply bind_Done in H as (fc & _ & H). discriminate.
Qed.

(** The loop that looks for the memory node never needs a third turn:
    once ["/memory@0"] is there the search finds a node. *)
Lemma memory_node_found_after_add (fdt fa fb : fdt_blob) (ram_size : Z) :
  qemu_fdt_add_subnode fdt ["memory@0"%string] = Done fa ->
  qemu_fdt_setprop_cells fa ["memory@0"%string] "reg" [0; wrap32 ram_size] = Done fb ->
  qemu_devtree_get_node_by_name fb "memory" <> None.
Proof.
  intros Ha Hb Hnone.
  apply qemu_fdt_setprop_writes in Hb as [Hnames _].
  unfold qemu_fdt_add_subnode in Ha.
  destruct (tree_add_subnode _ _) as [ta|] eqn:Hadd; [|discriminate].
  injection Ha as <-. cbn [blob_step fdt_root] in Hnames.
  assert (Hin : In "memory@0"%string (child_names (fdt_root fb))).
  { specialize (Hnames []). rewrite !names_at_nil in Hnames.
    injection Hnames as ->.
    unfold tree_add_subnode in Hadd. cbn in Hadd. unfold add_first_child in Hadd.
    destruct (List.find _ _); [discriminate|]. injection Hadd as <-.
    left. reflexivity. }
  pose proof (get_node_by_name_None_root fb "memory" "memory@0" Hnone Hin) as H.
  vm_compute in H. discriminate.
Qed.

(** ** The machine init, step by step *)

Lemma map_memory_regions_statics (objs : machine_objects) (regions : list path)
    (w w' : world) :
  map_memory_regions objs regions w = Done w' ->
  w_roms w' = w_roms w /\ w_smpboot w' = w_smpboot w.
Proof.
  revert w. induction regions as [|p regions IH]; intros w H;
    cbn [map_memory_regions] in H.
  - injection H as <-. auto.
  - destruct (object_resolve_path objs p) as [area|]; [|discriminate].
    destruct (IH _ H) as [Hr Hs]. rewrite Hr, Hs.
    destruct (negb (mro_mapped area)); auto.
Qed.

Lemma reconcile_ram_statics (C H : Z) (area : container) (P R : Z) (w : world) :
  w_roms (reconcile_ram C H area P R w) = w_roms w
  /\ w_smpboot (reconcile_ram C H area P R w) = w_smpboot w.
Proof.
  unfold reconcile_ram. destruct (P <? R); [|auto].
  destruct (C <? R); destruct (negb _); auto.
Qed.

(** A run of [arm_generic_fdt_init] that returns went through these
    steps. *)
Lemma arm_generic_fdt_init_Done (host target : bool) (C H : Z)
    (load : string -> option (fdt_node * Z)) (create : fdt_node -> machine_objects)
    (machine : MachineState) (w : world) (fdt' : fdt_blob) (w' : world) :
  arm_generic_fdt_init host target C H load create machine w = Done (fdt', w') ->
  exists root sw fdt1 clone fdt2 node_path fdt3 mem_area w1,
    hw_description load machine = Some root
    /\ (if machine_is_zynq_7000 machine
        then zynq7000_patches {| fdt_root := root; fdt_history := [] |}
        else Done ({| fdt_root := root; fdt_history := [] |}, None))
       = Done (fdt1, clone)
    /\ find_or_add_memory_node fdt1 (machine_ram_size machine)
       = Done (fdt2, node_path)
    /\ mark_memory_node fdt2 = Done fdt3
    /\ object_resolve_path (create (fdt_root fdt3)) node_path = Some mem_area
    /\ w_roms w1 = w_roms w /\ w_smpboot w1 = w_smpboot w
    /\ (let fdt4 := remove_cloned_node
                      (blob_step fdt3 (fdt_root fdt3) OpCreateMachine) clone in
        (if machine_is_zynq_7000 machine
         then zynq7000_usb_nuke_phy fdt4 else Done fdt4) = Done fdt')
    /\ (let binfo := generic_fdt_binfo machine (create (fdt_root fdt3))
                       mem_area sw in
        w' = match machine_kernel_filename machine with
             | Some _ => arm_load_kernel host target binfo
                           (world_set_binfo w1 binfo)
             | None => world_set_binfo w1 binfo
             end).
Proof.
  intros Hrun. unfold arm_generic_fdt_init in Hrun.
  match type of Hrun with
  | (let '(_, _) := ?flag in _) = _ => set (fl := flag) in Hrun
  end.
  assert (Hflag : fl.1 = machine_is_zynq_7000 machine
                  /\ w_roms fl.2 = w_roms w /\ w_smpboot fl.2 = w_smpboot w).
  { unfold fl, machine_is_zynq_7000.
    destruct (String.eqb _ ZYNQ7000_MACHINE_NAME);
      destruct (String.eqb _ DEP_GENERAL_MACHINE_NAME); cbn; auto. }
  clearbody fl. destruct fl as [zynq wp]. cbn [fst snd] in Hflag.
  destruct Hflag as (-> & Hroms & Hsmp).
  destruct (bool_decide _ && bool_decide _) eqn:Hnull; [discriminate|].
  apply bind_Done in Hrun as (sw & Hsw & Hrun).
  apply bind_Done in Hrun as (hw & Hhw & Hrun).
  destruct hw as [[root size]|]; [|discriminate].
  assert (Hdesc : hw_description load machine = Some root).
  { unfold hw_description.
    destruct (machine_opt_hw_dtb machine) as [f|].
    - destruct (load f); [|discriminate]. injection Hhw as ->. reflexivity.
    - injection Hhw as ->.
      destruct (machine_opt_dtb machine) as [f|]; [|discriminate]. cbn.
      destruct (load f); [|discriminate]. injection Hsw as ->. reflexivity. }
  apply bind_Done in Hrun as ([fdt1 clone] & Hpatch & Hrun).
  apply bind_Done in Hrun as ([fdt2 node_path] & Hmem & Hrun).
  apply bind_Done in Hrun as (fdt3 & Hmark & Hrun).
  cbv beta iota zeta delta [fdt_generic_create_machine] in Hrun.
  destruct (object_resolve_path _ node_path) as [mem_area|] eqn:Harea;
    [|discriminate].
  apply bind_Done in Hrun as (w1 & Hw1 & Hrun).
  apply bind_Done in Hrun as (w2 & Hw2 & Hrun).
  apply bind_Done in Hrun as (fdt5 & Husb & Hrun).
  injection Hrun as <- <-.
  exists root, sw, fdt1, clone, fdt2, node_path, fdt3, mem_area, w2.
  split; [exact Hdesc|]. split; [exact Hpatch|]. split; [exact Hmem|].
  split; [exact Hmark|]. split; [exact Harea|].
  assert (Hw : w_roms w2 = w_roms w /\ w_smpboot w2 = w_smpboot w).
  { rewrite <- Hroms, <- Hsmp.
    assert (H1 : w_roms w1 = w_roms wp /\ w_smpboot w1 = w_smpboot wp).
    { destruct (machine_is_zynq_7000 machine).
      - exact (map_memory_regions_statics _ _ _ _ Hw1).
      - injection Hw1 as <-. auto. }
    destruct H1 as [<- <-].
    destruct (machine_is_zynq_7000 machine); cbn [negb] in Hw2.
    - injection Hw2 as <-. auto.
    - apply bind_Done in Hw2 as (memory_max & _ & Hw2). injection Hw2 as <-.
      apply reconcile_ram_statics. }
  destruct Hw as [Hw2r Hw2s].
  split; [exact Hw2r|]. split; [exact Hw2s|]. split; [exact Husb|].
  reflexivity.
Qed.

(** ** Secondary boot code in the machine init *)

(** C7, as the code has it: every run of the machine init that returns
    records 0xFFFFFFF0 as the secondary loader start and
    [arm_write_secondary_boot] as the hook in the boot descriptor.  The
    spin code is deposited when a kernel file is given and more than one
    CPU was created: one blob of the two instructions, wfi (0xe320f003)
    and the branch back to it (0xeafffffd), in the target's byte order,
    at 0xFFFFFFF0.  Without a kernel file the loader is not called and
    nothing is deposited.  (The static array is taken as it is when the
    process starts.) *)
Theorem secondary_boot_prepared (host target : bool) (C H : Z)
    (load : string -> option (fdt_node * Z)) (create : fdt_node -> machine_objects)
    (machine : MachineState) (w : world) (fdt' : fdt_blob) (w' : world) :
  w_smpboot w = zynq_smpboot ->
  arm_generic_fdt_init host target C H load create machine w = Done (fdt', w') ->
  bi_smp_loader_start (w_binfo w') = 0xFFFFFFF0
  /\ bi_write_secondary_boot (w_binfo w') = Some ArmWriteSecondaryBoot
  /\ w_roms w' =
       w_roms w ++
       (if match machine_kernel_filename machine with
           | Some _ => 1 <? bi_nb_cpus (w_binfo w')
           | None => false
           end
        then [{| rom_name := "smpboot";
                 rom_data := flat_map (mem_bytes32 target) [0xe320f003; 0xeafffffd];
                 rom_addr := 0xFFFFFFF0 |}]
        else []).
Proof.
  intros Hstatic Hrun.
  destruct (arm_generic_fdt_init_Done _ _ _ _ _ _ _ _ _ _ Hrun)
    as (root & sw & fdt1 & clone & fdt2 & node_path & fdt3 & mem_area & w1
        & _ & _ & _ & _ & _ & Hroms & Hsmp & _ & Hw').
  cbv zeta in Hw'. subst w'.
  destruct (machine_kernel_filename machine) as [kernel|].
  - unfold arm_load_kernel.
    cbn [generic_fdt_binfo bi_write_secondary_boot bi_nb_cpus].
    destruct (1 <? fdt_generic_num_cpus _) eqn:Hcpus;
      cbn [w_binfo w_roms w_smpboot world_set_binfo arm_write_secondary_boot
           generic_fdt_binfo bi_smp_loader_start bi_write_secondary_boot
           bi_nb_cpus];
      rewrite ?Hcpus, Hroms.
    + rewrite Hsmp, Hstatic, tswap32_smpboot_target_order. auto.
    + rewrite app_nil_r. auto.
  - cbn [w_binfo w_roms world_set_binfo generic_fdt_binfo bi_smp_loader_start
         bi_write_secondary_boot].
    rewrite Hroms, app_nil_r. auto.
Qed.

(** The test machine with two CPUs and a kernel: the blob holds the
    little-endian bytes of the two instructions. *)
Lemma secondary_boot_prepared_witness :
  let w' := (sample_result 1 2 (Some "zImage"%string)).2 in
  bi_smp_loader_start (w_binfo w') = 0xFFFFFFF0
  /\ bi_write_secondary_boot (w_binfo w') = Some ArmWriteSecondaryBoot
  /\ w_roms w' =
       [{| rom_name := "smpboot";
           rom_data := [0x03; 0xf0; 0x20; 0xe3; 0xfd; 0xff; 0xff; 0xea];
           rom_addr := 0xFFFFFFF0 |}].
Proof.
  exact (secondary_boot_prepared false false (2 * GiB) 0x800000000
           (sample_load 1) (sample_create 2) (sample_machine (Some "zImage"%string))
           (world_at_start (512 * MiB))
           (sample_result 1 2 (Some "zImage"%string)).1
           (sample_result 1 2 (Some "zImage"%string)).2
           ltac:(reflexivity) ltac:(vm_compute; reflexivity)).
Defined.

(** C7 as stated fails: the test machine with two CPUs and no kernel file
    comes up with the descriptor filled in and no spin code anywhere. *)
Lemma multi_core_without_kernel_no_spin_code :
  exists fdt' w',
    sample_run 1 2 None = Done (fdt', w')
    /\ bi_nb_cpus (w_binfo w') = 2
    /\ bi_smp_loader_start (w_binfo w') = 0xFFFFFFF0
    /\ w_roms w' = [].
Proof.
  exists (sample_result 1 2 None).1, (sample_result 1 2 None).2.
  vm_compute. auto.
Qed.

(** The eight bytes for either target byte order. *)
Example smpboot_bytes :
  flat_map (mem_bytes32 true) zynq_smpboot
    = [0xe3; 0x20; 0xf0; 0x03; 0xea; 0xff; 0xff; 0xfd]
  /\ flat_map (mem_bytes32 false) zynq_smpboot
     = [0x03; 0xf0; 0x20; 0xe3; 0xfd; 0xff; 0xff; 0xea].
Proof. split; reflexivity. Qed.

(** ** The flash helper node through the machine init *)

Lemma no_deletion_step (fdt fdt' : fdt_blob) (op : fdt_op) :
  fdt_history fdt' = fdt_history fdt ++ [op] -> is_del_node op = false ->
  no_deletion_since fdt fdt'.
Proof.
  intros Hh Hop. exists [op]. split; [exact Hh|].
  unfold deletions. cbn [List.filter]. rewrite Hop. reflexivity.
Qed.

Lemma memory_phase_no_deletion (fdt1 fdt2 fdt3 : fdt_blob) (ram_size : Z)
    (node_path : path) :
  find_or_add_memory_node fdt1 ram_size = Done (fdt2, node_path) ->
  mark_memory_node fdt2 = Done fdt3 ->
  no_deletion_since fdt1 fdt3.
Proof.
  intros Hmem Hmark.
  apply mark_memory_node_writes, writes_props_no_deletion in Hmark.
  destruct (find_or_add_memory_node_spec _ _ _ _ Hmem)
    as [->|(_ & fa & _ & Hh & Wa)]; [exact Hmark|].
  apply (no_deletion_trans _ fa).
  - exact (no_deletion_step _ _ _ Hh eq_refl).
  - exact (no_deletion_trans _ _ _ (writes_props_no_deletion _ _ Wa) Hmark).
Qed.

(** Adding the memory node does not change what a path through another
    child of the root means. *)
Lemma memory_phase_names (fdt1 fdt2 fdt3 : fdt_blob) (ram_size : Z)
    (node_path : path) (c : string) (rest : path) :
  find_or_add_memory_node fdt1 ram_size = Done (fdt2, node_path) ->
  mark_memory_node fdt2 = Done fdt3 ->
  In c (child_names (fdt_root fdt1)) ->
  names_at (fdt_root fdt3) (c :: rest) = names_at (fdt_root fdt1) (c :: rest).
Proof.
  intros Hmem Hmark Hc.
  apply mark_memory_node_writes in Hmark as [Hmark _].
  rewrite Hmark.
  destruct (find_or_add_memory_node_spec _ _ _ _ Hmem)
    as [->|(Hnone & fa & Hadd & _ & [Wa _])]; [reflexivity|].
  rewrite Wa. apply (tree_add_root_child _ _ _ _ _ Hadd).
  apply memory_node_not_selected.
  exact (get_node_by_name_None_root _ _ _ Hnone Hc).
Qed.

Lemma same_names_child_names (t t' : fdt_node) :
  same_names t t' -> child_names t' = child_names t.
Proof.
  intros H. specialize (H []). rewrite !names_at_nil in H.
  injection H as ->. reflexivity.
Qed.

(** The helper in the record of operations and in the final tree. *)
Lemma qspi_helper_added_and_deleted (host target : bool) (C H : Z)
    (load : string -> option (fdt_node * Z)) (create : fdt_node -> machine_objects)
    (machine : MachineState) (w : world) (fdt' : fdt_blob) (w' : world)
    (root : fdt_node) :
  hw_description load machine = Some root ->
  arm_generic_fdt_init host target C H load create machine w = Done (fdt', w') ->
  match (if machine_is_zynq_7000 machine
         then qspi_helper_wanted {| fdt_root := root; fdt_history := [] |}
         else None) with
  | Some helper =>
      exists before after,
        fdt_history fdt' = before ++ OpCreateMachine :: after
        /\ In (OpAddSubnode helper) before
        /\ deletions before = []
        /\ deletions after = [OpDelNode helper]
        /\ fdt_path_offset (fdt_root fdt') helper = None
  | None => deletions (fdt_history fdt') = []
  end.
Proof.
  intros Hdesc Hrun.
  destruct (arm_generic_fdt_init_Done _ _ _ _ _ _ _ _ _ _ Hrun)
    as (root' & sw & fdt1 & clone & fdt2 & node_path & fdt3 & mem_area & w1
        & Hdesc' & Hpatch & Hmem & Hmark & _ & _ & _ & Husb & _).
  rewrite Hdesc in Hdesc'. injection Hdesc' as <-. cbv zeta in Husb.
  set (fdt0 := {| fdt_root := root; fdt_history := [] |}) in *.
  pose proof (memory_phase_no_deletion _ _ _ _ _ Hmem Hmark) as Hnd13.
  assert (Hquiet : forall fdtb,
             no_deletion_since fdt0 fdt3 ->
             (if machine_is_zynq_7000 machine
              then zynq7000_usb_nuke_phy
                     (blob_step fdt3 (fdt_root fdt3) OpCreateMachine)
              else Done (blob_step fdt3 (fdt_root fdt3) OpCreateMachine))
             = Done fdtb ->
             deletions (fdt_history fdtb) = []).
  { intros fdtb Hnd03 Hb.
    assert (Hnd : no_deletion_since fdt0 fdtb).
    { apply (no_deletion_trans _ fdt3 _ Hnd03).
      apply (no_deletion_trans _ (blob_step fdt3 (fdt_root fdt3) OpCreateMachine)).
      - exact (no_deletion_step fdt3
                 (blob_step fdt3 (fdt_root fdt3) OpCreateMachine)
                 OpCreateMachine eq_refl eq_refl).
      - destruct (machine_is_zynq_7000 machine).
        + exact (writes_props_no_deletion _ _ (zynq7000_usb_nuke_phy_writes _ _ Hb)).
        + injection Hb as <-. apply no_deletion_refl. }
    rewrite (no_deletion_deletions _ _ Hnd). reflexivity. }
  destruct (machine_is_zynq_7000 machine).
  2:{ injection Hpatch as <- <-. exact (Hquiet _ Hnd13 Husb). }
  unfold zynq7000_patches in Hpatch.
  apply bind_Done in Hpatch as ([fx rx] & Hclone & Hpatch).
  apply bind_Done in Hpatch as (fy & Hgic & Hpatch).
  apply bind_Done in Hpatch as (fz & Hcbar & Hpatch).
  injection Hpatch as <- <-.
  apply zynq7000_disable_gic_writes in Hgic.
  apply zynq7000_set_reset_cbar_writes in Hcbar.
  pose proof (writes_props_trans _ _ _ Hgic Hcbar) as Wxz.
  destruct (zynq7000_qspi_flash_node_clone_spec _ _ _ Hclone) as [<- Hspec].
  destruct rx as [helper|].
  2:{ apply (Hquiet _ (no_deletion_trans _ _ _
               (writes_props_no_deletion _ _ (writes_props_trans _ _ _ Hspec Wxz))
               Hnd13) Husb). }
  destruct Hspec as (q & fa & fb & Hq & -> & Wa & Hadd & Hha & Wb).
  pose proof (writes_props_trans _ _ _ Wb Wxz) as Wbz.
  destruct (node_by_compatible_head _ _ _ Hq) as (c & rest & -> & Hc).
  destruct (tree_add_subnode_names _ _ _ _ Hadd) as (names & _ & Hnb & Hun).
  (* the root's children keep their names up to the memory phase *)
  assert (Hc1 : In c (child_names (fdt_root fz))).
  { rewrite (same_names_child_names _ _ (proj1 Wbz)).
    rewrite (tree_add_subnode_child_names _ _ _ _ _ Hadd).
    rewrite (same_names_child_names _ _ (proj1 Wa)). exact Hc. }
  (* the helper is the first child of the controller when the pass starts *)
  assert (Hn3 : names_at (fdt_root fdt3) (c :: rest)
                = Some (QSPI_DUMMY_NAME :: names)).
  { rewrite (memory_phase_names _ _ _ _ _ c rest Hmem Hmark Hc1).
    rewrite (proj1 Wbz). exact Hnb. }
  destruct (tree_del_node_names _ _ _ _ Hn3) as (t4 & Hdel & Hn4).
  cbn [remove_cloned_node] in Husb. unfold fdt_del_node in Husb.
  cbn [blob_step fdt_root fdt_history] in Husb. rewrite Hdel in Husb.
  cbn [default] in Husb.
  apply zynq7000_usb_nuke_phy_writes in Husb as [Hn5 (ops & Hh5 & Hd5)].
  cbn [blob_step fdt_root fdt_history id] in Hn5, Hh5.
  exists (fdt_history fdt3), (OpDelNode ((c :: rest) ++ [QSPI_DUMMY_NAME]) :: ops).
  split; [|split; [|split; [|split]]].
  - rewrite Hh5, <- !app_assoc. reflexivity.
  - apply (no_deletion_keeps fb).
    + exact (no_deletion_trans _ _ _ (writes_props_no_deletion _ _ Wbz) Hnd13).
    + rewrite Hha. apply in_or_app. right. left. reflexivity.
  - assert (Hnd : no_deletion_since fdt0 fdt3).
    { apply (no_deletion_trans _ fa _ (writes_props_no_deletion _ _ Wa)).
      apply (no_deletion_trans _ fb _ (no_deletion_step _ _ _ Hha eq_refl)).
      exact (no_deletion_trans _ _ _ (writes_props_no_deletion _ _ Wbz) Hnd13). }
    rewrite (no_deletion_deletions _ _ Hnd). reflexivity.
  - unfold deletions in *. cbn [List.filter is_del_node]. rewrite Hd5. reflexivity.
  - apply (path_absent _ _ _ names); [|exact Hun].
    rewrite Hn5. exact Hn4.
Qed.


(** What is done to the description of the test machine, in order. *)
Example sample_history_dual :
  fdt_history (sample_result 1 2 None).1 =
    [ OpSetProp sample_qspi_path "#bus-cells" (cell_value 1);
      OpSetProp (sample_qspi_path ++ ["flash@0"%string]) "reg" (cells_value [0; 0]);
      OpAddSubnode sample_helper_path;
      OpSetProp sample_helper_path "compatible" (string_value "n25q128");
      OpSetProp sample_helper_path "reg" (cells_value [0; 1]);
      OpCreateMachine;
      OpDelNode sample_helper_path ].
Proof. vm_compute. reflexivity. Qed.

(** Without dual mode nothing is added and nothing is deleted. *)
Example sample_history_single :
  fdt_history (sample_result 0 2 None).1 =
    [ OpSetProp sample_qspi_path "#bus-cells" (cell_value 1);
      OpSetProp (sample_qspi_path ++ ["flash@0"%string]) "reg" (cells_value [0; 0]);
      OpCreateMachine ].
Proof. vm_compute. reflexivity. Qed.

(** After the run the tree of the test machine differs from the loaded
    one in the two properties written, not in its nodes. *)
Example sample_tree_after :
  fdt_root (sample_result 1 2 None).1 =
    FdtNode "" ∅
      [ sample_memory;
        FdtNode "amba" ∅
          [ FdtNode "spi@e000d000"
              (<["#bus-cells"%string := cell_value 1]>
                 (node_props (sample_qspi 1)))
              [ FdtNode "flash@0"
                  (<["reg"%string := cells_value [0; 0]]>
                     (node_props sample_flash)) [] ];
            sample_ethernet ] ].
Proof. vm_compute. reflexivity. Qed.

(** ** Memory sizing in the machine init *)

(** The scan finds the 512 MiB the test description declares. *)
Example zynqmp_scan :
  scan_memory_max {| fdt_root := sample_zynqmp_tree (512 * MiB); fdt_history := [] |}
    ["memory@0"%string]
    (fdt_nodes_by_compatible
       {| fdt_root := sample_zynqmp_tree (512 * MiB); fdt_history := [] |}
       "qemu:memory-region") 0
  = Done (512 * MiB).
Proof. vm_compute. reflexivity. Qed.

(** The whole init on the spec's test points: 512 MiB described and 3 GiB
    requested; 512 MiB described and 256 MiB requested. *)
Example zynqmp_run_adds_ram :
  match sample_zynqmp_run (512 * MiB) (3 * GiB) with
  | Done (_, w) =>
      w_map w =
        [ MapRam (RegionOfNode ["memory@0"%string])
            {| rr_name := "ddr-ram-high"; rr_size := 1 * GiB;
               rr_offset := 0x800000000 |};
          MapRam (RegionOfNode ["memory@0"%string])
            {| rr_name := "ddr-ram-low"; rr_size := 1536 * MiB;
               rr_offset := 512 * MiB |} ]
      /\ w_ram_size w = 3 * GiB /\ w_memory_opt_size w = None
  | _ => False
  end.
Proof. vm_compute. auto. Qed.

Example zynqmp_run_description_wins :
  match sample_zynqmp_run (512 * MiB) (256 * MiB) with
  | Done (_, w) =>
      w_map w = [] /\ w_ram_size w = 512 * MiB
      /\ w_memory_opt_size w = Some (512 * MiB) /\ w_stderr w = []
  | _ => False
  end.
Proof. vm_compute. auto 10. Qed.

(** ** Adding the helper and deleting it again *)

Lemma alter_first_compose {A} (sel : A -> bool) (f g : A -> option A)
    (l l1 : list A) :
  (forall x x', f x = Some x' -> sel x' = sel x) ->
  alter_first sel f l = Some l1 ->
  alter_first sel g l1 = alter_first sel (fun x => f x ≫= g) l.
Proof.
  intros Hf. revert l1. induction l as [|y l IH]; intros l1 H;
    cbn [alter_first] in *; [discriminate|].
  destruct (sel y) eqn:Hy.
  - destruct (f y) as [y'|] eqn:Hfy; [|discriminate]. cbn in H.
    injection H as <-. cbn [alter_first]. rewrite (Hf _ _ Hfy), Hy. reflexivity.
  - destruct (alter_first sel f l) as [l'|]; [|discriminate]. cbn in H.
    injection H as <-. cbn [alter_first]. rewrite Hy, (IH l' eq_refl).
    reflexivity.
Qed.

Lemma alter_first_ext {A} (sel : A -> bool) (f g : A -> option A) (l : list A) :
  (forall x, f x = g x) -> alter_first sel f l = alter_first sel g l.
Proof.
  intros Hfg. induction l as [|y l IH]; cbn [alter_first]; [reflexivity|].
  rewrite Hfg, IH. reflexivity.
Qed.

Lemma alter_first_None {A} (sel : A -> bool) (f f' : A -> option A) (l : list A) :
  (forall y, f y = None -> f' y = None) ->
  alter_first sel f l = None -> alter_first sel f' l = None.
Proof.
  intros Hf. induction l as [|y l IH]; cbn [alter_first]; [reflexivity|].
  destruct (sel y).
  - destruct (f y) eqn:Hy; [discriminate|]. rewrite (Hf _ Hy). reflexivity.
  - destruct (alter_first sel f l); [discriminate|]. intros _.
    rewrite (IH eq_refl). reflexivity.
Qed.

Lemma fdt_alter_bind_None (f g : fdt_node -> option fdt_node) (q : path)
    (x : fdt_node) :
  fdt_alter f q x = None -> fdt_alter (fun n => f n ≫= g) q x = None.
Proof.
  revert x. induction q as [|s q IH]; intros x H; cbn [fdt_alter] in *.
  - rewrite H. reflexivity.
  - destruct (alter_first _ (fdt_alter f q) _) eqn:Hcs; [discriminate|].
    rewrite (alter_first_None _ _ _ _ IH Hcs). reflexivity.
Qed.

Lemma fdt_alter_compose (f g : fdt_node -> option fdt_node) (q : path)
    (t t1 : fdt_node) :
  keeps_name f -> fdt_alter f q t = Some t1 ->
  fdt_alter g q t1 = fdt_alter (fun n => f n ≫= g) q t.
Proof.
  intros Hf. revert t t1. induction q as [|s q IH]; intros t t1 H;
    cbn [fdt_alter] in *.
  - rewrite H. reflexivity.
  - destruct (alter_first _ _ (node_children t)) as [cs|] eqn:Hcs; [|discriminate].
    cbn in H. injection H as <-. cbn [with_children node_children].
    rewrite (alter_first_compose _ _ (fdt_alter g q) _ _
               (fun x x' Hx => select_child_name s x x'
                                 (fdt_alter_keeps_name f q Hf x x' Hx)) Hcs).
    rewrite (alter_first_ext _ _ (fdt_alter (fun n => f n ≫= g) q)).
    + destruct (alter_first _ _ _); reflexivity.
    + intros x. destruct (fdt_alter f q x) as [x'|] eqn:Hx; cbn.
      * exact (IH _ _ Hx).
      * symmetry. exact (fdt_alter_bind_None f g q x Hx).
Qed.

Lemma fdt_alter_ext (f g : fdt_node -> option fdt_node) (q : path) (t : fdt_node) :
  (forall n, f n = g n) -> fdt_alter f q t = fdt_alter g q t.
Proof.
  intros Hfg. revert t. induction q as [|s q IH]; intros t; cbn [fdt_alter].
  - apply Hfg.
  - rewrite (alter_first_ext _ _ (fdt_alter g q) _ IH). reflexivity.
Qed.

Lemma with_children_same (n : fdt_node) : with_children n (node_children n) = n.
Proof. destruct n. reflexivity. Qed.

Lemma fdt_alter_id (h : fdt_node -> option fdt_node) (q : path) (t t' : fdt_node) :
  (forall n n', h n = Some n' -> n' = n) ->
  fdt_alter h q t = Some t' -> t' = t.
Proof.
  intros Hh. revert t t'. induction q as [|s q IH]; intros t t' H;
    cbn [fdt_alter] in H.
  - exact (Hh _ _ H).
  - destruct (alter_first _ _ _) as [cs|] eqn:Hcs; [|discriminate]. cbn in H.
    injection H as <-.
    destruct (alter_first_Some _ _ _ _ Hcs) as (l1 & x & x' & l2 & Hl & -> & _ & _ & Hx).
    rewrite (IH _ _ Hx), <- Hl. apply with_children_same.
Qed.

Lemma fdt_alter_app (f : fdt_node -> option fdt_node) (q p : path) (t : fdt_node) :
  fdt_alter f (q ++ p) t = fdt_alter (fdt_alter f p) q t.
Proof.
  revert t. induction q as [|s q IH]; intros t; cbn [app fdt_alter]; [reflexivity|].
  rewrite (alter_first_ext _ _ (fdt_alter (fdt_alter f p) q) _ IH). reflexivity.
Qed.

Lemma add_then_remove_child (b : string) (n n1 : fdt_node) :
  add_first_child b n = Some n1 -> remove_child b n1 = Some n.
Proof.
  unfold add_first_child. destruct (List.find _ _); [discriminate|].
  intros [= <-]. unfold remove_child.
  cbn [with_children node_children remove_first].
  unfold select_child at 1. cbn [node_name]. rewrite fdt_nodename_eq_refl.
  cbn. destruct n. reflexivity.
Qed.

(** Deleting a node right after it was added gives the tree back. *)
Lemma tree_add_then_del (t t1 : fdt_node) (q : path) (b : string) :
  tree_add_subnode t (q ++ [b]) = Some t1 ->
  tree_del_node t1 (q ++ [b]) = Some t.
Proof.
  unfold tree_add_subnode, tree_del_node. rewrite path_split_snoc. cbn.
  intros Hadd.
  rewrite (fdt_alter_compose _ (remove_child b) _ _ _
             (add_first_child_keeps_name b) Hadd).
  assert (Hid : forall n n', add_first_child b n ≫= remove_child b = Some n' ->
                             n' = n).
  { intros n n'. destruct (add_first_child b n) as [n1|] eqn:Hn1; [|discriminate].
    cbn. rewrite (add_then_remove_child _ _ _ Hn1). congruence. }
  destruct (fdt_alter_lookup _ _ _ _ (add_first_child_keeps_name b) Hadd)
    as (n & n1 & Hn & Hn1 & _).
  assert (Hcomp : add_first_child b n ≫= remove_child b = Some n).
  { rewrite Hn1. cbn. exact (add_then_remove_child _ _ _ Hn1). }
  destruct (fdt_alter_total (fun n => add_first_child b n ≫= remove_child b)
              q t n n Hn Hcomp) as [t' Ht'].
  rewrite Ht'. f_equal.
  exact (fdt_alter_id (fun n => add_first_child b n ≫= remove_child b)
           _ _ _ Hid Ht').
Qed.

Lemma remove_first_after_alter {A} (sel : A -> bool) (f : A -> option A)
    (l l1 : list A) :
  (forall x x', f x = Some x' -> sel x' = sel x) ->
  alter_first sel f l = Some l1 ->
  remove_first sel l1 = remove_first sel l.
Proof.
  intros Hf. revert l1. induction l as [|y l IH]; intros l1 H;
    cbn [alter_first] in H; [discriminate|].
  destruct (sel y) eqn:Hy.
  - destruct (f y) as [y'|] eqn:Hfy; [|discriminate]. cbn in H.
    injection H as <-. cbn [remove_first]. rewrite (Hf _ _ Hfy), Hy. reflexivity.
  - destruct (alter_first sel f l) as [l'|]; [|discriminate]. cbn in H.
    injection H as <-. cbn [remove_first]. rewrite Hy, (IH l' eq_refl).
    reflexivity.
Qed.

(** Writing a property of a node does not matter once the node is
    deleted. *)
Lemma tree_setprop_then_del (t1 t2 : fdt_node) (q : path) (b name value : string) :
  tree_setprop t1 (q ++ [b]) name value = Some t2 ->
  tree_del_node t2 (q ++ [b]) = tree_del_node t1 (q ++ [b]).
Proof.
  unfold tree_setprop, tree_del_node. rewrite path_split_snoc. cbn.
  rewrite fdt_alter_app. intros Hset.
  assert (Hkeep : keeps_name (fdt_alter (fun n => Some (set_prop name value n)) [b])).
  { apply fdt_alter_keeps_name. intros n n' [= <-]. reflexivity. }
  rewrite (fdt_alter_compose _ (remove_child b) _ _ _ Hkeep Hset).
  apply fdt_alter_ext. intros n. cbn [fdt_alter].
  destruct (alter_first _ _ _) as [cs|] eqn:Hcs; cbn.
  - unfold remove_child. cbn [with_children node_children].
    assert (Hsel : forall x x', Some (set_prop name value x) = Some x' ->
                                select_child b x' = select_child b x).
    { intros x x' [= <-]. reflexivity. }
    rewrite (remove_first_after_alter _ _ _ _ Hsel Hcs).
    destruct (remove_first _ _); reflexivity.
  - unfold remove_child.
    assert (Hnone : remove_first (select_child b) (node_children n) = None).
    { clear -Hcs. induction (node_children n) as [|y l IH];
        cbn [alter_first remove_first] in *; [reflexivity|].
      destruct (select_child b y); [discriminate|].
      destruct (alter_first _ _ l); [discriminate|]. rewrite (IH eq_refl).
      reflexivity. }
    rewrite Hnone. reflexivity.
Qed.

(** X12: removing the helper from what the clone function returns gives
    the tree in which just the two properties were written that the
    function writes in any case, ["#bus-cells"] of the controller and
    ["reg"] of its first child: the helper leaves nothing behind. *)
Lemma clone_helper_leaves_no_trace (fdt fdt' : fdt_blob) (helper : path) :
  zynq7000_qspi_flash_node_clone fdt = Done (fdt', Some helper) ->
  exists qspi child,
    qemu_devtree_node_by_compatible fdt "xlnx,zynq-qspi-1.0" = Some qspi
    /\ fdt_root (fdt_del_node fdt' helper) =
       fdt_root (fdt_setprop (fdt_setprop fdt qspi "#bus-cells" (cell_value 1))
                   child "reg" (cells_value [0; 0])).
Proof.
  unfold zynq7000_qspi_flash_node_clone.
  destruct (qemu_devtree_node_by_compatible fdt _) as [q|]; [|discriminate].
  set (fdt1 := fdt_setprop fdt q "#bus-cells" _).
  destruct (qemu_devtree_get_children fdt1 q) as [|c0 cs]; [discriminate|].
  set (fdt2 := fdt_setprop fdt1 c0 "reg" _).
  destruct (qemu_fdt_getprop fdt1 c0 "compatible") as [bytes|]; [|discriminate].
  destruct (_ =? 1); [|discriminate].
  intros H. apply bind_Done in H as (fdt3 & H3 & H).
  apply bind_Done in H as (fdt4 & H4 & H). injection H as <- <-.
  exists q, c0. split; [reflexivity|].
  unfold qemu_fdt_add_subnode in H3.
  destruct (tree_add_subnode _ _) as [t3|] eqn:Hadd; [|discriminate].
  injection H3 as <-.
  unfold qemu_fdt_setprop_string, qemu_fdt_setprop in H4.
  cbn [blob_step fdt_root] in H4.
  destruct (tree_setprop t3 _ _ _) as [t4|] eqn:Hset4; [|discriminate].
  injection H4 as <-.
  assert (Hdel4 : tree_del_node t4 (q ++ [QSPI_DUMMY_NAME]) = Some (fdt_root fdt2)).
  { rewrite (tree_setprop_then_del _ _ _ _ _ _ Hset4).
    exact (tree_add_then_del _ _ _ _ Hadd). }
  match goal with
  | |- fdt_root (fdt_del_node ?f5 _) = _ =>
      assert (Hdel5 : tree_del_node (fdt_root f5) (q ++ [QSPI_DUMMY_NAME])
                      = Some (fdt_root fdt2))
  end.
  { unfold fdt_setprop at 1. cbn [blob_step fdt_root].
    destruct (tree_setprop t4 _ _ _) as [t5|] eqn:Hset5; cbn [from_option id].
    - rewrite (tree_setprop_then_del _ _ _ _ _ _ Hset5). exact Hdel4.
    - exact Hdel4. }
  unfold fdt_del_node at 1. cbn [blob_step fdt_root]. rewrite Hdel5.
  reflexivity.
Qed.

(** The same through the whole init: a description whose RAM bank ends at
    3 GiB, above the 2 GiB ceiling, and a request of 4 GiB.  The high
    region is made 2 GiB large and a low region of [2^64 - 1 GiB] bytes is
    asked for at 3 GiB. *)
Example zynqmp_run_above_ceiling :
  match sample_zynqmp_run (3 * GiB) (4 * GiB) with
  | Done (_, w) =>
      w_map w =
        [ MapRam (RegionOfNode ["memory@0"%string])
            {| rr_name := "ddr-ram-high"; rr_size := 2 * GiB;
               rr_offset := 0x800000000 |};
          MapRam (RegionOfNode ["memory@0"%string])
            {| rr_name := "ddr-ram-low"; rr_size := 2 ^ 64 - 1 * GiB;
               rr_offset := 3 * GiB |} ]
  | _ => False
  end.
Proof. vm_compute. reflexivity. Qed.

(** ** The nodes of the tree, properties aside *)

Lemma shape_select (s : string) (n : fdt_node) :
  select_child s (node_shape n) = select_child s n.
Proof. destruct n. reflexivity. Qed.

Lemma shape_children (n : fdt_node) :
  node_children (node_shape n) = List.map node_shape (node_children n).
Proof. destruct n. reflexivity. Qed.

Lemma shape_with_children (n : fdt_node) (cs : list fdt_node) :
  node_shape (with_children n cs) = with_children (node_shape n) (List.map node_shape cs).
Proof. destruct n. reflexivity. Qed.

Lemma shape_find (s : string) (l : list fdt_node) :
  List.find (select_child s) (List.map node_shape l)
  = node_shape <$> List.find (select_child s) l.
Proof.
  induction l as [|x l IH]; cbn [List.map List.find]; [reflexivity|].
  rewrite shape_select. destruct (select_child s x); [reflexivity|exact IH].
Qed.

Lemma shape_alter_first (s : string) (f f' : fdt_node -> option fdt_node)
    (l : list fdt_node) :
  (forall x, f' (node_shape x) = node_shape <$> f x) ->
  alter_first (select_child s) f' (List.map node_shape l)
  = List.map node_shape <$> alter_first (select_child s) f l.
Proof.
  intros Hf. induction l as [|x l IH]; cbn [List.map alter_first]; [reflexivity|].
  rewrite shape_select. destruct (select_child s x).
  - rewrite Hf. destruct (f x); reflexivity.
  - rewrite IH. destruct (alter_first _ f l); reflexivity.
Qed.

Lemma shape_remove_first (s : string) (l : list fdt_node) :
  remove_first (select_child s) (List.map node_shape l)
  = List.map node_shape <$> remove_first (select_child s) l.
Proof.
  induction l as [|x l IH]; cbn [List.map remove_first]; [reflexivity|].
  rewrite shape_select. destruct (select_child s x); [reflexivity|].
  rewrite IH. destruct (remove_first _ l); reflexivity.
Qed.

(** An operation on nodes that has a counterpart on shapes acts on the
    shape of the tree as it acts on the tree. *)
Lemma shape_fdt_alter (f f' : fdt_node -> option fdt_node) (p : path)
    (t : fdt_node) :
  (forall x, f' (node_shape x) = node_shape <$> f x) ->
  fdt_alter f' p (node_shape t) = node_shape <$> fdt_alter f p t.
Proof.
  intros Hf. revert t. induction p as [|s p IH]; intros t; cbn [fdt_alter].
  - apply Hf.
  - rewrite shape_children, (shape_alter_first s _ _ _ IH).
    destruct (alter_first _ _ (node_children t)) as [cs|];
      cbn [fmap option_fmap option_map mbind option_bind]; [|reflexivity].
    rewrite shape_with_children. reflexivity.
Qed.

Lemma shape_add_first_child (b : string) (n : fdt_node) :
  add_first_child b (node_shape n) = node_shape <$> add_first_child b n.
Proof.
  unfold add_first_child. rewrite shape_children, shape_find.
  destruct (List.find _ (node_children n));
    cbn [fmap option_fmap option_map]; [reflexivity|].
  rewrite shape_with_children. reflexivity.
Qed.

Lemma shape_remove_child (b : string) (n : fdt_node) :
  remove_child b (node_shape n) = node_shape <$> remove_child b n.
Proof.
  unfold remove_child. rewrite shape_children, shape_remove_first.
  destruct (remove_first _ (node_children n));
    cbn [fmap option_fmap option_map mbind option_bind]; [|reflexivity].
  rewrite shape_with_children. reflexivity.
Qed.

Lemma shape_tree_add_subnode (t : fdt_node) (p : path) :
  tree_add_subnode (node_shape t) p = node_shape <$> tree_add_subnode t p.
Proof.
  unfold tree_add_subnode. destruct (path_split p) as [[d b]|]; [|reflexivity].
  cbn. apply shape_fdt_alter, shape_add_first_child.
Qed.

Lemma shape_tree_del_node (t : fdt_node) (p : path) :
  tree_del_node (node_shape t) p = node_shape <$> tree_del_node t p.
Proof.
  unfold tree_del_node. destruct (path_split p) as [[d b]|]; [|reflexivity].
  cbn. apply shape_fdt_alter, shape_remove_child.
Qed.

Lemma shape_tree_setprop (t t' : fdt_node) (p : path) (name value : string) :
  tree_setprop t p name value = Some t' -> node_shape t' = node_shape t.
Proof.
  intros H.
  assert (Hid : fdt_alter (fun n => Some n) p (node_shape t) = Some (node_shape t')).
  { rewrite (shape_fdt_alter (fun n => Some (set_prop name value n))).
    - unfold tree_setprop in H. rewrite H. reflexivity.
    - intros x. destruct x. reflexivity. }
  apply (fdt_alter_id _ _ _ _ (fun n n' (Hn : Some n = Some n') =>
                                 eq_sym (f_equal (default n) Hn)) Hid).
Qed.

Lemma same_shape_refl (fdt : fdt_blob) : same_shape fdt fdt.
Proof. reflexivity. Qed.

Lemma same_shape_trans (fdt1 fdt2 fdt3 : fdt_blob) :
  same_shape fdt1 fdt2 -> same_shape fdt2 fdt3 -> same_shape fdt1 fdt3.
Proof. unfold same_shape. congruence. Qed.

Lemma fdt_setprop_shape (fdt : fdt_blob) (p : path) (name value : string) :
  same_shape fdt (fdt_setprop fdt p name value).
Proof.
  unfold same_shape, fdt_setprop. cbn [blob_step fdt_root].
  destruct (tree_setprop _ _ _ _) eqn:H; cbn; [|reflexivity].
  exact (shape_tree_setprop _ _ _ _ _ H).
Qed.

Lemma qemu_fdt_setprop_shape (fdt fdt' : fdt_blob) (p : path)
    (name value : string) :
  qemu_fdt_setprop fdt p name value = Done fdt' -> same_shape fdt fdt'.
Proof.
  unfold qemu_fdt_setprop.
  destruct (tree_setprop _ _ _ _) eqn:H; [|discriminate]. intros [= <-].
  exact (shape_tree_setprop _ _ _ _ _ H).
Qed.

Lemma zynq7000_usb_nuke_phy_shape (fdt fdt' : fdt_blob) :
  zynq7000_usb_nuke_phy fdt = Done fdt' -> same_shape fdt fdt'.
Proof.
  unfold zynq7000_usb_nuke_phy.
  destruct (qemu_devtree_node_by_compatible _ _).
  - apply qemu_fdt_setprop_shape.
  - intros [= <-]. apply same_shape_refl.
Qed.

Lemma zynq7000_disable_gic_shape (fdt fdt' : fdt_blob) :
  zynq7000_disable_gic fdt = Done fdt' -> same_shape fdt fdt'.
Proof.
  unfold zynq7000_disable_gic.
  destruct (qemu_devtree_get_node_by_name _ _).
  - apply qemu_fdt_setprop_shape.
  - intros [= <-]. apply same_shape_refl.
Qed.

Lemma zynq7000_set_reset_cbar_shape (cpus : list path) (fdt fdt' : fdt_blob) :
  zynq7000_set_reset_cbar fdt cpus = Done fdt' -> same_shape fdt fdt'.
Proof.
  revert fdt. induction cpus as [|p cpus IH]; intros fdt H;
    cbn [zynq7000_set_reset_cbar] in H.
  - injection H as <-. apply same_shape_refl.
  - apply bind_Done in H as (fdt1 & H1 & H).
    exact (same_shape_trans _ _ _ (qemu_fdt_setprop_shape _ _ _ _ _ H1) (IH _ H)).
Qed.

Lemma mark_memory_node_shape (fdt fdt' : fdt_blob) :
  mark_memory_node fdt = Done fdt' -> same_shape fdt fdt'.
Proof.
  unfold mark_memory_node. destruct (qemu_fdt_getprop _ _ _).
  - intros [= <-]. apply same_shape_refl.
  - intros H. apply bind_Done in H as (fdt1 & H1 & H).
    exact (same_shape_trans _ _ _ (qemu_fdt_setprop_shape _ _ _ _ _ H1)
             (qemu_fdt_setprop_shape _ _ _ _ _ H)).
Qed.

(** On shapes the clone function is the addition of the helper, or
    nothing. *)
Lemma zynq7000_qspi_flash_node_clone_shape (fdt fdt' : fdt_blob)
    (r : option path) :
  zynq7000_qspi_flash_node_clone fdt = Done (fdt', r) ->
  match r with
  | None => same_shape fdt fdt'
  | Some helper =>
      tree_add_subnode (node_shape (fdt_root fdt)) helper
      = Some (node_shape (fdt_root fdt'))
  end.
Proof.
  unfold zynq7000_qspi_flash_node_clone.
  destruct (qemu_devtree_node_by_compatible fdt _) as [q|].
  2:{ intros [= <- <-]. apply same_shape_refl. }
  set (fdt1 := fdt_setprop fdt q "#bus-cells" _).
  assert (S1 : same_shape fdt fdt1) by apply fdt_setprop_shape.
  destruct (qemu_devtree_get_children fdt1 q) as [|c0 cs].
  { intros [= <- <-]. exact S1. }
  set (fdt2 := fdt_setprop fdt1 c0 "reg" _).
  assert (S2 : same_shape fdt fdt2).
  { apply (same_shape_trans _ _ _ S1), fdt_setprop_shape. }
  destruct (qemu_fdt_getprop fdt1 c0 "compatible") as [bytes|].
  2:{ intros [= <- <-]. exact S2. }
  destruct (_ =? 1).
  2:{ intros [= <- <-]. exact S2. }
  intros H. apply bind_Done in H as (fdt3 & H3 & H).
  apply bind_Done in H as (fdt4 & H4 & H). injection H as <- <-.
  unfold qemu_fdt_add_subnode in H3.
  destruct (tree_add_subnode _ _) as [t3|] eqn:Hadd; [|discriminate].
  injection H3 as <-.
  pose proof (same_shape_trans _ _ _ (qemu_fdt_setprop_shape _ _ _ _ _ H4)
                (fdt_setprop_shape fdt4 (q ++ [QSPI_DUMMY_NAME]) "reg"
                   (cells_value [0; 1]))) as S5.
  unfold same_shape in S5, S2.
  rewrite <- S2, shape_tree_add_subnode, Hadd. cbn [fmap option_fmap option_map].
  f_equal. symmetry. exact S5.
Qed.

Lemma find_or_add_memory_node_shape (fdt fdt' : fdt_blob) (ram_size : Z)
    (node_path : path) :
  find_or_add_memory_node fdt ram_size = Done (fdt', node_path) ->
  same_shape fdt fdt' \/
  (qemu_devtree_get_node_by_name fdt "memory" = None /\
   node_shape (fdt_root fdt') = with_memory_node (node_shape (fdt_root fdt))).
Proof.
  intros H.
  destruct (find_or_add_memory_node_spec _ _ _ _ H)
    as [->|(Hnone & fa & Hadd & _ & _)]; [left; apply same_shape_refl|].
  right. split; [exact Hnone|].
  unfold find_or_add_memory_node in H. rewrite Hnone in H.
  apply bind_Done in H as (fa' & Ha & H).
  apply bind_Done in H as (fb & Hb & H).
  destruct (qemu_devtree_get_node_by_name fb _).
  2:{ apply bind_Done in H as (fc & _ & H). discriminate. }
  injection H as <- _.
  rewrite (qemu_fdt_setprop_shape _ _ _ _ _ Hb).
  unfold qemu_fdt_add_subnode in Ha.
  destruct (tree_add_subnode _ _) as [ta|] eqn:Hta; [|discriminate].
  injection Ha as <-. cbn [blob_step fdt_root].
  unfold tree_add_subnode in Hta. cbn in Hta. unfold add_first_child in Hta.
  destruct (List.find _ _); [discriminate|]. injection Hta as <-.
  unfold with_memory_node. rewrite shape_with_children, shape_children.
  reflexivity.
Qed.

(** ** The nodes of the tree after the machine init *)

Lemma shape_with_memory_node (t : fdt_node) :
  node_shape (with_memory_node t) = with_memory_node (node_shape t).
Proof.
  unfold with_memory_node. rewrite shape_with_children, shape_children.
  reflexivity.
Qed.

(** Deleting below another child of the root is not disturbed by the
    memory node in front. *)
Lemma del_below_memory_node (S A : fdt_node) (c : string) (rest : path)
    (b : string) :
  fdt_nodename_eq "memory@0" c = false ->
  tree_del_node S ((c :: rest) ++ [b]) = Some A ->
  tree_del_node (with_memory_node S) ((c :: rest) ++ [b])
  = Some (with_memory_node A).
Proof.
  intros Hc. unfold tree_del_node. rewrite path_split_snoc.
  cbn [mbind option_bind fdt_alter].
  unfold with_memory_node. cbn [with_children node_children alter_first].
  unfold select_child at 2. cbn [node_name]. rewrite Hc.
  destruct (alter_first _ _ (node_children S)) as [cs|]; [|discriminate].
  cbn. intros [= <-]. reflexivity.
Qed.

(** What the init leaves behind has the nodes of the loaded tree, with
    ["/memory@0"] in front when no memory node was there. *)
Lemma init_keeps_nodes (host target : bool) (C H : Z)
    (load : string -> option (fdt_node * Z)) (create : fdt_node -> machine_objects)
    (machine : MachineState) (w : world) (fdt' : fdt_blob) (w' : world)
    (root : fdt_node) :
  hw_description load machine = Some root ->
  arm_generic_fdt_init host target C H load create machine w = Done (fdt', w') ->
  node_shape (fdt_root fdt') = node_shape root
  \/ node_shape (fdt_root fdt') = node_shape (with_memory_node root).
Proof.
  intros Hdesc Hrun.
  destruct (arm_generic_fdt_init_Done _ _ _ _ _ _ _ _ _ _ Hrun)
    as (root' & sw & fdt1 & clone & fdt2 & node_path & fdt3 & mem_area & w1
        & Hdesc' & Hpatch & Hmem & Hmark & _ & _ & _ & Husb & _).
  rewrite Hdesc in Hdesc'. injection Hdesc' as <-. cbv zeta in Husb.
  set (fdt0 := {| fdt_root := root; fdt_history := [] |}) in *.
  rewrite shape_with_memory_node.
  pose proof (mark_memory_node_shape _ _ Hmark) as S23. unfold same_shape in S23.
  (* the end of the run, from the shape at the deletion *)
  assert (Hend : forall fdt4,
             (if machine_is_zynq_7000 machine
              then zynq7000_usb_nuke_phy fdt4 else Done fdt4) = Done fdt' ->
             node_shape (fdt_root fdt') = node_shape (fdt_root fdt4)).
  { intros fdt4 H4. destruct (machine_is_zynq_7000 machine).
    - exact (zynq7000_usb_nuke_phy_shape _ _ H4).
    - injection H4 as <-. reflexivity. }
  (* the memory phase on shapes *)
  assert (Hmem3 : node_shape (fdt_root fdt3) = node_shape (fdt_root fdt1)
                  \/ (qemu_devtree_get_node_by_name fdt1 "memory" = None /\
                      node_shape (fdt_root fdt3)
                      = with_memory_node (node_shape (fdt_root fdt1)))).
  { rewrite S23.
    destruct (find_or_add_memory_node_shape _ _ _ _ Hmem) as [Hs|Hs]; auto. }
  assert (Hnone : forall S1,
             node_shape (fdt_root fdt1) = S1 ->
             remove_cloned_node (blob_step fdt3 (fdt_root fdt3) OpCreateMachine) None
             = blob_step fdt3 (fdt_root fdt3) OpCreateMachine ->
             node_shape (fdt_root fdt3) = S1
             \/ node_shape (fdt_root fdt3) = with_memory_node S1).
  { intros S1 <- _. destruct Hmem3 as [->|[_ ->]]; auto. }
  destruct (machine_is_zynq_7000 machine) eqn:Hz.
  2:{ injection Hpatch as <- <-. rewrite (Hend _ Husb).
      exact (Hnone _ eq_refl eq_refl). }
  unfold zynq7000_patches in Hpatch.
  apply bind_Done in Hpatch as ([fx rx] & Hclone & Hpatch).
  apply bind_Done in Hpatch as (fy & Hgic & Hpatch).
  apply bind_Done in Hpatch as (fz & Hcbar & Hpatch).
  injection Hpatch as <- <-.
  pose proof (same_shape_trans _ _ _ (zynq7000_disable_gic_shape _ _ Hgic)
                (zynq7000_set_reset_cbar_shape _ _ _ Hcbar)) as Sxz.
  unfold same_shape in Sxz.
  pose proof (zynq7000_qspi_flash_node_clone_shape _ _ _ Hclone) as Hshape.
  destruct (zynq7000_qspi_flash_node_clone_spec _ _ _ Hclone) as [_ Hspec].
  rewrite (Hend _ Husb).
  destruct rx as [helper|].
  2:{ apply (Hnone _ (eq_trans Sxz Hshape) eq_refl). }
  destruct Hspec as (q & fa & fb & Hq & -> & Wa & Hadd & _ & Wb).
  destruct (node_by_compatible_head _ _ _ Hq) as (c & rest & -> & Hc).
  cbn [fdt_root fdt0] in Hshape. rewrite <- Sxz in Hshape.
  pose proof (tree_add_then_del _ _ _ _ Hshape) as Hdel1.
  assert (Hc1 : In c (child_names (fdt_root fz))).
  { rewrite (same_names_child_names _ _
               (proj1 (writes_props_trans _ _ _ Wb
                         (writes_props_trans _ _ _
                            (zynq7000_disable_gic_writes _ _ Hgic)
                            (zynq7000_set_reset_cbar_writes _ _ _ Hcbar))))).
    rewrite (tree_add_subnode_child_names _ _ _ _ _ Hadd).
    rewrite (same_names_child_names _ _ (proj1 Wa)). exact Hc. }
  assert (Hdel3 : exists X,
             tree_del_node (node_shape (fdt_root fdt3))
               ((c :: rest) ++ [QSPI_DUMMY_NAME]) = Some X
             /\ (X = node_shape root \/ X = with_memory_node (node_shape root))).
  { destruct Hmem3 as [->|[Hnomem ->]].
    - exists (node_shape root). auto.
    - exists (with_memory_node (node_shape root)). split; [|auto].
      apply del_below_memory_node; [|exact Hdel1].
      apply memory_node_not_selected.
      exact (get_node_by_name_None_root _ _ _ Hnomem Hc1). }
  destruct Hdel3 as (X & Hdel3 & HX).
  rewrite shape_tree_del_node in Hdel3.
  cbn [remove_cloned_node]. unfold fdt_del_node. cbn [blob_step fdt_root].
  destruct (tree_del_node (fdt_root fdt3) _) as [t4|]; [|discriminate].
  injection Hdel3 as <-. exact HX.
Qed.

(** C6: in every run of the machine init that returns, if the flash helper
    node is called for (a Zynq-7000 machine whose description has a
    zynq-qspi controller with a first child that has a compatible property
    and with is-dual equal to 1), the helper is added before the
    instantiation pass, no node is deleted before that pass, exactly one
    deletion is made after it, that of the helper, and the helper's path
    no longer resolves in the tree the init leaves behind.  If the helper
    is not called for, no deletion is made at all.  Either way the tree
    left behind has the very nodes of the loaded tree (with ["/memory@0"]
    in front when no memory node was there): what differs is properties
    only. *)
Theorem qspi_helper_removed_once (host target : bool) (C H : Z)
    (load : string -> option (fdt_node * Z)) (create : fdt_node -> machine_objects)
    (machine : MachineState) (w : world) (fdt' : fdt_blob) (w' : world)
    (root : fdt_node) :
  hw_description load machine = Some root ->
  arm_generic_fdt_init host target C H load create machine w = Done (fdt', w') ->
  match (if machine_is_zynq_7000 machine
         then qspi_helper_wanted {| fdt_root := root; fdt_history := [] |}
         else None) with
  | Some helper =>
      exists before after,
        fdt_history fdt' = before ++ OpCreateMachine :: after
        /\ In (OpAddSubnode helper) before
        /\ deletions before = []
        /\ deletions after = [OpDelNode helper]
        /\ fdt_path_offset (fdt_root fdt') helper = None
  | None => deletions (fdt_history fdt') = []
  end
  /\ (node_shape (fdt_root fdt') = node_shape root
      \/ node_shape (fdt_root fdt') = node_shape (with_memory_node root)).
Proof.
  intros Hdesc Hrun. split.
  - exact (qspi_helper_added_and_deleted _ _ _ _ _ _ _ _ _ _ _ Hdesc Hrun).
  - exact (init_keeps_nodes _ _ _ _ _ _ _ _ _ _ _ Hdesc Hrun).
Qed.

(** The test machine in dual mode: the helper is added, the pass runs,
    the helper is deleted, its path is gone, and the nodes are those of
    the test tree. *)
Lemma qspi_helper_removed_once_witness :
  (exists before after,
     fdt_history (sample_result 1 2 None).1 = before ++ OpCreateMachine :: after
     /\ In (OpAddSubnode sample_helper_path) before
     /\ deletions before = []
     /\ deletions after = [OpDelNode sample_helper_path]
     /\ fdt_path_offset (fdt_root (sample_result 1 2 None).1) sample_helper_path
        = None)
  /\ (node_shape (fdt_root (sample_result 1 2 None).1) = node_shape (sample_tree 1)
      \/ node_shape (fdt_root (sample_result 1 2 None).1)
         = node_shape (with_memory_node (sample_tree 1))).
Proof.
  exact (qspi_helper_removed_once false false (2 * GiB) 0x800000000
           (sample_load 1) (sample_create 2) (sample_machine None)
           (world_at_start (512 * MiB))
           (sample_result 1 2 None).1 (sample_result 1 2 None).2
           (sample_tree 1)
           ltac:(reflexivity) ltac:(vm_compute; reflexivity)).
Defined.

(* ===================================================================== *)
(** * Part III: further properties of the code *)
(* ===================================================================== *)

(** ** The legacy board: windows, interrupt lines, NICs *)

Lemma nic_calls_beyond (f : nat -> list board_call) (start len : nat) :
  (forall n, (start <= n)%nat -> f n = []) ->
  flat_map f (seq start len) = [].
Proof.
  revert start. induction len as [|len IH]; intros start H; cbn [seq flat_map].
  - reflexivity.
  - rewrite (H start) by lia. rewrite IH; [reflexivity|].
    intros n Hn. apply H. lia.
Qed.

Lemma nic_calls_cases (nb_nics : nat) :
  flat_map (fun n : nat =>
              if (n =? 0)%nat then gem_init n 0xE000B000 (Pic (54 - IRQ_OFFSET))
              else if (n =? 1)%nat then gem_init n 0xE000C000 (Pic (77 - IRQ_OFFSET))
              else [])
           (seq 0 nb_nics) =
  match nb_nics with
  | O => []
  | S O => gem_init 0 0xE000B000 (Pic (54 - IRQ_OFFSET))
  | S (S _) => gem_init 0 0xE000B000 (Pic (54 - IRQ_OFFSET))
               ++ gem_init 1 0xE000C000 (Pic (77 - IRQ_OFFSET))
  end.
Proof.
  destruct nb_nics as [|[|k]]; [reflexivity|reflexivity|].
  cbn [seq flat_map Nat.eqb].
  rewrite nic_calls_beyond; [rewrite app_nil_r; reflexivity|].
  intros n Hn. destruct n as [|[|n]]; [lia|lia|reflexivity].
Qed.

Ltac zynq_init_cases H args nb_nics :=
  unfold zynq_init in H;
  destruct (negb _); [discriminate|];
  injection H as <-; cbn [lb_calls lb_binfo lb_stderr];
  rewrite nic_calls_cases;
  let Hclamp := fresh "Hclamp" in
  assert (Hclamp : (if 0x80000000 <? args_ram_size args
                    then 0x80000000 else args_ram_size args) <= 0x80000000)
    by (destruct (Z.ltb_spec 0x80000000 (args_ram_size args)); lia);
  revert Hclamp;
  generalize (if 0x80000000 <? args_ram_size args
              then 0x80000000 else args_ram_size args);
  generalize (match args_cpu_model args with
              | Some m => m
              | None => "cortex-a9"%string
              end);
  intros cpu_model ram_size Hclamp;
  destruct nb_nics as [|[|?]].

Ltac compute_in_goal f :=
  match goal with
  | |- context [f ?l] =>
      let v := eval vm_compute in (f l) in change (f l) with v
  end.

(** X1: on the legacy board the DDR never reaches a device.  Whatever RAM
    size is requested and however many NICs are configured, the region
    ["zynq.ext_ram"] placed at 0 is at most 0x80000000 bytes long, every
    other window (on-chip memory, flash, each device's registers) starts
    at or above 0xE0000000, and no two of those windows start at the same
    address. *)
Theorem zynq_init_ram_below_devices (cpu_arm_init : string -> bool)
    (nb_nics : nat) (args : QEMUMachineInitArgs) (b : legacy_board) :
  zynq_init cpu_arm_init nb_nics args = Done b ->
  NoDup (device_bases (lb_calls b))
  /\ forall size base,
       In size (ram_inits "zynq.ext_ram" (lb_calls b)) ->
       In base (device_bases (lb_calls b)) ->
       size <= 0x80000000 /\ 0xE0000000 <= base.
Proof.
  intros H. zynq_init_cases H args nb_nics.
  all: compute_in_goal device_bases.
  all: compute_in_goal (ram_inits "zynq.ext_ram").
  all: (split; [apply (bool_decide_unpack _); vm_compute; exact I|]).
  all: intros size base [<-|[]] Hbase; split; [exact Hclamp|].
  all: cbn [In] in Hbase; repeat (destruct Hbase as [<-|Hbase]; [lia|]);
       destruct Hbase.
Qed.

(** X2: every interrupt line the legacy board hands to a device is one of
    the 64 inputs [pic[0..63]] of the interrupt controller (the index is
    the interrupt number less [IRQ_OFFSET]), and no input is handed to two
    devices. *)
Theorem zynq_init_irqs_in_bounds (cpu_arm_init : string -> bool)
    (nb_nics : nat) (args : QEMUMachineInitArgs) (b : legacy_board) :
  zynq_init cpu_arm_init nb_nics args = Done b ->
  NoDup (pic_inputs (lb_calls b))
  /\ Forall (fun n => 0 <= n < 64) (pic_inputs (lb_calls b)).
Proof.
  intros H. zynq_init_cases H args nb_nics.
  all: compute_in_goal pic_inputs.
  all: (split; [apply (bool_decide_unpack _); vm_compute; exact I|]).
  all: repeat (constructor; [lia|]); constructor.
Qed.

(** X3: the legacy board wires at most two NICs.  With [nb_nics]
    configured, the first [min nb_nics 2] entries of the NIC table get one
    cadence_gem each, in order; entries from the third on are passed over
    without a diagnostic. *)
Theorem zynq_init_two_nics_at_most (cpu_arm_init : string -> bool)
    (nb_nics : nat) (args : QEMUMachineInitArgs) (b : legacy_board) :
  zynq_init cpu_arm_init nb_nics args = Done b ->
  created "cadence_gem" (lb_calls b) = Nat.min nb_nics 2
  /\ nics_used (lb_calls b) = seq 0 (Nat.min nb_nics 2).
Proof.
  intros H. zynq_init_cases H args nb_nics.
  all: try replace (Nat.min (S (S _)) 2) with 2%nat by lia.
  all: split; vm_compute; reflexivity.
Qed.

(** X4: [zynq_init] calls the kernel loader exactly once and as its last
    call, after every device has been created; the boot descriptor it
    hands over counts one CPU, the number also given to the a9mpcore as
    ["num-cpu"]. *)
Theorem zynq_init_loads_kernel_last (cpu_arm_init : string -> bool)
    (nb_nics : nat) (args : QEMUMachineInitArgs) (b : legacy_board) :
  zynq_init cpu_arm_init nb_nics args = Done b ->
  last (lb_calls b) = Some ArmLoadKernel
  /\ length (List.filter is_arm_load_kernel (lb_calls b)) = 1%nat
  /\ bi_nb_cpus (lb_binfo b) = 1
  /\ In (QdevPropSetUint "num-cpu" 1) (lb_calls b).
Proof.
  intros H. zynq_init_cases H args nb_nics.
  all: split; [vm_compute; reflexivity|].
  all: split; [vm_compute; reflexivity|].
  all: split; [reflexivity|].
  all: cbn [app In]; auto 20.
Qed.

(** ** Byte order of the secondary boot code *)

Lemma testbit_255 (i : Z) : Z.testbit 255 i = (0 <=? i) && (i <? 8).
Proof.
  change 255 with (Z.ones 8).
  destruct (Z.leb_spec 0 i).
  - rewrite Z.testbit_ones_nonneg by lia. reflexivity.
  - rewrite Z.testbit_neg_r by lia. reflexivity.
Qed.

Ltac bits i :=
  repeat first
    [ rewrite Z.lor_spec | rewrite Z.land_spec | rewrite testbit_255
    | rewrite Z.shiftr_spec by lia | rewrite Z.shiftl_spec by lia ].

Lemma byte_of_bswap32 (x : Z) (k : Z) :
  0 <= k < 4 ->
  Z.land (Z.shiftr (bswap32 x) (8 * k)) 255 = Z.land (Z.shiftr x (8 * (3 - k))) 255.
Proof.
  intros Hk. apply Z.bits_inj'. intros i Hi. unfold bswap32.
  bits i.
  destruct (Z.ltb_spec i 8); cbn [andb]; rewrite ?andb_false_r; [|reflexivity].
  destruct (Z.leb_spec 0 i); [|lia]. cbn [andb]. rewrite !andb_true_r.
  assert (k = 0 \/ k = 1 \/ k = 2 \/ k = 3) as [-> | [-> | [-> | ->]]] by lia.
  all: repeat match goal with
         | |- context [Z.testbit ?a ?j] =>
             progress (ring_simplify j)
         end.
  all: repeat match goal with
         | |- context [(?a <? 8)] =>
             first [ rewrite (proj2 (Z.ltb_lt a 8)) by lia
                   | rewrite (proj2 (Z.ltb_ge a 8)) by lia ]
         | |- context [(0 <=? ?a)] =>
             first [ rewrite (proj2 (Z.leb_le 0 a)) by lia
                   | rewrite (proj2 (Z.leb_gt 0 a)) by lia ]
         end.
  all: cbn [andb orb]; rewrite ?andb_false_r, ?andb_true_r, ?orb_false_r, ?orb_false_l.
  all: rewrite ?Z.shiftr_spec by lia; f_equal; lia.
Qed.

Lemma le_bytes32_bswap32 (x : Z) : le_bytes32 (bswap32 x) = be_bytes32 x.
Proof.
  unfold be_bytes32, le_bytes32. cbn [rev app].
  pose proof (byte_of_bswap32 x 0 ltac:(lia)) as H0.
  pose proof (byte_of_bswap32 x 1 ltac:(lia)) as H1.
  pose proof (byte_of_bswap32 x 2 ltac:(lia)) as H2.
  pose proof (byte_of_bswap32 x 3 ltac:(lia)) as H3.
  change (8 * 0) with 0 in H0. change (8 * (3 - 0)) with 24 in H0.
  change (8 * 1) with 8 in H1. change (8 * (3 - 1)) with 16 in H1.
  change (8 * 2) with 16 in H2. change (8 * (3 - 2)) with 8 in H2.
  change (8 * 3) with 24 in H3. change (8 * (3 - 3)) with 0 in H3.
  rewrite Z.shiftr_0_r in H0, H3.
  rewrite H0, H1, H2, H3. reflexivity.
Qed.

Lemma be_bytes32_bswap32 (x : Z) : be_bytes32 (bswap32 x) = le_bytes32 x.
Proof.
  unfold be_bytes32. rewrite le_bytes32_bswap32. unfold be_bytes32.
  apply rev_involutive.
Qed.

(** A word swapped for the target lies in host memory the way the plain
    word lies in target memory. *)
Lemma mem_bytes32_tswap32 (host target : bool) (x : Z) :
  mem_bytes32 host (tswap32 host target x) = mem_bytes32 target x.
Proof.
  unfold tswap32, mem_bytes32.
  destruct host, target; cbn [Bool.eqb];
    auto using le_bytes32_bswap32, be_bytes32_bswap32.
Qed.

Ltac decide_comparisons :=
  repeat match goal with
    | |- context [(?a <? ?b)] =>
        first [ rewrite (proj2 (Z.ltb_lt a b)) by lia
              | rewrite (proj2 (Z.ltb_ge a b)) by lia ]
    | |- context [(?a <=? ?b)] =>
        first [ rewrite (proj2 (Z.leb_le a b)) by lia
              | rewrite (proj2 (Z.leb_gt a b)) by lia ]
    end;
  cbn [andb orb];
  rewrite ?andb_false_r, ?andb_true_r, ?orb_false_r, ?orb_false_l.

Lemma bswap32_involutive (x : Z) : 0 <= x < 2 ^ 32 -> bswap32 (bswap32 x) = x.
Proof.
  intros Hx. apply Z.bits_inj'. intros i Hi.
  destruct (Z.ltb_spec i 32) as [Hlt|Hge].
  - assert (i < 8 \/ 8 <= i < 16 \/ 16 <= i < 24 \/ 24 <= i) as [H | [H | [H | H]]]
      by lia.
    all: unfold bswap32 at 1; bits i; decide_comparisons.
    all: unfold bswap32; bits i; decide_comparisons.
    all: rewrite ?Z.shiftr_spec by lia.
    all: f_equal; clear Hx; lia.
  - unfold bswap32 at 1. bits i. decide_comparisons.
    symmetry. apply Z.bits_above_log2; [lia|].
    destruct (Z.eq_dec x 0) as [->|Hnz]; [cbn; lia|].
    apply Z.log2_lt_pow2; [lia|].
    apply Z.lt_le_trans with (2 ^ 32); [lia|].
    apply Z.pow_le_mono_r; lia.
Qed.

Lemma tswap32_involutive (host target : bool) (x : Z) :
  0 <= x < 2 ^ 32 -> tswap32 host target (tswap32 host target x) = x.
Proof.
  intros Hx. unfold tswap32. destruct (Bool.eqb host target); [reflexivity|].
  apply bswap32_involutive, Hx.
Qed.

(** X5: whatever the static array [zynq_smpboot] holds when
    [arm_write_secondary_boot] is called, and whatever the byte orders of
    host and target, the call deposits one blob at 0xfffffff0 whose bytes
    are those words in the target's byte order, four bytes a word, and it
    leaves the blobs deposited before in place. *)
Theorem arm_write_secondary_boot_target_order (host target : bool) (w : world) :
  w_roms (arm_write_secondary_boot host target w) =
    w_roms w ++ [{| rom_name := "smpboot";
                    rom_data := flat_map (mem_bytes32 target) (w_smpboot w);
                    rom_addr := 0xfffffff0 |}].
Proof.
  unfold arm_write_secondary_boot. cbn [w_roms]. do 3 f_equal.
  induction (w_smpboot w) as [|x l IH]; [reflexivity|].
  cbn [fmap list_fmap flat_map]. rewrite mem_bytes32_tswap32. f_equal. exact IH.
Qed.

(** X6: the swap in place undoes itself.  After two calls the static array
    holds what it held before (its words being 32 bits wide), so the third
    call deposits the bytes the first call deposited. *)
Theorem arm_write_secondary_boot_twice (host target : bool) (w : world) :
  Forall (fun x => 0 <= x < 2 ^ 32) (w_smpboot w) ->
  let w2 := arm_write_secondary_boot host target
              (arm_write_secondary_boot host target w) in
  w_smpboot w2 = w_smpboot w
  /\ rom_data <$> last_rom (arm_write_secondary_boot host target w2)
     = rom_data <$> last_rom (arm_write_secondary_boot host target w).
Proof.
  intros Hrange.
  assert (Hback : w_smpboot (arm_write_secondary_boot host target
                    (arm_write_secondary_boot host target w)) = w_smpboot w).
  { cbn [arm_write_secondary_boot w_smpboot].
    induction Hrange as [|x l Hx _ IH]; [reflexivity|].
    cbn [fmap list_fmap]. rewrite tswap32_involutive by exact Hx.
    f_equal. exact IH. }
  cbv zeta. split; [exact Hback|].
  rewrite !arm_write_secondary_boot_rom. cbn [fmap option_fmap option_map rom_data].
  rewrite Hback. reflexivity.
Qed.

(** ** Unambiguous names: a path found by a search leads back to the node *)

Lemma select_child_self (c : fdt_node) : select_child (node_name c) c = true.
Proof. apply fdt_nodename_eq_refl. Qed.

Lemma find_first_selected (l : list fdt_node) (c : fdt_node) :
  first_selected l = true -> In c l ->
  List.find (select_child (node_name c)) l = Some c.
Proof.
  induction l as [|x l IH]; cbn [first_selected List.find]; intros Hl Hin.
  - destruct Hin.
  - apply andb_true_iff in Hl as [Hx Hl].
    destruct Hin as [->|Hin].
    + rewrite select_child_self. reflexivity.
    + rewrite forallb_forall in Hx. specialize (Hx c Hin).
      apply negb_true_iff in Hx. rewrite Hx. exact (IH Hl Hin).
Qed.

Lemma unambiguous_children (t c : fdt_node) :
  unambiguous t = true -> In c (node_children t) -> unambiguous c = true.
Proof.
  destruct t as [name props children]. cbn [unambiguous node_children].
  intros H Hin. apply andb_true_iff in H as [_ H].
  rewrite forallb_forall in H. exact (H c Hin).
Qed.

Lemma unambiguous_find (t c : fdt_node) :
  unambiguous t = true -> In c (node_children t) ->
  List.find (select_child (node_name c)) (node_children t) = Some c.
Proof.
  destruct t as [name props children]. cbn [unambiguous node_children].
  intros H Hin. apply andb_true_iff in H as [H _].
  exact (find_first_selected _ _ H Hin).
Qed.

Lemma fdt_subnodes_resolve (t : fdt_node) :
  unambiguous t = true ->
  forall prefix p n,
    In (p, n) (fdt_subnodes prefix t) ->
    exists rest, p = prefix ++ rest /\ fdt_path_offset t rest = Some n.
Proof.
  induction t as [name props children IH] using fdt_node_tree_ind.
  intros Hun prefix p n Hin. cbn [fdt_subnodes node_children] in Hin.
  apply in_flat_map in Hin as (child & Hchild & Hin).
  pose proof (unambiguous_find _ child Hun Hchild) as Hfind.
  pose proof (unambiguous_children _ child Hun Hchild) as Hunc.
  cbn [node_children] in Hfind.
  destruct Hin as [Hin|Hin].
  - injection Hin as <- <-. exists [node_name child]. split; [reflexivity|].
    cbn [fdt_path_offset node_children]. rewrite Hfind. reflexivity.
  - rewrite Forall_forall in IH.
    destruct (IH child (proj2 (list_elem_of_In _ _) Hchild) Hunc _ _ _ Hin)
      as (rest & -> & Hrest).
    exists (node_name child :: rest). rewrite <- app_assoc. split; [reflexivity|].
    cbn [fdt_path_offset node_children]. rewrite Hfind. exact Hrest.
Qed.

Lemma forallb_map_ext {A B} (f : A -> B) (P : B -> bool) (Q : A -> bool)
    (l : list A) :
  Forall (fun x => P (f x) = Q x) l -> forallb P (List.map f l) = forallb Q l.
Proof.
  induction 1 as [|x l Hx _ IH]; cbn [List.map forallb]; [reflexivity|].
  rewrite Hx, IH. reflexivity.
Qed.

Lemma first_selected_shape (l : list fdt_node) :
  first_selected (List.map node_shape l) = first_selected l.
Proof.
  induction l as [|c l IH]; cbn [List.map first_selected]; [reflexivity|].
  rewrite IH. f_equal. apply forallb_map_ext, Forall_forall.
  intros c' _. destruct c, c'. reflexivity.
Qed.

Lemma unambiguous_shape (t : fdt_node) :
  unambiguous (node_shape t) = unambiguous t.
Proof.
  induction t as [name props children IH] using fdt_node_tree_ind.
  cbn [node_shape unambiguous node_children].
  rewrite first_selected_shape. f_equal.
  apply forallb_map_ext, IH.
Qed.

Lemma same_shape_unambiguous (fdt fdt' : fdt_blob) :
  same_shape fdt fdt' ->
  unambiguous (fdt_root fdt') = unambiguous (fdt_root fdt).
Proof.
  unfold same_shape. intros H.
  rewrite <- (unambiguous_shape (fdt_root fdt')), H. apply unambiguous_shape.
Qed.

(** A node found by a search resolves, in an unambiguous tree. *)
Lemma node_by_compatible_resolves (fdt : fdt_blob) (compat : string) (q : path) :
  unambiguous (fdt_root fdt) = true ->
  In q (fdt_nodes_by_compatible fdt compat) ->
  exists n, fdt_path_offset (fdt_root fdt) q = Some n
            /\ fdt_node_check_compatible n compat = true.
Proof.
  intros Hun Hin. unfold fdt_nodes_by_compatible in Hin.
  apply list_elem_of_In, list_elem_of_fmap in Hin as ([p n] & -> & Hin).
  apply list_elem_of_In, filter_In in Hin as [Hin Hc]. cbn [fst snd] in *.
  destruct (fdt_subnodes_resolve _ Hun [] p n Hin) as (rest & -> & Hrest).
  exists n. auto.
Qed.

Lemma node_by_name_resolves (fdt : fdt_blob) (cmpname : string) (q : path) :
  unambiguous (fdt_root fdt) = true ->
  qemu_devtree_get_node_by_name fdt cmpname = Some q ->
  exists n, fdt_path_offset (fdt_root fdt) q = Some n
            /\ devtree_name_eq (node_name n) cmpname = true.
Proof.
  intros Hun H. unfold qemu_devtree_get_node_by_name in H.
  destruct (List.filter _ _) as [|[p n] l] eqn:Hf; [discriminate|].
  injection H as <-.
  assert (Hin : In (p, n) (List.filter
                   (fun pn => devtree_name_eq (node_name pn.2) cmpname)
                   (fdt_subnodes [] (fdt_root fdt)))).
  { rewrite Hf. left. reflexivity. }
  apply filter_In in Hin as [Hin Hc]. cbn [fst snd] in *.
  destruct (fdt_subnodes_resolve _ Hun [] p n Hin) as (rest & -> & Hrest).
  exists n. auto.
Qed.

(** ** What a property write leaves alone *)

Lemma props_only_keeps_name (f : fdt_node -> option fdt_node) :
  props_only f -> keeps_name f.
Proof. intros Hf n n' H. apply (Hf n n' H). Qed.

Lemma set_prop_props_only (name value : string) :
  props_only (fun n => Some (set_prop name value n)).
Proof. intros n n' [= <-]. split; reflexivity. Qed.

(** A rewrite that touches properties only: every path leads where it
    led before, to a node that [g] sees as [R] allows. *)
Lemma fdt_alter_frame {B} (g : fdt_node -> B) (R : B -> B -> Prop)
    (f : fdt_node -> option fdt_node) (q : path) :
  (forall b, R b b) ->
  props_only f ->
  (forall n n', f n = Some n' -> R (g n) (g n')) ->
  (forall n cs, g (with_children n cs) = g n) ->
  forall t t', fdt_alter f q t = Some t' ->
  forall p, match fdt_path_offset t p, fdt_path_offset t' p with
            | Some n, Some n' => R (g n) (g n')
            | None, None => True
            | _, _ => False
            end.
Proof.
  intros Hrefl Hf Hg Hwith.
  assert (Hsame : forall c r,
             match fdt_path_offset c r, fdt_path_offset c r with
             | Some n, Some n' => R (g n) (g n')
             | None, None => True
             | _, _ => False
             end).
  { intros c r. destruct (fdt_path_offset c r); [apply Hrefl|exact I]. }
  induction q as [|s0 q IH]; intros t t' H p; cbn [fdt_alter] in H.
  - destruct p as [|s r]; cbn [fdt_path_offset].
    + apply Hg, H.
    + rewrite (proj2 (Hf t t' H)).
      destruct (List.find _ _) as [c|]; [apply Hsame|exact I].
  - destruct (alter_first _ _ _) as [cs|] eqn:Hcs; [|discriminate]. cbn in H.
    injection H as <-.
    destruct (alter_first_Some _ _ _ _ Hcs)
      as (l1 & x & x' & l2 & Hl & -> & _ & _ & Hx).
    destruct p as [|s r]; cbn [fdt_path_offset with_children node_children].
    + rewrite <- (Hwith t (l1 ++ x' :: l2)). apply Hrefl.
    + rewrite Hl, !find_app_cons.
      destruct (List.find _ l1) as [c|]; [apply Hsame|].
      rewrite (select_child_name s x x'
                 (fdt_alter_keeps_name f q (props_only_keeps_name f Hf) x x' Hx)).
      destruct (select_child s x); [exact (IH x x' Hx r)|].
      destruct (List.find _ l2) as [c|]; [apply Hsame|exact I].
Qed.

(** Writing one property leaves every other property of every node as it
    was, and every path resolving as before. *)
Lemma tree_setprop_frame (t t' : fdt_node) (q : path) (name value : string)
    (p : path) (other : string) :
  tree_setprop t q name value = Some t' -> other <> name ->
  prop_at t' p other = prop_at t p other.
Proof.
  intros H Hne. unfold prop_at.
  assert (Hfr := fdt_alter_frame (fun n => node_props n !! other) eq
                   (fun n => Some (set_prop name value n)) q
                   (fun b => eq_refl) (set_prop_props_only name value)).
  specialize (Hfr ltac:(intros n n' [= <-]; symmetry; apply lookup_insert_ne;
                        congruence)).
  specialize (Hfr (fun n cs => eq_refl) t t' H p).
  destruct (fdt_path_offset t p), (fdt_path_offset t' p); cbn;
    [symmetry; exact Hfr|destruct Hfr|destruct Hfr|reflexivity].
Qed.

(** Writing a value keeps it wherever it already was. *)
Lemma tree_setprop_mono (t t' : fdt_node) (q : path) (name value : string)
    (p : path) :
  tree_setprop t q name value = Some t' ->
  prop_at t p name = Some value -> prop_at t' p name = Some value.
Proof.
  intros H. unfold prop_at.
  assert (Hfr := fdt_alter_frame (fun n => node_props n !! name)
                   (fun a b => a = Some value -> b = Some value)
                   (fun n => Some (set_prop name value n)) q
                   (fun b Hb => Hb) (set_prop_props_only name value)).
  specialize (Hfr ltac:(intros n n' [= <-] _; apply lookup_insert_eq)).
  specialize (Hfr (fun n cs => eq_refl) t t' H p).
  destruct (fdt_path_offset t p), (fdt_path_offset t' p); cbn;
    [exact Hfr|destruct Hfr|destruct Hfr|discriminate].
Qed.

(** The node written reads back the value. *)
Lemma tree_setprop_lookup (t t' : fdt_node) (q : path) (name value : string) :
  tree_setprop t q name value = Some t' -> prop_at t' q name = Some value.
Proof.
  intros H. unfold prop_at.
  destruct (fdt_alter_lookup _ q t t'
              (props_only_keeps_name _ (set_prop_props_only name value)) H)
    as (n & n' & _ & [= <-] & ->).
  cbn. apply lookup_insert_eq.
Qed.

(** A path that resolves can be written. *)
Lemma tree_setprop_total (t n : fdt_node) (q : path) (name value : string) :
  fdt_path_offset t q = Some n ->
  exists t', tree_setprop t q name value = Some t'.
Proof.
  intros H. exact (fdt_alter_total _ q t n _ H eq_refl).
Qed.

Lemma tree_setprop_None (t : fdt_node) (q : path) (name value : string) :
  fdt_path_offset t q = None -> tree_setprop t q name value = None.
Proof.
  intros H. destruct (tree_setprop t q name value) as [t'|] eqn:Hset;
    [|reflexivity].
  destruct (fdt_alter_lookup _ q t t'
              (props_only_keeps_name _ (set_prop_props_only name value)) Hset)
    as (n & _ & Hn & _). congruence.
Qed.

(** Writing the same value to the same place again changes nothing. *)
Lemma tree_setprop_again (t t' : fdt_node) (q : path) (name value : string) :
  tree_setprop t q name value = Some t' ->
  tree_setprop t' q name value = Some t'.
Proof.
  intros H. unfold tree_setprop in *.
  rewrite (fdt_alter_compose _ (fun n => Some (set_prop name value n)) q t t'
             (props_only_keeps_name _ (set_prop_props_only name value)) H).
  rewrite <- H. apply fdt_alter_ext. intros n. cbn.
  unfold set_prop. cbn [node_name node_props node_children].
  rewrite insert_insert_eq. reflexivity.
Qed.

(** ** What a property write leaves of a search *)

Lemma fdt_subnodes_unfold (prefix : path) (n : fdt_node) :
  fdt_subnodes prefix n =
    flat_map (fun c => (prefix ++ [node_name c], c)
                         :: fdt_subnodes (prefix ++ [node_name c]) c)
             (node_children n).
Proof. destruct n. reflexivity. Qed.

(** What a search sees of the tree, when it looks at the nodes through
    [g]: the paths in tree order, each with what [g] makes of the node. *)
Lemma fdt_alter_subnodes {B} (g : fdt_node -> B)
    (f : fdt_node -> option fdt_node) (q : path) :
  props_only f ->
  (forall n n', f n = Some n' -> g n' = g n) ->
  (forall n cs, g (with_children n cs) = g n) ->
  forall t t' prefix, fdt_alter f q t = Some t' ->
    g t' = g t /\
    (fun pn => (pn.1, g pn.2)) <$> fdt_subnodes prefix t'
    = (fun pn => (pn.1, g pn.2)) <$> fdt_subnodes prefix t.
Proof.
  intros Hf Hg Hwith.
  induction q as [|s q IH]; intros t t' prefix H; cbn [fdt_alter] in H.
  - split; [exact (Hg t t' H)|].
    rewrite !fdt_subnodes_unfold, (proj2 (Hf t t' H)). reflexivity.
  - destruct (alter_first _ _ _) as [cs|] eqn:Hcs; [|discriminate]. cbn in H.
    injection H as <-. split; [apply Hwith|].
    destruct (alter_first_Some _ _ _ _ Hcs)
      as (l1 & x & x' & l2 & Hl & -> & _ & _ & Hx).
    rewrite !fdt_subnodes_unfold. cbn [with_children node_children].
    rewrite Hl, !flat_map_app, !fmap_app. f_equal.
    cbn [flat_map]. rewrite !fmap_app. f_equal.
    rewrite (fdt_alter_keeps_name f q (props_only_keeps_name f Hf) x x' Hx).
    destruct (IH x x' (prefix ++ [node_name x]) Hx) as [Hgx Hsub].
    cbn [fmap list_fmap fst snd]. rewrite Hgx. f_equal. exact Hsub.
Qed.

Lemma filter_through_view {A B} (g : B -> bool) (l : list (A * B)) :
  fst <$> List.filter (fun pn => g pn.2) l
  = fst <$> List.filter snd ((fun pn => (pn.1, g pn.2)) <$> l).
Proof.
  induction l as [|[a b] l IH]; cbn [List.filter fmap list_fmap fst snd];
    [reflexivity|].
  destruct (g b); cbn [fmap list_fmap fst]; rewrite IH; reflexivity.
Qed.

Lemma check_compatible_set_prop (n : fdt_node) (name value compat : string) :
  name <> "compatible"%string ->
  fdt_node_check_compatible (set_prop name value n) compat
  = fdt_node_check_compatible n compat.
Proof.
  intros Hne. unfold fdt_node_check_compatible, set_prop. cbn [node_props].
  rewrite lookup_insert_ne by exact Hne. reflexivity.
Qed.

(** Writing a property other than ["compatible"] leaves every search by
    compatible string and every search by name as it was. *)
Lemma tree_setprop_nodes_by_compatible (fdt : fdt_blob) (t' : fdt_node)
    (q : path) (name value : string) (ops : list fdt_op) (compat : string) :
  tree_setprop (fdt_root fdt) q name value = Some t' ->
  name <> "compatible"%string ->
  fdt_nodes_by_compatible {| fdt_root := t'; fdt_history := ops |} compat
  = fdt_nodes_by_compatible fdt compat.
Proof.
  intros H Hne. unfold fdt_nodes_by_compatible. cbn [fdt_root].
  rewrite !(filter_through_view (fun n => fdt_node_check_compatible n compat)).
  destruct (fdt_alter_subnodes (fun n => fdt_node_check_compatible n compat)
              _ q (set_prop_props_only name value)
              ltac:(intros n n' [= <-]; apply check_compatible_set_prop, Hne)
              (fun n cs => eq_refl) _ _ [] H) as [_ ->].
  reflexivity.
Qed.

Lemma tree_setprop_node_by_name (fdt : fdt_blob) (t' : fdt_node)
    (q : path) (name value : string) (ops : list fdt_op) (cmpname : string) :
  tree_setprop (fdt_root fdt) q name value = Some t' ->
  qemu_devtree_get_node_by_name {| fdt_root := t'; fdt_history := ops |} cmpname
  = qemu_devtree_get_node_by_name fdt cmpname.
Proof.
  intros H. unfold qemu_devtree_get_node_by_name. cbn [fdt_root].
  rewrite !(filter_through_view (fun n => devtree_name_eq (node_name n) cmpname)).
  destruct (fdt_alter_subnodes (fun n => devtree_name_eq (node_name n) cmpname)
              _ q (set_prop_props_only name value)
              ltac:(intros n n' [= <-]; reflexivity)
              (fun n cs => eq_refl) _ _ [] H) as [_ ->].
  reflexivity.
Qed.

(** ** The property quirks at work *)

(** What [qemu_fdt_setprop] does on a path that resolves. *)
Lemma qemu_fdt_setprop_applies (fdt : fdt_blob) (q : path) (n : fdt_node)
    (name value : string) :
  fdt_path_offset (fdt_root fdt) q = Some n ->
  exists fdt',
    qemu_fdt_setprop fdt q name value = Done fdt'
    /\ qemu_fdt_getprop fdt' q name = Some value
    /\ fdt_history fdt' = fdt_history fdt ++ [OpSetProp q name value]
    /\ same_shape fdt fdt'
    /\ forall p other, other <> name ->
         qemu_fdt_getprop fdt' p other = qemu_fdt_getprop fdt p other.
Proof.
  intros Hn. destruct (tree_setprop_total _ _ q name value Hn) as [t' Ht'].
  exists (blob_step fdt t' (OpSetProp q name value)).
  unfold qemu_fdt_setprop. rewrite Ht'.
  split; [reflexivity|]. split; [exact (tree_setprop_lookup _ _ _ _ _ Ht')|].
  split; [reflexivity|].
  split; [exact (shape_tree_setprop _ _ _ _ _ Ht')|].
  intros p other Hne. exact (tree_setprop_frame _ _ _ _ _ p other Ht' Hne).
Qed.

(** X7: a property quirk whose target is there.  In a tree whose sibling
    names are unambiguous the quirk does not end the process: the USB node
    found gets ["dr_mode"] set to ["host"], the interrupt controller found
    gets ["disable-linux-gic-init"] set to 1.  One write is recorded, no
    node is added or removed, and no other property of any node
    changes. *)
Theorem quirk_target_present_patched (fdt : fdt_blob) :
  unambiguous (fdt_root fdt) = true ->
  (forall q, qemu_devtree_node_by_compatible fdt "xlnx,ps7-usb-1.00.a" = Some q ->
     exists fdt',
       zynq7000_usb_nuke_phy fdt = Done fdt'
       /\ qemu_fdt_getprop fdt' q "dr_mode" = Some (string_value "host")
       /\ fdt_history fdt'
          = fdt_history fdt ++ [OpSetProp q "dr_mode" (string_value "host")]
       /\ same_shape fdt fdt'
       /\ forall p other, other <> "dr_mode"%string ->
            qemu_fdt_getprop fdt' p other = qemu_fdt_getprop fdt p other)
  /\ (forall q, qemu_devtree_get_node_by_name fdt "interrupt-controller" = Some q ->
     exists fdt',
       zynq7000_disable_gic fdt = Done fdt'
       /\ qemu_fdt_getprop_cell fdt' q "disable-linux-gic-init" 0 = 1
       /\ fdt_history fdt'
          = fdt_history fdt ++ [OpSetProp q "disable-linux-gic-init" (cells_value [1])]
       /\ same_shape fdt fdt'
       /\ forall p other, other <> "disable-linux-gic-init"%string ->
            qemu_fdt_getprop fdt' p other = qemu_fdt_getprop fdt p other).
Proof.
  intros Hun. split; intros q Hq.
  - assert (Hin : In q (fdt_nodes_by_compatible fdt "xlnx,ps7-usb-1.00.a")).
    { unfold qemu_devtree_node_by_compatible in Hq.
      destruct (fdt_nodes_by_compatible fdt _) as [|q' l]; [discriminate|].
      injection Hq as ->. left. reflexivity. }
    destruct (node_by_compatible_resolves _ _ _ Hun Hin) as (n & Hn & _).
    unfold zynq7000_usb_nuke_phy. rewrite Hq.
    exact (qemu_fdt_setprop_applies fdt q n "dr_mode" (string_value "host") Hn).
  - destruct (node_by_name_resolves _ _ _ Hun Hq) as (n & Hn & _).
    unfold zynq7000_disable_gic. rewrite Hq.
    destruct (qemu_fdt_setprop_applies fdt q n "disable-linux-gic-init"
                (cells_value [1]) Hn) as (fdt' & Hset & Hget & Hrest).
    exists fdt'. split; [exact Hset|]. split; [|exact Hrest].
    unfold qemu_fdt_getprop_cell. rewrite Hget. reflexivity.
Qed.

Lemma node_by_compatible_setprop (fdt fdt' : fdt_blob) (q : path)
    (name value compat : string) :
  qemu_fdt_setprop fdt q name value = Done fdt' ->
  name <> "compatible"%string ->
  fdt_nodes_by_compatible fdt' compat = fdt_nodes_by_compatible fdt compat.
Proof.
  unfold qemu_fdt_setprop.
  destruct (tree_setprop _ _ _ _) as [t'|] eqn:Ht'; [|discriminate].
  intros [= <-] Hne. exact (tree_setprop_nodes_by_compatible _ _ _ _ _ _ _ Ht' Hne).
Qed.

Lemma node_by_name_setprop (fdt fdt' : fdt_blob) (q : path)
    (name value cmpname : string) :
  qemu_fdt_setprop fdt q name value = Done fdt' ->
  qemu_devtree_get_node_by_name fdt' cmpname
  = qemu_devtree_get_node_by_name fdt cmpname.
Proof.
  unfold qemu_fdt_setprop.
  destruct (tree_setprop _ _ _ _) as [t'|] eqn:Ht'; [|discriminate].
  intros [= <-]. exact (tree_setprop_node_by_name _ _ _ _ _ _ _ Ht').
Qed.

Lemma qemu_fdt_setprop_again (fdt fdt' : fdt_blob) (q : path)
    (name value : string) :
  qemu_fdt_setprop fdt q name value = Done fdt' ->
  exists fdt'', qemu_fdt_setprop fdt' q name value = Done fdt''
                /\ fdt_root fdt'' = fdt_root fdt'.
Proof.
  unfold qemu_fdt_setprop.
  destruct (tree_setprop (fdt_root fdt) _ _ _) as [t'|] eqn:Ht'; [|discriminate].
  intros [= <-]. cbn [blob_step fdt_root].
  rewrite (tree_setprop_again _ _ _ _ _ Ht'). eexists. split; reflexivity.
Qed.

Lemma alter_first_id {A} (sel : A -> bool) (f : A -> option A) (l : list A) (c : A) :
  List.find sel l = Some c -> f c = Some c -> alter_first sel f l = Some l.
Proof.
  induction l as [|x l IH]; cbn [List.find alter_first]; [discriminate|].
  destruct (sel x).
  - intros [= ->] ->. reflexivity.
  - intros Hfind Hf. rewrite (IH Hfind Hf). reflexivity.
Qed.

(** Writing the value a property already has changes nothing. *)
Lemma tree_setprop_id (t : fdt_node) (p : path) (name value : string) :
  prop_at t p name = Some value -> tree_setprop t p name value = Some t.
Proof.
  unfold prop_at, tree_setprop. revert t.
  induction p as [|s p IH]; intros t H; cbn [fdt_path_offset fdt_alter] in *.
  - cbn in H. destruct t as [nm props children]. unfold set_prop.
    cbn [node_name node_props node_children] in *.
    rewrite (insert_id _ _ _ H). reflexivity.
  - destruct (List.find _ _) as [c|] eqn:Hc; [|discriminate].
    rewrite (alter_first_id _ _ _ c Hc (IH c H)). cbn.
    rewrite with_children_same. reflexivity.
Qed.

Lemma qemu_fdt_setprop_mono (fdt fdt' : fdt_blob) (q : path)
    (name value : string) (p : path) :
  qemu_fdt_setprop fdt q name value = Done fdt' ->
  qemu_fdt_getprop fdt p name = Some value ->
  qemu_fdt_getprop fdt' p name = Some value.
Proof.
  unfold qemu_fdt_setprop.
  destruct (tree_setprop _ _ _ _) as [t'|] eqn:Ht'; [|discriminate].
  intros [= <-]. exact (tree_setprop_mono _ _ _ _ _ p Ht').
Qed.

Lemma qemu_fdt_setprop_lookup (fdt fdt' : fdt_blob) (q : path)
    (name value : string) :
  qemu_fdt_setprop fdt q name value = Done fdt' ->
  qemu_fdt_getprop fdt' q name = Some value.
Proof.
  unfold qemu_fdt_setprop.
  destruct (tree_setprop _ _ _ _) as [t'|] eqn:Ht'; [|discriminate].
  intros [= <-]. exact (tree_setprop_lookup _ _ _ _ _ Ht').
Qed.

Lemma set_reset_cbar_mono (cpus : list path) (fdt fdt' : fdt_blob) (p : path) :
  zynq7000_set_reset_cbar fdt cpus = Done fdt' ->
  qemu_fdt_getprop fdt p "reset-cbar" = Some reset_cbar_value ->
  qemu_fdt_getprop fdt' p "reset-cbar" = Some reset_cbar_value.
Proof.
  revert fdt. induction cpus as [|q cpus IH]; intros fdt H Hp;
    cbn [zynq7000_set_reset_cbar] in H.
  - injection H as <-. exact Hp.
  - apply bind_Done in H as (fdt1 & H1 & H).
    apply (IH fdt1 H). exact (qemu_fdt_setprop_mono _ _ _ _ _ p H1 Hp).
Qed.

Lemma set_reset_cbar_sets (cpus : list path) (fdt fdt' : fdt_blob) :
  zynq7000_set_reset_cbar fdt cpus = Done fdt' ->
  forall p, In p cpus ->
    qemu_fdt_getprop fdt' p "reset-cbar" = Some reset_cbar_value.
Proof.
  revert fdt. induction cpus as [|q cpus IH]; intros fdt H p Hp;
    cbn [zynq7000_set_reset_cbar] in H; [destruct Hp|].
  apply bind_Done in H as (fdt1 & H1 & H).
  destruct Hp as [<-|Hp].
  - apply (set_reset_cbar_mono _ _ _ _ H).
    exact (qemu_fdt_setprop_lookup _ _ _ _ _ H1).
  - exact (IH fdt1 H p Hp).
Qed.

Lemma set_reset_cbar_search (cpus : list path) (fdt fdt' : fdt_blob)
    (compat : string) :
  zynq7000_set_reset_cbar fdt cpus = Done fdt' ->
  fdt_nodes_by_compatible fdt' compat = fdt_nodes_by_compatible fdt compat.
Proof.
  revert fdt. induction cpus as [|q cpus IH]; intros fdt H;
    cbn [zynq7000_set_reset_cbar] in H.
  - injection H as <-. reflexivity.
  - apply bind_Done in H as (fdt1 & H1 & H). rewrite (IH fdt1 H).
    apply (node_by_compatible_setprop _ _ _ _ _ _ H1). discriminate.
Qed.

Lemma set_reset_cbar_id (cpus : list path) (fdt : fdt_blob) :
  (forall p, In p cpus ->
     qemu_fdt_getprop fdt p "reset-cbar" = Some reset_cbar_value) ->
  exists fdt', zynq7000_set_reset_cbar fdt cpus = Done fdt'
               /\ fdt_root fdt' = fdt_root fdt.
Proof.
  revert fdt. induction cpus as [|q cpus IH]; intros fdt H;
    cbn [zynq7000_set_reset_cbar].
  - exists fdt. split; reflexivity.
  - unfold qemu_fdt_setprop_cells, qemu_fdt_setprop.
    pose proof (tree_setprop_id _ _ _ _ (H q (or_introl eq_refl))) as Hid.
    unfold reset_cbar_value in Hid. rewrite Hid. cbn.
    destruct (IH (blob_step fdt (fdt_root fdt)
                    (OpSetProp q "reset-cbar"
                       (cells_value [ZYNQ7000_MPCORE_PERIPHBASE]))))
      as (fdt' & Hrun & Hroot).
    + intros p Hp. exact (H p (or_intror Hp)).
    + exists fdt'. split; [exact Hrun|exact Hroot].
Qed.

(** X8: the three property quirks of the Zynq-7000 (USB host mode, GIC
    init disabled, reset-cbar on the A9 CPUs) are idempotent on the tree:
    applied to what they returned they return again and leave the tree as
    it is. *)
Theorem property_quirks_idempotent :
  tree_idempotent zynq7000_usb_nuke_phy
  /\ tree_idempotent zynq7000_disable_gic
  /\ tree_idempotent zynq7000_reset_cbar_patch.
Proof.
  split; [|split]; intros fdt fdt' H.
  - unfold zynq7000_usb_nuke_phy in *.
    destruct (qemu_devtree_node_by_compatible fdt _) as [q|] eqn:Hq.
    + assert (Hq' : qemu_devtree_node_by_compatible fdt' "xlnx,ps7-usb-1.00.a"
                    = Some q).
      { unfold qemu_devtree_node_by_compatible in *.
        rewrite (node_by_compatible_setprop _ _ _ _ _ _ H); [exact Hq|discriminate]. }
      rewrite Hq'. exact (qemu_fdt_setprop_again _ _ _ _ _ H).
    + injection H as <-. rewrite Hq. exists fdt. split; reflexivity.
  - unfold zynq7000_disable_gic in *.
    destruct (qemu_devtree_get_node_by_name fdt _) as [q|] eqn:Hq.
    + rewrite (node_by_name_setprop _ _ _ _ _ _ H), Hq.
      exact (qemu_fdt_setprop_again _ _ _ _ _ H).
    + injection H as <-. rewrite Hq. exists fdt. split; reflexivity.
  - unfold zynq7000_reset_cbar_patch in *.
    rewrite (set_reset_cbar_search _ _ _ _ H).
    apply set_reset_cbar_id. exact (set_reset_cbar_sets _ _ _ H).
Qed.

Lemma tree_setprop_resolves (t t' : fdt_node) (q : path) (name value : string)
    (p : path) :
  tree_setprop t q name value = Some t' ->
  is_Some (fdt_path_offset t p) -> is_Some (fdt_path_offset t' p).
Proof.
  intros H [n Hn].
  assert (Hfr := fdt_alter_frame (fun _ => tt) eq
                   (fun n => Some (set_prop name value n)) q
                   (fun b => eq_refl) (set_prop_props_only name value)
                   (fun _ _ _ => eq_refl) (fun _ _ => eq_refl) t t' H p).
  rewrite Hn in Hfr. destruct (fdt_path_offset t' p); [eauto|destruct Hfr].
Qed.

Lemma set_reset_cbar_total (cpus : list path) (fdt : fdt_blob) :
  (forall p, In p cpus -> is_Some (fdt_path_offset (fdt_root fdt) p)) ->
  exists fdt', zynq7000_set_reset_cbar fdt cpus = Done fdt'.
Proof.
  revert fdt. induction cpus as [|q cpus IH]; intros fdt H;
    cbn [zynq7000_set_reset_cbar].
  - eexists. reflexivity.
  - destruct (H q (or_introl eq_refl)) as [n Hn].
    destruct (tree_setprop_total _ _ q "reset-cbar" reset_cbar_value Hn)
      as [t' Ht'].
    unfold qemu_fdt_setprop_cells, qemu_fdt_setprop.
    unfold reset_cbar_value in Ht'. rewrite Ht'. cbn.
    apply IH. intros p Hp. cbn [blob_step fdt_root].
    exact (tree_setprop_resolves _ _ _ _ _ p Ht' (H p (or_intror Hp))).
Qed.

(** X9: in a tree whose sibling names are unambiguous the reset-cbar loop
    does not end the process, and afterwards every node compatible with
    ["arm,cortex-a9"] reads 0xF8F00000 as ["reset-cbar"], the address
    [ZYNQ7000_MPCORE_PERIPHBASE] at which the Zynq-7000 init maps the SCU.
    The nodes of the tree and the result of the search are as before. *)
Theorem reset_cbar_on_every_a9 (fdt : fdt_blob) :
  unambiguous (fdt_root fdt) = true ->
  exists fdt',
    zynq7000_reset_cbar_patch fdt = Done fdt'
    /\ same_shape fdt fdt'
    /\ fdt_nodes_by_compatible fdt' "arm,cortex-a9"
       = fdt_nodes_by_compatible fdt "arm,cortex-a9"
    /\ forall p, In p (fdt_nodes_by_compatible fdt' "arm,cortex-a9") ->
         qemu_fdt_getprop_cell fdt' p "reset-cbar" 0 = 0xF8F00000.
Proof.
  intros Hun. unfold zynq7000_reset_cbar_patch.
  destruct (set_reset_cbar_total (fdt_nodes_by_compatible fdt "arm,cortex-a9") fdt)
    as [fdt' Hrun].
  { intros p Hp. destruct (node_by_compatible_resolves _ _ _ Hun Hp) as (n & -> & _).
    eauto. }
  exists fdt'. split; [exact Hrun|].
  split; [exact (zynq7000_set_reset_cbar_shape _ _ _ Hrun)|].
  split; [exact (set_reset_cbar_search _ _ _ _ Hrun)|].
  intros p Hp. rewrite (set_reset_cbar_search _ _ _ _ Hrun) in Hp.
  unfold qemu_fdt_getprop_cell.
  rewrite (set_reset_cbar_sets _ _ _ Hrun p Hp). reflexivity.
Qed.

(** ** The flash helper: what the clone function writes *)

Lemma fdt_setprop_frame (fdt : fdt_blob) (q : path) (name value : string)
    (p : path) (other : string) :
  other <> name ->
  qemu_fdt_getprop (fdt_setprop fdt q name value) p other
  = qemu_fdt_getprop fdt p other.
Proof.
  intros Hne. unfold fdt_setprop, qemu_fdt_getprop. cbn [blob_step fdt_root].
  destruct (tree_setprop _ _ _ _) as [t'|] eqn:Ht'; cbn [from_option id];
    [|reflexivity].
  exact (tree_setprop_frame _ _ _ _ _ p other Ht' Hne).
Qed.

Lemma qemu_fdt_setprop_frame (fdt fdt' : fdt_blob) (q : path)
    (name value : string) (p : path) (other : string) :
  qemu_fdt_setprop fdt q name value = Done fdt' -> other <> name ->
  qemu_fdt_getprop fdt' p other = qemu_fdt_getprop fdt p other.
Proof.
  unfold qemu_fdt_setprop.
  destruct (tree_setprop _ _ _ _) as [t'|] eqn:Ht'; [|discriminate].
  intros [= <-] Hne. exact (tree_setprop_frame _ _ _ _ _ p other Ht' Hne).
Qed.

Lemma fdt_setprop_lookup (fdt : fdt_blob) (q : path) (n : fdt_node)
    (name value : string) :
  fdt_path_offset (fdt_root fdt) q = Some n ->
  fdt_path_offset (fdt_root (fdt_setprop fdt q name value)) q
  = Some (set_prop name value n).
Proof.
  intros Hn. unfold fdt_setprop. cbn [blob_step fdt_root].
  destruct (tree_setprop_total _ _ q name value Hn) as [t' Ht']. rewrite Ht'.
  cbn [from_option id].
  destruct (fdt_alter_lookup _ q _ t'
              (props_only_keeps_name _ (set_prop_props_only name value)) Ht')
    as (m & m' & Hm & [= <-] & Hm').
  rewrite Hm'. congruence.
Qed.

(** Adding a node below [q]: the node at [q] gets the new node as first
    child and keeps its properties. *)
Lemma tree_add_subnode_lookup (t t' : fdt_node) (q : path) (b : string) :
  tree_add_subnode t (q ++ [b]) = Some t' ->
  exists n,
    fdt_path_offset t q = Some n
    /\ fdt_path_offset t' q
       = Some (with_children n (FdtNode b ∅ [] :: node_children n))
    /\ fdt_path_offset t' (q ++ [b]) = Some (FdtNode b ∅ []).
Proof.
  unfold tree_add_subnode. rewrite path_split_snoc. cbn. intros H.
  destruct (fdt_alter_lookup _ q t t' (add_first_child_keeps_name b) H)
    as (n & n' & Hn & Hadd & Hn').
  exists n. split; [exact Hn|].
  unfold add_first_child in Hadd.
  destruct (List.find _ _); [discriminate|]. injection Hadd as <-.
  split; [exact Hn'|].
  rewrite fdt_path_offset_app, Hn'. cbn [mbind option_bind].
  cbn [fdt_path_offset with_children node_children List.find].
  unfold select_child at 1. cbn [node_name]. rewrite fdt_nodename_eq_refl.
  reflexivity.
Qed.

(** X11: the flash helper node, when it is made.  It is the node
    ["ps7-qspi-dummy@0"] under the controller found; it has no children
    and exactly two properties, ["compatible"] with the first string of the
    first child's compatible list (any further strings are dropped) and
    ["reg"] with the cells 0 and 1; and in the tree returned it is the
    controller's first child. *)
Theorem qspi_clone_helper_content (fdt fdt' : fdt_blob) (helper : path) :
  zynq7000_qspi_flash_node_clone fdt = Done (fdt', Some helper) ->
  exists qspi child bytes,
    qemu_devtree_node_by_compatible fdt "xlnx,zynq-qspi-1.0" = Some qspi
    /\ helper = qspi ++ [QSPI_DUMMY_NAME]
    /\ head (qemu_devtree_get_children fdt qspi) = Some child
    /\ qemu_fdt_getprop fdt child "compatible" = Some bytes
    /\ fdt_path_offset (fdt_root fdt') helper =
         Some (FdtNode QSPI_DUMMY_NAME
                 (<["reg"%string := cells_value [0; 1]]>
                    (<["compatible"%string := string_value (cstring bytes)]> ∅))
                 [])
    /\ head (qemu_devtree_get_children fdt' qspi) = Some helper.
Proof.
  unfold zynq7000_qspi_flash_node_clone.
  destruct (qemu_devtree_node_by_compatible fdt _) as [q|] eqn:Hq; [|discriminate].
  set (fdt1 := fdt_setprop fdt q "#bus-cells" _).
  assert (W1 : writes_props fdt fdt1) by apply fdt_setprop_writes.
  rewrite (get_children_same_names fdt fdt1 q (proj1 W1)).
  destruct (qemu_devtree_get_children fdt q) as [|c0 cs] eqn:Hch; [discriminate|].
  destruct (get_children_below fdt q c0) as [s ->].
  { rewrite Hch. left. reflexivity. }
  assert (Hcompat : qemu_fdt_getprop fdt1 (q ++ [s]) "compatible"
                    = qemu_fdt_getprop fdt (q ++ [s]) "compatible").
  { unfold qemu_fdt_getprop, fdt1. rewrite fdt_setprop_below. reflexivity. }
  rewrite Hcompat.
  set (fdt2 := fdt_setprop fdt1 (q ++ [s]) "reg" _).
  destruct (qemu_fdt_getprop fdt (q ++ [s]) "compatible") as [bytes|] eqn:Hbytes;
    [|discriminate].
  destruct (_ =? 1); [|discriminate].
  intros H. apply bind_Done in H as (fdt3 & H3 & H).
  apply bind_Done in H as (fdt4 & H4 & H). injection H as <- <-.
  exists q, (q ++ [s]), bytes.
  split; [reflexivity|]. split; [reflexivity|].
  split; [rewrite Hch; reflexivity|]. split; [exact Hbytes|].
  unfold qemu_fdt_add_subnode in H3.
  destruct (tree_add_subnode _ _) as [t3|] eqn:Hadd; [|discriminate].
  injection H3 as <-.
  destruct (tree_add_subnode_lookup _ _ _ _ Hadd) as (n & Hn & Hn3 & Hnew).
  unfold qemu_fdt_setprop_string, qemu_fdt_setprop in H4.
  cbn [blob_step fdt_root] in H4.
  destruct (tree_setprop t3 _ _ _) as [t4|] eqn:Hset4; [|discriminate].
  injection H4 as <-.
  destruct (fdt_alter_lookup _ _ _ t4
              (props_only_keeps_name _ (set_prop_props_only _ _)) Hset4)
    as (m & m' & Hm & [= <-] & Hm').
  rewrite Hnew in Hm. injection Hm as <-.
  split.
  - match goal with
    | |- context [fdt_setprop ?f _ _ ?v] =>
        rewrite (fdt_setprop_lookup f _ _ "reg" v Hm')
    end.
    reflexivity.
  - rewrite get_children_names.
    match goal with
    | |- context [names_at (fdt_root (fdt_setprop ?f ?p ?nm ?v)) q] =>
        rewrite (proj1 (fdt_setprop_writes f p nm v) q)
    end.
    cbn [blob_step fdt_root].
    rewrite (tree_setprop_same_names _ _ _ _ _ Hset4 q).
    unfold names_at. rewrite Hn3. reflexivity.
Qed.

(** X10: what [zynq7000_qspi_flash_node_clone] writes whether or not it
    makes the helper.  Once a zynq-qspi controller is found (sibling names
    unambiguous), the controller's ["#bus-cells"] reads 1 in the tree
    returned; and when no helper is made, the ["reg"] of the controller's
    first child, if it has one, holds the cells 0 and 0. *)
Theorem qspi_clone_property_writes (fdt fdt' : fdt_blob) (r : option path)
    (qspi : path) :
  unambiguous (fdt_root fdt) = true ->
  qemu_devtree_node_by_compatible fdt "xlnx,zynq-qspi-1.0" = Some qspi ->
  zynq7000_qspi_flash_node_clone fdt = Done (fdt', r) ->
  qemu_fdt_getprop_cell fdt' qspi "#bus-cells" 0 = 1
  /\ forall child,
       head (qemu_devtree_get_children fdt qspi) = Some child -> r = None ->
       qemu_fdt_getprop fdt' child "reg" = Some (cells_value [0; 0]).
Proof.
  intros Hun Hq. unfold zynq7000_qspi_flash_node_clone. rewrite Hq.
  assert (Hin : In qspi (fdt_nodes_by_compatible fdt "xlnx,zynq-qspi-1.0")).
  { unfold qemu_devtree_node_by_compatible in Hq.
    destruct (fdt_nodes_by_compatible fdt _) as [|q' l]; [discriminate|].
    injection Hq as ->. left. reflexivity. }
  destruct (node_by_compatible_resolves _ _ _ Hun Hin) as (n & Hn & _).
  set (fdt1 := fdt_setprop fdt qspi "#bus-cells" _).
  assert (H1 : qemu_fdt_getprop fdt1 qspi "#bus-cells" = Some (cell_value 1)).
  { unfold qemu_fdt_getprop, fdt1.
    rewrite (fdt_setprop_lookup _ _ _ _ _ Hn). cbn. apply lookup_insert_eq. }
  assert (W1 : writes_props fdt fdt1) by apply fdt_setprop_writes.
  rewrite (get_children_same_names fdt fdt1 qspi (proj1 W1)).
  assert (Hcell : forall f, qemu_fdt_getprop f qspi "#bus-cells" = Some (cell_value 1) ->
                            qemu_fdt_getprop_cell f qspi "#bus-cells" 0 = 1).
  { intros f Hf. unfold qemu_fdt_getprop_cell. rewrite Hf. reflexivity. }
  destruct (qemu_devtree_get_children fdt qspi) as [|c0 cs] eqn:Hch.
  { intros [= <- <-]. split; [exact (Hcell _ H1)|]. discriminate. }
  destruct (get_children_below fdt qspi c0) as [s ->].
  { rewrite Hch. left. reflexivity. }
  set (fdt2 := fdt_setprop fdt1 (qspi ++ [s]) "reg" _).
  assert (H2 : qemu_fdt_getprop fdt2 qspi "#bus-cells" = Some (cell_value 1)).
  { unfold fdt2. rewrite fdt_setprop_frame by discriminate. exact H1. }
  assert (Hreg : qemu_fdt_getprop fdt2 (qspi ++ [s]) "reg" = Some (cells_value [0; 0])).
  { assert (Hs : exists c, fdt_path_offset (fdt_root fdt1) (qspi ++ [s]) = Some c).
    { pose proof (get_children_names fdt qspi) as Hnames. rewrite Hch in Hnames.
      unfold fdt1. rewrite fdt_setprop_below.
      rewrite fdt_path_offset_app. unfold names_at in Hnames. rewrite Hn in *.
      cbn in Hnames. cbn [mbind option_bind fdt_path_offset].
      unfold child_names in Hnames.
      destruct (node_children n) as [|c children]; [discriminate|].
      cbn in Hnames. injection Hnames as Hs _.
      apply app_inv_head in Hs. injection Hs as ->.
      cbn [List.find]. rewrite select_child_self. eauto. }
    destruct Hs as [c Hc]. unfold qemu_fdt_getprop, fdt2.
    rewrite (fdt_setprop_lookup _ _ _ _ _ Hc). cbn. apply lookup_insert_eq. }
  cbn [head].
  destruct (qemu_fdt_getprop fdt1 (qspi ++ [s]) "compatible") as [bytes|].
  2:{ intros [= <- <-]. split; [exact (Hcell _ H2)|].
      intros child [= <-] _. exact Hreg. }
  destruct (_ =? 1).
  2:{ intros [= <- <-]. split; [exact (Hcell _ H2)|].
      intros child [= <-] _. exact Hreg. }
  intros H. apply bind_Done in H as (fdt3 & H3 & H).
  apply bind_Done in H as (fdt4 & H4 & H). injection H as <- <-.
  split; [|discriminate].
  apply Hcell. rewrite fdt_setprop_frame by discriminate.
  rewrite (qemu_fdt_setprop_frame _ _ _ _ _ qspi "#bus-cells" H4) by discriminate.
  unfold qemu_fdt_add_subnode in H3.
  destruct (tree_add_subnode _ _) as [t3|] eqn:Hadd; [|discriminate].
  injection H3 as <-.
  destruct (tree_add_subnode_lookup _ _ _ _ Hadd) as (m & Hm & Hm3 & _).
  unfold qemu_fdt_getprop in *. cbn [blob_step fdt_root]. rewrite Hm3.
  rewrite Hm in H2. exact H2.
Qed.

(** ** The memory node *)

Lemma unit_base_no_unit_address (s : string) :
  has_unit_address (unit_base s) = false.
Proof.
  induction s as [|c s IH]; cbn [unit_base]; [reflexivity|].
  destruct (Ascii.eqb c AT) eqn:Hc; [reflexivity|].
  cbn [has_unit_address]. rewrite Hc. exact IH.
Qed.

(** A node that is not called memory does not answer to ["memory@0"]. *)
Lemma not_memory_not_selected (c : string) :
  devtree_name_eq c "memory" = false -> fdt_nodename_eq c "memory@0" = false.
Proof.
  unfold devtree_name_eq, fdt_nodename_eq. intros H.
  destruct (String.eqb_spec c "memory@0") as [->|_]; [discriminate H|].
  destruct (String.eqb_spec (unit_base c) "memory@0") as [Heq|_];
    [|apply andb_false_r].
  pose proof (unit_base_no_unit_address c) as Hno. rewrite Heq in Hno.
  discriminate Hno.
Qed.

Lemma no_memory_node_no_child (fdt : fdt_blob) :
  qemu_devtree_get_node_by_name fdt "memory" = None ->
  List.find (select_child "memory@0") (node_children (fdt_root fdt)) = None.
Proof.
  intros Hnone. apply find_none_iff, Forall_forall. intros c Hc.
  apply not_memory_not_selected.
  apply (get_node_by_name_None_root fdt "memory" (node_name c) Hnone).
  unfold child_names. apply list_elem_of_In, list_elem_of_fmap.
  exists c. split; [reflexivity|exact Hc].
Qed.

(** Without a node called memory, one turn of the loop is enough. *)
Lemma find_or_add_memory_node_adds (fdt : fdt_blob) (ram_size : Z) :
  qemu_devtree_get_node_by_name fdt "memory" = None ->
  exists fdt',
    find_or_add_memory_node fdt ram_size = Done (fdt', ["memory@0"%string])
    /\ qemu_devtree_get_node_by_name fdt' "memory" = Some ["memory@0"%string]
    /\ fdt_root fdt' =
         with_children (fdt_root fdt)
           (added_memory_node ram_size :: node_children (fdt_root fdt))
    /\ fdt_history fdt' =
         fdt_history fdt ++
         [OpAddSubnode ["memory@0"%string];
          OpSetProp ["memory@0"%string] "reg"
            (cells_value [0; ram_size mod 2 ^ 32])].
Proof.
  intros Hname. unfold find_or_add_memory_node. rewrite Hname.
  pose proof (no_memory_node_no_child fdt Hname) as Hfind.
  set (ta := with_children (fdt_root fdt)
               (FdtNode "memory@0" ∅ [] :: node_children (fdt_root fdt))).
  set (tb := with_children (fdt_root fdt)
               (added_memory_node ram_size :: node_children (fdt_root fdt))).
  assert (Hadd : tree_add_subnode (fdt_root fdt) ["memory@0"%string] = Some ta).
  { unfold tree_add_subnode. cbn [path_split mbind option_bind fdt_alter].
    unfold add_first_child. rewrite Hfind. reflexivity. }
  assert (Hset : tree_setprop ta ["memory@0"%string] "reg"
                   (cells_value [0; wrap32 ram_size]) = Some tb).
  { reflexivity. }
  assert (Hfound : forall f, fdt_root f = tb ->
             qemu_devtree_get_node_by_name f "memory" = Some ["memory@0"%string]).
  { intros f Hf. unfold qemu_devtree_get_node_by_name. rewrite Hf.
    rewrite fdt_subnodes_unfold. reflexivity. }
  unfold qemu_fdt_add_subnode. rewrite Hadd. cbn [mbind outcome_bind].
  unfold qemu_fdt_setprop_cells, qemu_fdt_setprop. cbn [blob_step fdt_root].
  rewrite Hset. cbn [mbind outcome_bind fdt_history].
  match goal with
  | |- context [qemu_devtree_get_node_by_name ?f "memory"] =>
      rewrite (Hfound f eq_refl);
      exists f; split; [reflexivity|];
      split; [exact (Hfound f eq_refl)|]
  end.
  cbn [blob_step fdt_root fdt_history].
  split; [reflexivity|]. rewrite <- app_assoc. reflexivity.
Qed.


Lemma getprop_resolves (fdt : fdt_blob) (p : path) (name value : string) :
  qemu_fdt_getprop fdt p name = Some value ->
  exists n, fdt_path_offset (fdt_root fdt) p = Some n.
Proof.
  unfold qemu_fdt_getprop. destruct (fdt_path_offset _ _) as [n|]; [eauto|].
  discriminate.
Qed.

(** X14: the typing of ["/memory"].  When the path ["/memory"] does not
    resolve, the process ends in the exit(1) of [qemu_fdt_setprop].  When
    it resolves to a node with a ["compatible"] property, nothing is
    written.  Otherwise the node gets ["compatible"] set to
    ["qemu:memory-region"] and ["qemu,ram"] set to 1, two writes are
    recorded and no node is added or removed.  In both returning cases a
    second application returns the same description. *)
Theorem mark_memory_node_outcome (fdt : fdt_blob) :
  match fdt_path_offset (fdt_root fdt) ["memory"%string] with
  | None =>
      mark_memory_node fdt = Exit 1 "qemu_fdt_setprop: Couldn't set property"
  | Some n =>
      exists fdt',
        mark_memory_node fdt = Done fdt'
        /\ match node_props n !! "compatible"%string with
           | Some _ => fdt' = fdt
           | None =>
               qemu_fdt_getprop fdt' ["memory"%string] "compatible"
               = Some (string_value "qemu:memory-region")
               /\ qemu_fdt_getprop_cell fdt' ["memory"%string] "qemu,ram" 0 = 1
               /\ fdt_history fdt' =
                    fdt_history fdt ++
                    [OpSetProp ["memory"%string] "compatible"
                       (string_value "qemu:memory-region");
                     OpSetProp ["memory"%string] "qemu,ram" (cells_value [1])]
               /\ same_shape fdt fdt'
           end
        /\ mark_memory_node fdt' = Done fdt'
  end.
Proof.
  destruct (fdt_path_offset (fdt_root fdt) ["memory"%string]) as [n|] eqn:Hn.
  - unfold mark_memory_node at 1. unfold qemu_fdt_getprop at 1. rewrite Hn.
    cbn [mbind option_bind].
    destruct (node_props n !! "compatible"%string) as [v|] eqn:Hv.
    + exists fdt. split; [reflexivity|]. split; [reflexivity|].
      unfold mark_memory_node, qemu_fdt_getprop. rewrite Hn. cbn. rewrite Hv.
      reflexivity.
    + destruct (qemu_fdt_setprop_applies fdt ["memory"%string] n "compatible"
                  (string_value "qemu:memory-region") Hn)
        as (fdt1 & Hset1 & Hget1 & Hhist1 & Hshape1 & _).
      destruct (getprop_resolves _ _ _ _ Hget1) as [n1 Hn1].
      destruct (qemu_fdt_setprop_applies fdt1 ["memory"%string] n1 "qemu,ram"
                  (cells_value [1]) Hn1)
        as (fdt2 & Hset2 & Hget2 & Hhist2 & Hshape2 & Hframe2).
      exists fdt2. unfold qemu_fdt_setprop_string. rewrite Hset1.
      cbn [mbind outcome_bind]. unfold qemu_fdt_setprop_cells.
      split; [exact Hset2|].
      assert (Hcompat : qemu_fdt_getprop fdt2 ["memory"%string] "compatible"
                        = Some (string_value "qemu:memory-region")).
      { rewrite Hframe2 by discriminate. exact Hget1. }
      split.
      * split; [exact Hcompat|].
        split; [unfold qemu_fdt_getprop_cell; rewrite Hget2; reflexivity|].
        split; [rewrite Hhist2, Hhist1, <- app_assoc; reflexivity|].
        exact (same_shape_trans _ _ _ Hshape1 Hshape2).
      * unfold mark_memory_node. rewrite Hcompat. reflexivity.
  - unfold mark_memory_node, qemu_fdt_getprop. rewrite Hn. cbn [mbind option_bind].
    unfold qemu_fdt_setprop_string, qemu_fdt_setprop.
    rewrite (tree_setprop_None _ _ _ _ Hn). reflexivity.
Qed.

(** X13: the loop that looks for the memory node always ends without
    error, after at most one addition.  When a node called memory exists
    (at any depth) the description is returned as it is.  Otherwise
    ["/memory@0"] is added as the first node under the root, with ["reg"]
    holding 0 and the low 32 bits of the RAM size and nothing else; two
    operations are recorded; and the search then finds that node. *)
Theorem memory_node_found_or_added (fdt : fdt_blob) (ram_size : Z) :
  exists fdt' node_path,
    find_or_add_memory_node fdt ram_size = Done (fdt', node_path)
    /\ qemu_devtree_get_node_by_name fdt' "memory" = Some node_path
    /\ match qemu_devtree_get_node_by_name fdt "memory" with
       | Some _ => fdt' = fdt
       | None =>
           node_path = ["memory@0"%string]
           /\ fdt_root fdt' =
                with_children (fdt_root fdt)
                  (added_memory_node ram_size :: node_children (fdt_root fdt))
           /\ fdt_history fdt' =
                fdt_history fdt ++
                [OpAddSubnode ["memory@0"%string];
                 OpSetProp ["memory@0"%string] "reg"
                   (cells_value [0; ram_size mod 2 ^ 32])]
       end.
Proof.
  destruct (qemu_devtree_get_node_by_name fdt "memory") as [p|] eqn:Hname.
  - exists fdt, p. split; [|auto].
    unfold find_or_add_memory_node. rewrite Hname. reflexivity.
  - destruct (find_or_add_memory_node_adds fdt ram_size Hname)
      as (fdt' & Hrun & Hfound & Hroot & Hhist).
    exists fdt', ["memory@0"%string]. auto.
Qed.

(** ** The flash helper: running the clone function again *)

(** A rewrite of one node that a search through [g] does not notice at
    that node is not noticed anywhere. *)
Lemma fdt_alter_filter (g : fdt_node -> bool)
    (f : fdt_node -> option fdt_node) (q : path) :
  keeps_name f ->
  (forall n cs, g (with_children n cs) = g n) ->
  forall t t' m m',
    fdt_alter f q t = Some t' ->
    fdt_path_offset t q = Some m -> f m = Some m' ->
    g m' = g m ->
    (forall prefix,
        fst <$> List.filter (fun pn => g pn.2) (fdt_subnodes prefix m')
        = fst <$> List.filter (fun pn => g pn.2) (fdt_subnodes prefix m)) ->
    g t' = g t /\
    forall prefix,
      fst <$> List.filter (fun pn => g pn.2) (fdt_subnodes prefix t')
      = fst <$> List.filter (fun pn => g pn.2) (fdt_subnodes prefix t).
Proof.
  intros Hf Hwith.
  induction q as [|s q IH]; intros t t' m m' H Hm Hfm Hg Hsub;
    cbn [fdt_alter fdt_path_offset] in H, Hm.
  - injection Hm as ->. rewrite Hfm in H. injection H as ->. auto.
  - destruct (alter_first _ _ _) as [cs|] eqn:Hcs; [|discriminate]. cbn in H.
    injection H as <-. split; [apply Hwith|]. intros prefix.
    destruct (alter_first_Some _ _ _ _ Hcs)
      as (l1 & x & x' & l2 & Hl & -> & Hl1 & Hsel & Hx).
    rewrite Hl, find_app_cons, Hl1, Hsel in Hm.
    destruct (IH x x' m m' Hx Hm Hfm Hg Hsub) as [Hgx Hsubx].
    rewrite !fdt_subnodes_unfold. cbn [with_children node_children].
    rewrite Hl, !flat_map_app, !List.filter_app, !fmap_app. f_equal.
    cbn [flat_map]. rewrite !List.filter_app, !fmap_app. f_equal.
    rewrite (fdt_alter_keeps_name f q Hf x x' Hx).
    cbn [List.filter snd]. rewrite Hgx.
    destruct (g x); cbn [fmap list_fmap fst]; rewrite Hsubx; reflexivity.
Qed.

(** A new node has no properties, so no search by compatible string
    finds it. *)
Lemma tree_add_subnode_nodes_by_compatible (fdt : fdt_blob) (t' : fdt_node)
    (p : path) (ops : list fdt_op) (compat : string) :
  tree_add_subnode (fdt_root fdt) p = Some t' ->
  fdt_nodes_by_compatible {| fdt_root := t'; fdt_history := ops |} compat
  = fdt_nodes_by_compatible fdt compat.
Proof.
  unfold tree_add_subnode.
  destruct (path_split p) as [[d b]|]; [|discriminate]. cbn. intros H.
  destruct (fdt_alter_lookup _ _ _ _ (add_first_child_keeps_name b) H)
    as (n & n' & Hn & Hadd & _).
  unfold fdt_nodes_by_compatible. cbn [fdt_root].
  apply (fdt_alter_filter (fun n => fdt_node_check_compatible n compat)
           _ d (add_first_child_keeps_name b) (fun n cs => eq_refl)
           _ _ n n' H Hn Hadd).
  - unfold add_first_child in Hadd. destruct (List.find _ _); [discriminate|].
    injection Hadd as <-. reflexivity.
  - intros prefix. unfold add_first_child in Hadd.
    destruct (List.find _ _); [discriminate|]. injection Hadd as <-.
    rewrite (fdt_subnodes_unfold prefix (with_children _ _)).
    cbn [with_children node_children flat_map node_name fdt_subnodes app
         List.filter snd].
    unfold fdt_node_check_compatible at 1. cbn [node_props].
    rewrite lookup_empty. rewrite <- fdt_subnodes_unfold. reflexivity.
Qed.

(** A property write that does not change what the node written says of
    [compat] leaves the search for [compat] as it was. *)
Lemma tree_setprop_nodes_by_compatible_at (fdt : fdt_blob) (t' m : fdt_node)
    (q : path) (name value : string) (ops : list fdt_op) (compat : string) :
  tree_setprop (fdt_root fdt) q name value = Some t' ->
  fdt_path_offset (fdt_root fdt) q = Some m ->
  fdt_node_check_compatible (set_prop name value m) compat
  = fdt_node_check_compatible m compat ->
  fdt_nodes_by_compatible {| fdt_root := t'; fdt_history := ops |} compat
  = fdt_nodes_by_compatible fdt compat.
Proof.
  intros H Hm Hg. unfold fdt_nodes_by_compatible. cbn [fdt_root].
  apply (fdt_alter_filter (fun n => fdt_node_check_compatible n compat)
           _ q (props_only_keeps_name _ (set_prop_props_only name value))
           (fun n cs => eq_refl) _ _ m _ H Hm eq_refl Hg).
  intros prefix. rewrite !fdt_subnodes_unfold. reflexivity.
Qed.

Lemma fdt_setprop_nodes_by_compatible (fdt : fdt_blob) (q : path)
    (name value compat : string) :
  name <> "compatible"%string ->
  fdt_nodes_by_compatible (fdt_setprop fdt q name value) compat
  = fdt_nodes_by_compatible fdt compat.
Proof.
  intros Hne. unfold fdt_setprop, blob_step.
  destruct (tree_setprop _ _ _ _) as [t'|] eqn:Ht'; cbn [from_option id].
  - exact (tree_setprop_nodes_by_compatible _ _ _ _ _ _ compat Ht' Hne).
  - reflexivity.
Qed.

Lemma string_app_nil_r (s : string) : s +:+ "" = s.
Proof.
  induction s as [|c s IH]; [reflexivity|].
  change (String c s +:+ "") with (String c (s +:+ "")).
  rewrite IH. reflexivity.
Qed.

Lemma string_app_assoc (s1 s2 s3 : string) :
  (s1 +:+ s2) +:+ s3 = s1 +:+ (s2 +:+ s3).
Proof.
  induction s1 as [|c s1 IH]; [reflexivity|].
  change (String c ((s1 +:+ s2) +:+ s3) = String c (s1 +:+ (s2 +:+ s3))).
  rewrite IH. reflexivity.
Qed.

(** The bytes of a C string hold one string. *)
Lemma stringlist_from_cstring (cur bytes : string) :
  stringlist_from cur (string_value (cstring bytes)) = [cur +:+ cstring bytes].
Proof.
  unfold string_value.
  revert cur. induction bytes as [|c r IH]; intros cur; cbn [cstring].
  - change (cur :: stringlist_from "" "" = [cur +:+ ""]).
    rewrite string_app_nil_r. reflexivity.
  - destruct (Ascii.eqb c NUL) eqn:Hc.
    + change (cur :: stringlist_from "" "" = [cur +:+ ""]).
      rewrite string_app_nil_r. reflexivity.
    + change (String c (cstring r) +:+ String NUL "")
        with (String c (cstring r +:+ String NUL "")).
      cbn [stringlist_from]. rewrite Hc, IH, string_app_assoc.
      reflexivity.
Qed.

Lemma stringlist_cstring (bytes : string) :
  stringlist (string_value (cstring bytes)) = [cstring bytes].
Proof. apply (stringlist_from_cstring ""). Qed.

(** A node cannot be added where a child of that name is first. *)
Lemma tree_add_subnode_exists (t : fdt_node) (q : path) (b : string)
    (names : list string) :
  names_at t q = Some (b :: names) -> tree_add_subnode t (q ++ [b]) = None.
Proof.
  unfold tree_add_subnode, names_at. rewrite path_split_snoc. cbn. intros Hnames.
  destruct (fdt_alter _ _ _) as [t'|] eqn:H; [|reflexivity]. exfalso.
  destruct (fdt_alter_lookup _ _ _ _ (add_first_child_keeps_name b) H)
    as (n & n' & Hn & Hadd & _).
  rewrite Hn in Hnames. cbn in Hnames. injection Hnames as Hnames.
  unfold child_names in Hnames. unfold add_first_child in Hadd.
  destruct (node_children n) as [|c cs]; [discriminate|].
  cbn in Hnames. injection Hnames as Hc _.
  cbn [List.find] in Hadd. unfold select_child at 1 in Hadd.
  rewrite Hc, fdt_nodename_eq_refl in Hadd. discriminate.
Qed.

Lemma getprop_cell_same (fdt fdt' : fdt_blob) (p : path) (name : string)
    (offset : nat) :
  qemu_fdt_getprop fdt' p name = qemu_fdt_getprop fdt p name ->
  qemu_fdt_getprop_cell fdt' p name offset = qemu_fdt_getprop_cell fdt p name offset.
Proof. unfold qemu_fdt_getprop_cell. intros ->. reflexivity. Qed.

(** X28: the clone function is not repeatable.  On the tree of a run that
    made the helper, where the helper does not itself declare
    [compatible = "xlnx,zynq-qspi-1.0"], a second call finds the same
    controller, still marked dual, meets the helper as first child, and
    ends the process with status 1 when [qemu_fdt_add_subnode] refuses
    the node that is already there. *)
Theorem qspi_clone_not_repeatable (fdt fdt' : fdt_blob) (helper : path) :
  zynq7000_qspi_flash_node_clone fdt = Done (fdt', Some helper) ->
  qemu_fdt_getprop fdt' helper "compatible"
    <> Some (string_value "xlnx,zynq-qspi-1.0") ->
  zynq7000_qspi_flash_node_clone fdt' = Exit 1 "FDT: Failed to create subnode".
Proof.
  intros Hclone. unfold zynq7000_qspi_flash_node_clone in Hclone.
  destruct (qemu_devtree_node_by_compatible fdt _) as [q|] eqn:Hq; [|discriminate].
  destruct (qemu_fdt_getprop_cell fdt q "is-dual" 0 =? 1) eqn:Hdual.
  2:{ repeat (match type of Hclone with
              | context [match ?x with _ => _ end] => destruct x
              end; try discriminate). }
  set (fdt1 := fdt_setprop fdt q "#bus-cells" (cell_value 1)) in *.
  assert (W1 : writes_props fdt fdt1) by apply fdt_setprop_writes.
  rewrite (get_children_same_names fdt fdt1 q (proj1 W1)) in Hclone.
  destruct (qemu_devtree_get_children fdt q) as [|c0 cs] eqn:Hch; [discriminate|].
  destruct (get_children_below fdt q c0) as [s ->].
  { rewrite Hch. left. reflexivity. }
  set (fdt2 := fdt_setprop fdt1 (q ++ [s]) "reg" (cells_value [0; 0])) in *.
  destruct (qemu_fdt_getprop fdt1 (q ++ [s]) "compatible") as [bytes|];
    [|discriminate].
  apply bind_Done in Hclone as (fdt3 & H3 & Hclone).
  apply bind_Done in Hclone as (fdt4 & H4 & Hclone). injection Hclone as <- <-.
  unfold qemu_fdt_add_subnode in H3.
  destruct (tree_add_subnode _ _) as [t3|] eqn:Hadd; [|discriminate].
  injection H3 as <-.
  destruct (tree_add_subnode_lookup _ _ _ _ Hadd) as (n & Hn & Hn3 & Hnew).
  set (helper := q ++ [QSPI_DUMMY_NAME]) in *.
  set (fdt3 := blob_step fdt2 t3 (OpAddSubnode helper)) in *.
  unfold qemu_fdt_setprop_string, qemu_fdt_setprop in H4.
  change (fdt_root fdt3) with t3 in H4.
  destruct (tree_setprop t3 _ _ _) as [t4|] eqn:Hset4; [|discriminate].
  injection H4 as <-.
  set (fdt4 := blob_step fdt3 t4 _) in *.
  set (fdt5 := fdt_setprop fdt4 helper "reg" _).
  (* what the helper says of itself *)
  assert (Hhelper : qemu_fdt_getprop fdt5 helper "compatible"
                    = Some (string_value (cstring bytes))).
  { unfold fdt5. rewrite fdt_setprop_frame by discriminate.
    exact (tree_setprop_lookup _ _ _ _ _ Hset4). }
  intros Hne. rewrite Hhelper in Hne.
  assert (Hbytes : cstring bytes <> "xlnx,zynq-qspi-1.0"%string) by congruence.
  (* the second search finds the controller again *)
  assert (Hq5 : qemu_devtree_node_by_compatible fdt5 "xlnx,zynq-qspi-1.0" = Some q).
  { rewrite <- Hq. unfold qemu_devtree_node_by_compatible. f_equal.
    unfold fdt5. rewrite fdt_setprop_nodes_by_compatible by discriminate.
    unfold fdt4, blob_step.
    rewrite (tree_setprop_nodes_by_compatible_at fdt3 t4 _ helper _ _ _ _
               Hset4 Hnew).
    2:{ unfold fdt_node_check_compatible, set_prop. cbn [node_props].
        rewrite lookup_insert_eq, lookup_empty, stringlist_cstring.
        apply bool_decide_eq_false. intros Hin.
        apply list_elem_of_singleton in Hin. congruence. }
    unfold fdt3, blob_step.
    rewrite (tree_add_subnode_nodes_by_compatible fdt2 t3 helper _ _ Hadd).
    unfold fdt2. rewrite fdt_setprop_nodes_by_compatible by discriminate.
    unfold fdt1. rewrite fdt_setprop_nodes_by_compatible by discriminate.
    reflexivity. }
  (* the controller is still marked dual *)
  assert (Hdual5 : qemu_fdt_getprop_cell fdt5 q "is-dual" 0
                   = qemu_fdt_getprop_cell fdt q "is-dual" 0).
  { apply getprop_cell_same. unfold fdt5.
    rewrite fdt_setprop_frame by discriminate.
    transitivity (qemu_fdt_getprop fdt2 q "is-dual").
    - unfold qemu_fdt_getprop. cbn [fdt4 fdt3 blob_step fdt_root].
      pose proof (tree_setprop_frame _ _ _ _ _ q "is-dual" Hset4
                    ltac:(discriminate)) as Hfr.
      unfold prop_at in Hfr. rewrite Hfr, Hn3, Hn. reflexivity.
    - unfold fdt2. rewrite fdt_setprop_frame by discriminate.
      unfold fdt1. rewrite fdt_setprop_frame by discriminate. reflexivity. }
  (* the helper is the controller's first child *)
  assert (Hnames : exists names,
             names_at (fdt_root fdt5) q = Some (QSPI_DUMMY_NAME :: names)).
  { exists (child_names n). unfold fdt5.
    rewrite (proj1 (fdt_setprop_writes fdt4 helper "reg" _) q).
    cbn [fdt4 blob_step fdt_root].
    rewrite (tree_setprop_same_names _ _ _ _ _ Hset4 q).
    unfold names_at. rewrite Hn3. reflexivity. }
  destruct Hnames as [names Hnames].
  (* the second run *)
  unfold zynq7000_qspi_flash_node_clone. rewrite Hq5, Hdual5, Hdual.
  set (fdt6 := fdt_setprop fdt5 q "#bus-cells" (cell_value 1)).
  assert (W6 : writes_props fdt5 fdt6) by apply fdt_setprop_writes.
  rewrite (get_children_same_names fdt5 fdt6 q (proj1 W6)).
  rewrite get_children_names, Hnames. cbn [fmap list_fmap].
  fold helper.
  assert (Hcompat6 : qemu_fdt_getprop fdt6 helper "compatible"
                     = Some (string_value (cstring bytes))).
  { unfold fdt6. rewrite fdt_setprop_frame by discriminate. exact Hhelper. }
  rewrite Hcompat6.
  set (fdt7 := fdt_setprop fdt6 helper "reg" (cells_value [0; 0])).
  assert (Hnames7 : names_at (fdt_root fdt7) q = Some (QSPI_DUMMY_NAME :: names)).
  { unfold fdt7.
    rewrite (proj1 (fdt_setprop_writes fdt6 helper "reg" (cells_value [0; 0])) q).
    rewrite (proj1 W6 q). exact Hnames. }
  unfold qemu_fdt_add_subnode.
  replace (tree_add_subnode (fdt_root fdt7) helper) with (@None fdt_node)
    by (symmetry; exact (tree_add_subnode_exists _ q _ names Hnames7)).
  reflexivity.
Qed.

(** ** The machine init: the memory map and the world *)

(** A run of [arm_generic_fdt_init] that returns, with what it did to the
    world on the way. *)
Lemma arm_generic_fdt_init_world (host target : bool) (C H : Z)
    (load : string -> option (fdt_node * Z)) (create : fdt_node -> machine_objects)
    (machine : MachineState) (w : world) (fdt' : fdt_blob) (w' : world) :
  arm_generic_fdt_init host target C H load create machine w = Done (fdt', w') ->
  exists root sw fdt1 clone fdt2 node_path fdt3 mem_area w1,
    hw_description load machine = Some root
    /\ sw = match machine_opt_dtb machine with
            | Some f => load f
            | None => None
            end
    /\ (is_Some sw <-> is_Some (machine_opt_dtb machine))
    /\ (if machine_is_zynq_7000 machine
        then zynq7000_patches {| fdt_root := root; fdt_history := [] |}
        else Done ({| fdt_root := root; fdt_history := [] |}, None))
       = Done (fdt1, clone)
    /\ find_or_add_memory_node fdt1 (machine_ram_size machine)
       = Done (fdt2, node_path)
    /\ mark_memory_node fdt2 = Done fdt3
    /\ object_resolve_path (create (fdt_root fdt3)) node_path = Some mem_area
    /\ (if machine_is_zynq_7000 machine
        then map_memory_regions (create (fdt_root fdt3))
               (fdt_nodes_by_compatible (after_create_machine fdt3)
                  "qemu:memory-region")
               (world_after_class_check machine w) = Done w1
        else exists memory_max,
               scan_memory_max (after_create_machine fdt3) node_path
                 (fdt_nodes_by_compatible (after_create_machine fdt3)
                    "qemu:memory-region") 0 = Done memory_max
               /\ w1 = reconcile_ram C H (RegionOfNode node_path) memory_max
                         (machine_ram_size machine)
                         (world_after_class_check machine w))
    /\ (let fdt4 := remove_cloned_node (after_create_machine fdt3) clone in
        (if machine_is_zynq_7000 machine
         then zynq7000_usb_nuke_phy fdt4 else Done fdt4) = Done fdt')
    /\ (let binfo := generic_fdt_binfo machine (create (fdt_root fdt3))
                       mem_area sw in
        w' = match machine_kernel_filename machine with
             | Some _ => arm_load_kernel host target binfo
                           (world_set_binfo w1 binfo)
             | None => world_set_binfo w1 binfo
             end).
Proof.
  intros Hrun. unfold arm_generic_fdt_init in Hrun.
  match type of Hrun with
  | (let '(_, _) := ?flag in _) = _ => set (fl := flag) in Hrun
  end.
  assert (Hflag : fl = (machine_is_zynq_7000 machine,
                        world_after_class_check machine w)).
  { unfold fl, machine_is_zynq_7000, world_after_class_check.
    destruct (String.eqb _ ZYNQ7000_MACHINE_NAME);
      destruct (String.eqb _ DEP_GENERAL_MACHINE_NAME); reflexivity. }
  clearbody fl. subst fl. cbv beta iota in Hrun.
  destruct (bool_decide _ && bool_decide _) eqn:Hnull; [discriminate|].
  apply bind_Done in Hrun as (sw & Hsw & Hrun).
  apply bind_Done in Hrun as (hw & Hhw & Hrun).
  destruct hw as [[root size]|]; [|discriminate].
  assert (Hsw' : sw = match machine_opt_dtb machine with
                      | Some f => load f
                      | None => None
                      end).
  { destruct (machine_opt_dtb machine) as [f|]; [|congruence].
    destruct (load f); [congruence|discriminate]. }
  assert (Hsw'' : is_Some sw <-> is_Some (machine_opt_dtb machine)).
  { destruct (machine_opt_dtb machine) as [f|].
    - destruct (load f); [|discriminate]. injection Hsw as <-.
      split; eauto.
    - injection Hsw as <-. split; intros [x Hx]; discriminate Hx. }
  assert (Hdesc : hw_description load machine = Some root).
  { unfold hw_description.
    destruct (machine_opt_hw_dtb machine) as [f|].
    - destruct (load f); [|discriminate]. injection Hhw as ->. reflexivity.
    - injection Hhw as ->.
      destruct (machine_opt_dtb machine) as [f|]; [|discriminate]. cbn.
      destruct (load f); [|discriminate]. injection Hsw as ->. reflexivity. }
  apply bind_Done in Hrun as ([fdt1 clone] & Hpatch & Hrun).
  apply bind_Done in Hrun as ([fdt2 node_path] & Hmem & Hrun).
  apply bind_Done in Hrun as (fdt3 & Hmark & Hrun).
  cbv beta iota zeta delta [fdt_generic_create_machine] in Hrun.
  destruct (object_resolve_path _ node_path) as [mem_area|] eqn:Harea;
    [|discriminate].
  apply bind_Done in Hrun as (w1 & Hw1 & Hrun).
  apply bind_Done in Hrun as (w2 & Hw2 & Hrun).
  apply bind_Done in Hrun as (fdt5 & Husb & Hrun).
  injection Hrun as <- <-.
  exists root, sw, fdt1, clone, fdt2, node_path, fdt3, mem_area, w2.
  split; [exact Hdesc|]. split; [exact Hsw'|]. split; [exact Hsw''|].
  split; [exact Hpatch|].
  split; [exact Hmem|]. split; [exact Hmark|]. split; [exact Harea|].
  split; [|split; [exact Husb|reflexivity]].
  destruct (machine_is_zynq_7000 machine); cbn [negb] in Hw2.
  - injection Hw2 as <-. exact Hw1.
  - injection Hw1 as <-.
    apply bind_Done in Hw2 as (memory_max & Hscan & Hw2). injection Hw2 as <-.
    exists memory_max. split; [exact Hscan|reflexivity].
Qed.

(** The loop over the memory-region nodes only adds node regions to the
    system memory. *)
Lemma map_memory_regions_adds (objs : machine_objects) (regions : list path)
    (w w' : world) :
  map_memory_regions objs regions w = Done w' ->
  w_stderr w' = w_stderr w /\ w_ram_size w' = w_ram_size w
  /\ w_memory_opt_size w' = w_memory_opt_size w /\ w_binfo w' = w_binfo w
  /\ exists added,
       w_map w' = w_map w ++ added
       /\ Forall (fun m => exists p a, In p regions
                                       /\ m = MapNodeRegion SystemMemory p a) added.
Proof.
  revert w. induction regions as [|p regions IH]; intros w H;
    cbn [map_memory_regions] in H.
  - injection H as <-. repeat split. exists []. rewrite app_nil_r. auto.
  - destruct (object_resolve_path objs p) as [area|]; [|discriminate].
    destruct (IH _ H) as (Hs & Hr & Ho & Hb & added & Hmap & Hadded).
    assert (Hin : Forall (fun m => exists p0 a, In p0 (p :: regions)
                            /\ m = MapNodeRegion SystemMemory p0 a) added).
    { eapply Forall_impl; [exact Hadded|]. intros m (p0 & a & Hp0 & ->).
      exists p0, a. split; [right; exact Hp0|reflexivity]. }
    rewrite Hs, Hr, Ho, Hb, Hmap.
    destruct (negb (mro_mapped area)); cbn [world_map w_stderr w_ram_size
      w_memory_opt_size w_binfo w_map]; repeat split.
    + exists (MapNodeRegion SystemMemory p (mro_addr area) :: added).
      split; [rewrite <- app_assoc; reflexivity|].
      constructor; [|exact Hin]. exists p, (mro_addr area).
      split; [left|]; reflexivity.
    + exists added. auto.
Qed.

Lemma reconcile_ram_stderr (C H : Z) (area : container) (P R : Z) (w : world) :
  w_stderr (reconcile_ram C H area P R w) = w_stderr w
  /\ w_binfo (reconcile_ram C H area P R w) = w_binfo w.
Proof.
  unfold reconcile_ram. destruct (P <? R); [|auto].
  destruct (C <? R); destruct (negb _); auto.
Qed.

Lemma world_after_class_check_keeps (machine : MachineState) (w : world) :
  let w0 := world_after_class_check machine w in
  w_map w0 = w_map w /\ w_ram_size w0 = w_ram_size w
  /\ w_memory_opt_size w0 = w_memory_opt_size w /\ w_binfo w0 = w_binfo w
  /\ w_stderr w0 =
       w_stderr w ++
       (if String.eqb (machine_class_name machine) DEP_GENERAL_MACHINE_NAME
        then [DEPRECATION_MESSAGE] else []).
Proof.
  unfold world_after_class_check.
  destruct (String.eqb_spec (machine_class_name machine) ZYNQ7000_MACHINE_NAME)
    as [->|_].
  - cbn. rewrite app_nil_r. auto.
  - destruct (String.eqb _ DEP_GENERAL_MACHINE_NAME); cbn;
      rewrite ?app_nil_r; auto.
Qed.

Lemma after_load_kernel (host target : bool) (binfo : arm_boot_info) (w : world) :
  let w' := arm_load_kernel host target binfo w in
  w_stderr w' = w_stderr w /\ w_map w' = w_map w
  /\ w_ram_size w' = w_ram_size w
  /\ w_memory_opt_size w' = w_memory_opt_size w
  /\ w_binfo w' = w_binfo w.
Proof.
  unfold arm_load_kernel.
  destruct (bi_write_secondary_boot binfo) as [[]|]; [|cbn; auto].
  destruct (1 <? bi_nb_cpus binfo); cbn; auto.
Qed.

(** X22: a run of the machine init that returns has written one line to
    stderr, the deprecation notice, when the machine class is the
    deprecated ["arm-generic-fdt-plnx"], and nothing otherwise. *)
Theorem init_stderr_only_deprecation (host target : bool) (C H : Z)
    (load : string -> option (fdt_node * Z)) (create : fdt_node -> machine_objects)
    (machine : MachineState) (w : world) (fdt' : fdt_blob) (w' : world) :
  arm_generic_fdt_init host target C H load create machine w = Done (fdt', w') ->
  w_stderr w' =
    w_stderr w ++
    (if String.eqb (machine_class_name machine) DEP_GENERAL_MACHINE_NAME
     then [DEPRECATION_MESSAGE] else []).
Proof.
  intros Hrun.
  destruct (arm_generic_fdt_init_world _ _ _ _ _ _ _ _ _ _ Hrun)
    as (root & sw & fdt1 & clone & fdt2 & node_path & fdt3 & mem_area & w1
        & _ & _ & _ & _ & _ & _ & _ & Hw1 & _ & Hw').
  cbv zeta in Hw'.
  assert (H1 : w_stderr w1 = w_stderr (world_after_class_check machine w)).
  { destruct (machine_is_zynq_7000 machine).
    - apply (map_memory_regions_adds _ _ _ _ Hw1).
    - destruct Hw1 as (memory_max & _ & ->). apply reconcile_ram_stderr. }
  destruct (world_after_class_check_keeps machine w) as (_ & _ & _ & _ & H0).
  rewrite <- H0, <- H1. subst w'.
  destruct (machine_kernel_filename machine); [|reflexivity].
  rewrite (proj1 (after_load_kernel _ _ _ _)). reflexivity.
Qed.

(** X24: for the two Zynq-7000 machine classes the RAM request is not
    reconciled.  In a run that returns, the global RAM size and the
    memory options stay as they were, no RAM region is created, and all
    that is added to the memory map are regions of description nodes
    placed in the system memory. *)
Theorem zynq7000_machine_ignores_ram_request (host target : bool) (C H : Z)
    (load : string -> option (fdt_node * Z)) (create : fdt_node -> machine_objects)
    (machine : MachineState) (w : world) (fdt' : fdt_blob) (w' : world) :
  machine_is_zynq_7000 machine = true ->
  arm_generic_fdt_init host target C H load create machine w = Done (fdt', w') ->
  w_ram_size w' = w_ram_size w
  /\ w_memory_opt_size w' = w_memory_opt_size w
  /\ exists added,
       w_map w' = w_map w ++ added
       /\ Forall (fun m => exists p a, m = MapNodeRegion SystemMemory p a) added.
Proof.
  intros Hz Hrun.
  destruct (arm_generic_fdt_init_world _ _ _ _ _ _ _ _ _ _ Hrun)
    as (root & sw & fdt1 & clone & fdt2 & node_path & fdt3 & mem_area & w1
        & _ & _ & _ & _ & _ & _ & _ & Hw1 & _ & Hw').
  cbv zeta in Hw'. rewrite Hz in Hw1.
  destruct (map_memory_regions_adds _ _ _ _ Hw1)
    as (_ & Hr & Ho & _ & added & Hmap & Hadded).
  destruct (world_after_class_check_keeps machine w) as (Hm0 & Hr0 & Ho0 & _ & _).
  rewrite Hr0 in Hr. rewrite Ho0 in Ho. rewrite Hm0 in Hmap.
  assert (Hw : w_ram_size w' = w_ram_size w1
               /\ w_memory_opt_size w' = w_memory_opt_size w1
               /\ w_map w' = w_map w1).
  { subst w'. destruct (machine_kernel_filename machine); [|cbn; auto].
    destruct (after_load_kernel host target
                (generic_fdt_binfo machine (create (fdt_root fdt3)) mem_area sw)
                (world_set_binfo w1
                   (generic_fdt_binfo machine (create (fdt_root fdt3)) mem_area sw)))
      as (_ & Hm & Hr' & Ho' & _).
    rewrite Hm, Hr', Ho'. cbn. auto. }
  destruct Hw as (-> & -> & ->).
  split; [exact Hr|]. split; [exact Ho|].
  exists added. split; [exact Hmap|].
  eapply Forall_impl; [exact Hadded|]. intros m (p & a & _ & ->). eauto.
Qed.

(** X25: the general machine does not modify a description that has a
    memory node and a ["compatible"] property at ["/memory"]: after a run
    that returns, the tree is the loaded tree and the only operation
    recorded is the instantiation pass. *)
Theorem general_machine_keeps_complete_description (host target : bool) (C H : Z)
    (load : string -> option (fdt_node * Z)) (create : fdt_node -> machine_objects)
    (machine : MachineState) (w : world) (fdt' : fdt_blob) (w' : world)
    (root : fdt_node) (memory : path) (compat : string) :
  machine_is_zynq_7000 machine = false ->
  hw_description load machine = Some root ->
  qemu_devtree_get_node_by_name {| fdt_root := root; fdt_history := [] |} "memory"
    = Some memory ->
  qemu_fdt_getprop {| fdt_root := root; fdt_history := [] |} ["memory"%string]
    "compatible" = Some compat ->
  arm_generic_fdt_init host target C H load create machine w = Done (fdt', w') ->
  fdt_root fdt' = root /\ fdt_history fdt' = [OpCreateMachine].
Proof.
  intros Hz Hdesc Hmem Hcompat Hrun.
  destruct (arm_generic_fdt_init_world _ _ _ _ _ _ _ _ _ _ Hrun)
    as (root' & sw & fdt1 & clone & fdt2 & node_path & fdt3 & mem_area & w1
        & Hdesc' & _ & _ & Hpatch & Hfind & Hmark & _ & _ & Husb & _).
  rewrite Hdesc in Hdesc'. injection Hdesc' as <-.
  rewrite Hz in Hpatch, Husb. injection Hpatch as <- <-.
  unfold find_or_add_memory_node in Hfind. rewrite Hmem in Hfind.
  injection Hfind as <- <-.
  unfold mark_memory_node in Hmark. rewrite Hcompat in Hmark.
  injection Hmark as <-.
  cbv zeta in Husb. cbn [remove_cloned_node] in Husb. injection Husb as <-.
  split; reflexivity.
Qed.


(** ** The general machine and a description without memory node *)

Lemma added_memory_node_no_phandle (fdt2 fdt3 : fdt_blob) (root : fdt_node)
    (ram_size : Z) :
  fdt_root fdt2 =
    with_children root (added_memory_node ram_size :: node_children root) ->
  mark_memory_node fdt2 = Done fdt3 ->
  head (fdt_nodes_by_compatible (after_create_machine fdt3) "qemu:memory-region")
    = Some ["memory@0"%string]
  /\ qemu_fdt_get_phandle (after_create_machine fdt3) ["memory@0"%string]
     = Exit 1 "qemu_fdt_get_phandle: Couldn't get phandle".
Proof.
  intros Hroot Hmark. unfold mark_memory_node in Hmark.
  assert (Hget : qemu_fdt_getprop fdt2 ["memory"%string] "compatible" = None).
  { unfold qemu_fdt_getprop. rewrite Hroot. reflexivity. }
  rewrite Hget in Hmark.
  apply bind_Done in Hmark as (fa & Ha & Hb).
  unfold qemu_fdt_setprop_string, qemu_fdt_setprop in Ha. rewrite Hroot in Ha.
  match type of Ha with
  | match ?x with _ => _ end = _ =>
      let v := eval cbv [tree_setprop fdt_alter with_children node_children
                         alter_first node_name node_props] in x in
      change x with v in Ha
  end.
  change (select_child "memory" (added_memory_node ram_size)) with true in Ha.
  cbn [mbind option_bind] in Ha. injection Ha as <-.
  unfold qemu_fdt_setprop_cells, qemu_fdt_setprop in Hb.
  cbn [blob_step fdt_root] in Hb.
  match type of Hb with
  | match ?x with _ => _ end = _ =>
      let v := eval cbv [tree_setprop fdt_alter with_children node_children
                         alter_first node_name node_props] in x in
      change x with v in Hb
  end.
  match type of Hb with
  | context [select_child "memory" ?n] =>
      change (select_child "memory" n) with true in Hb
  end.
  cbn [mbind option_bind] in Hb. injection Hb as <-.
  split.
  - unfold fdt_nodes_by_compatible, after_create_machine.
    cbn [blob_step fdt_root]. rewrite fdt_subnodes_unfold.
    cbn [node_children flat_map app List.filter].
    match goal with
    | |- context [fdt_node_check_compatible ?n ?c] =>
        change (fdt_node_check_compatible n c) with true
    end.
    reflexivity.
  - unfold qemu_fdt_get_phandle, after_create_machine.
    cbn [blob_step fdt_root fdt_path_offset node_children List.find].
    match goal with
    | |- context [select_child "memory@0" ?n] =>
        change (select_child "memory@0" n) with true
    end.
    reflexivity.
Qed.

(** X26: the general machine (not a Zynq-7000 class) does not come up on
    a description without a memory node.  The node ["/memory@0"] the init
    adds has no phandle, it is itself the first top level memory region
    the scan meets, and [qemu_fdt_get_phandle] ends the process: no run
    returns. *)
Theorem general_machine_needs_memory_phandle (host target : bool) (C H : Z)
    (load : string -> option (fdt_node * Z)) (create : fdt_node -> machine_objects)
    (machine : MachineState) (w : world) (root : fdt_node) :
  machine_is_zynq_7000 machine = false ->
  hw_description load machine = Some root ->
  qemu_devtree_get_node_by_name {| fdt_root := root; fdt_history := [] |} "memory"
    = None ->
  forall r, arm_generic_fdt_init host target C H load create machine w <> Done r.
Proof.
  intros Hz Hdesc Hnone [fdt' w'] Hrun.
  destruct (arm_generic_fdt_init_world _ _ _ _ _ _ _ _ _ _ Hrun)
    as (root' & sw & fdt1 & clone & fdt2 & node_path & fdt3 & mem_area & w1
        & Hdesc' & _ & _ & Hpatch & Hfind & Hmark & _ & Hscan & _).
  rewrite Hdesc in Hdesc'. injection Hdesc' as <-.
  rewrite Hz in Hpatch, Hscan. injection Hpatch as <- <-.
  destruct (find_or_add_memory_node_adds {| fdt_root := root; fdt_history := [] |}
              (machine_ram_size machine) Hnone)
    as (fdt2' & Hfind' & _ & Hroot & _).
  rewrite Hfind in Hfind'. injection Hfind' as -> ->.
  cbn [fdt_root] in Hroot.
  destruct (added_memory_node_no_phandle _ _ _ _ Hroot Hmark) as [Hhead Hph].
  destruct Hscan as (memory_max & Hscan & _).
  destruct (fdt_nodes_by_compatible _ _) as [|p regions]; [discriminate|].
  injection Hhead as ->.
  cbn [scan_memory_max length Nat.eqb] in Hscan. rewrite Hph in Hscan.
  discriminate.
Qed.

(** ** The machine init without a description *)

(** X21: the machine init without a usable description.  With neither
    ["dtb"] nor ["hw-dtb"] given it ends in [hw_error]; when the ["dtb"]
    file does not load it ends in exit(1) with the diagnostic, also when
    ["hw-dtb"] is given and would load; when the ["hw-dtb"] file does not
    load it ends the same way. *)
Theorem init_needs_description (host target : bool) (C H : Z)
    (load : string -> option (fdt_node * Z)) (create : fdt_node -> machine_objects)
    (machine : MachineState) (w : world) :
  let run := arm_generic_fdt_init host target C H load create machine w in
  (machine_opt_dtb machine = None -> machine_opt_hw_dtb machine = None ->
   run = Abort)
  /\ (forall f, machine_opt_dtb machine = Some f -> load f = None ->
        run = Exit 1 "Error: Unable to load Device Tree")
  /\ (forall g, machine_opt_hw_dtb machine = Some g -> load g = None ->
        (forall f, machine_opt_dtb machine = Some f -> is_Some (load f)) ->
        run = Exit 1 "Error: Unable to load Device Tree").
Proof.
  cbv zeta. unfold arm_generic_fdt_init.
  destruct (if String.eqb _ _ then _ else _) as [zynq_7000 wp].
  split; [|split].
  - intros -> ->. reflexivity.
  - intros f -> ->. reflexivity.
  - intros g -> Hg Hf.
    destruct (machine_opt_dtb machine) as [f|].
    + destruct (Hf f eq_refl) as [t ->]. cbn. rewrite Hg. reflexivity.
    + cbn. rewrite Hg. reflexivity.
Qed.

(** ** The reconciler: what it never does *)

(** X20: [reconcile_ram] keeps the mappings that were there and adds at
    most two RAM regions, both in [mem_area]; none of them is empty and
    none is 2^64 bytes or more. *)
Theorem reconcile_ram_no_empty_region (C H : Z) (area : container) (P R : Z)
    (w : world) :
  0 <= C -> 0 <= R < 2 ^ 64 ->
  exists added,
    w_map (reconcile_ram C H area P R w) = w_map w ++ added
    /\ (length added <= 2)%nat
    /\ Forall (fun m => exists r, m = MapRam area r /\ 0 < rr_size r < 2 ^ 64)
              added.
Proof.
  intros HC HR. unfold reconcile_ram.
  assert (Hw : forall x, 0 <= wrap64 x < 2 ^ 64).
  { intros x. unfold wrap64. apply Z.mod_pos_bound. lia. }
  destruct (P <? R).
  2:{ exists []. cbn. rewrite app_nil_r. auto. }
  destruct (Z.ltb_spec C R) as [HCR|HCR].
  - assert (Hhigh : 0 < wrap64 (R - C) < 2 ^ 64).
    { rewrite wrap64_small by lia. lia. }
    destruct (Z.eqb_spec (wrap64 (C - P)) 0) as [Hz|Hnz]; cbn [negb].
    + eexists [_]. cbn [world_map w_map length]. split; [reflexivity|].
      split; [lia|]. constructor; [|constructor]. eexists. split; [reflexivity|].
      exact Hhigh.
    + eexists [_; _]. cbn [world_map w_map length].
      split; [rewrite <- app_assoc; reflexivity|]. split; [lia|].
      constructor; [|constructor; [|constructor]].
      * eexists. split; [reflexivity|]. exact Hhigh.
      * eexists. split; [reflexivity|]. cbn [rr_size].
        pose proof (Hw (C - P)). lia.
  - destruct (Z.eqb_spec (wrap64 (R - P)) 0) as [Hz|Hnz]; cbn [negb].
    + exists []. rewrite app_nil_r. auto.
    + eexists [_]. cbn [world_map w_map length]. split; [reflexivity|].
      split; [lia|]. constructor; [|constructor]. eexists. split; [reflexivity|].
      cbn [rr_size]. pose proof (Hw (R - P)). lia.
Qed.

(** X19: with the described amount [P] above the ceiling [C] and below
    the request [R], [reconcile_ram] makes the high region [R - C] bytes
    large (not [R - P]) and asks for a low region of [2^64 - (P - C)] bytes
    at offset [P]: the subtraction [C - P] has wrapped around. *)
Theorem reconcile_ram_above_ceiling (C H : Z) (area : container) (P R : Z)
    (w : world) :
  0 <= C -> C < P -> P < R -> R < 2 ^ 64 ->
  w_map (reconcile_ram C H area P R w) =
    w_map w ++
    [MapRam area {| rr_name := "ddr-ram-high"; rr_size := R - C;
                    rr_offset := H |};
     MapRam area {| rr_name := "ddr-ram-low"; rr_size := 2 ^ 64 - (P - C);
                    rr_offset := P |}].
Proof.
  intros HC HCP HPR HR. unfold reconcile_ram.
  destruct (Z.ltb_spec P R); [|lia]. destruct (Z.ltb_spec C R); [|lia].
  rewrite (wrap64_small (R - C)) by lia.
  assert (Hlow : wrap64 (C - P) = 2 ^ 64 - (P - C)).
  { unfold wrap64. symmetry. apply (Z.mod_unique _ _ (-1)); lia. }
  rewrite Hlow. destruct (Z.eqb_spec (2 ^ 64 - (P - C)) 0); [lia|].
  cbn [negb world_map w_map]. rewrite <- app_assoc. reflexivity.
Qed.

(** ** The scan for the described amount *)

Lemma memory_reg_value_range (fdt : fdt_blob) (p : path) :
  0 <= memory_reg_value fdt p < 2 ^ 64.
Proof. unfold memory_reg_value, wrap64. apply Z.mod_pos_bound. lia. Qed.

Lemma largest_described_skip (fdt : fdt_blob) (ph : Z) (p : path)
    (regions : list path) (start mm : Z) :
  counted_region fdt ph p = false ->
  largest_described fdt ph regions start mm ->
  largest_described fdt ph (p :: regions) start mm.
Proof.
  intros Hc (Hle & Hall & Hex). split; [exact Hle|]. split.
  - intros p0 [<-|Hp0] Hc0; [congruence|exact (Hall p0 Hp0 Hc0)].
  - destruct Hex as [->|(p0 & Hp0 & Hc0 & Hv)]; [left; reflexivity|].
    right. exists p0. split; [right; exact Hp0|auto].
Qed.

Lemma largest_described_count (fdt : fdt_blob) (ph : Z) (p : path)
    (regions : list path) (start mm : Z) :
  counted_region fdt ph p = true ->
  largest_described fdt ph regions
    (if start <? memory_reg_value fdt p then memory_reg_value fdt p else start)
    mm ->
  largest_described fdt ph (p :: regions) start mm.
Proof.
  intros Hc (Hle & Hall & Hex).
  destruct (Z.ltb_spec start (memory_reg_value fdt p)) as [Hlt|Hge].
  - split; [lia|]. split.
    + intros p0 [<-|Hp0] Hc0; [exact Hle|exact (Hall p0 Hp0 Hc0)].
    + right. destruct Hex as [->|(p0 & Hp0 & Hc0 & Hv)].
      * exists p. split; [left; reflexivity|auto].
      * exists p0. split; [right; exact Hp0|auto].
  - split; [exact Hle|]. split.
    + intros p0 [<-|Hp0] Hc0; [lia|exact (Hall p0 Hp0 Hc0)].
    + destruct Hex as [->|(p0 & Hp0 & Hc0 & Hv)]; [left; reflexivity|].
      right. exists p0. split; [right; exact Hp0|auto].
Qed.

(** X17: the scan for the described amount, when the main memory node has
    a phandle.  The scan returns, and what it returns is the largest of the
    start value and the amounts of the regions it counts: those at top
    level whose ["container"] cell is that phandle. *)
Theorem scan_memory_max_is_maximum (fdt : fdt_blob) (node_path : path)
    (regions : list path) (start ph : Z) :
  qemu_fdt_get_phandle fdt node_path = Done ph ->
  exists memory_max,
    scan_memory_max fdt node_path regions start = Done memory_max
    /\ largest_described fdt ph regions start memory_max.
Proof.
  intros Hph. revert start.
  induction regions as [|p regions IH]; intros start; cbn [scan_memory_max].
  - exists start. split; [reflexivity|]. split; [lia|].
    split; [intros p []|left; reflexivity].
  - destruct (length p =? 1)%nat eqn:Hl.
    2:{ destruct (IH start) as (mm & Hrun & Hpost). exists mm.
        split; [exact Hrun|]. apply largest_described_skip; [|exact Hpost].
        unfold counted_region. rewrite Hl. reflexivity. }
    rewrite Hph. cbn [mbind outcome_bind].
    destruct (qemu_fdt_getprop_cell fdt p "container" 0 =? ph) eqn:Hcont;
      cbn [negb].
    + destruct (IH (if start <? memory_reg_value fdt p
                    then memory_reg_value fdt p else start))
        as (mm & Hrun & Hpost).
      exists mm. split; [exact Hrun|].
      apply largest_described_count; [|exact Hpost].
      unfold counted_region. rewrite Hl, Hcont. reflexivity.
    + destruct (IH start) as (mm & Hrun & Hpost). exists mm.
      split; [exact Hrun|]. apply largest_described_skip; [|exact Hpost].
      unfold counted_region. rewrite Hl, Hcont. reflexivity.
Qed.

(** ** The MDIO connect task: when it attaches, when it aborts *)

Lemma mdio_run_app (node_path : path) (Opaque : Object)
    (s1 s2 : list (list (path * Object))) (task : mdio_task) (bw : builder_world) :
  mdio_run node_path Opaque (s1 ++ s2) task bw =
    mdio_run node_path Opaque s2
      (mdio_run node_path Opaque s1 task bw).1
      (mdio_run node_path Opaque s1 task bw).2.
Proof.
  revert task bw. induction s1 as [|regs s1 IH]; intros task bw;
    cbn [app mdio_run]; [reflexivity|].
  destruct (zynq7000_mdio_phy_connect _ _ _ _) as [task' bw']. apply IH.
Qed.

(** A task that has returned or aborted does nothing more. *)
Lemma mdio_run_settled (node_path : path) (Opaque : Object)
    (schedule : list (list (path * Object))) (task : mdio_task)
    (bw : builder_world) :
  mdio_settled task = true ->
  let '(task', bw') := mdio_run node_path Opaque schedule task bw in
  task' = task /\ bw_children bw' = bw_children bw
  /\ bw_links bw' = bw_links bw /\ bw_trace bw' = bw_trace bw.
Proof.
  intros Hs. revert bw. induction schedule as [|regs schedule IH]; intros bw;
    cbn [mdio_run]; [auto|].
  destruct task; try discriminate; cbn [zynq7000_mdio_phy_connect];
    specialize (IH (others_register bw regs));
    destruct (mdio_run _ _ _ _ _) as [task' bw']; exact IH.
Qed.

Lemma get_opaque_set (fdti : FDTMachineInfo) (p q : path) (o : Object) :
  fdt_init_get_opaque (fdt_init_set_opaque fdti p o) q =
    if bool_decide (p = q) then o else fdt_init_get_opaque fdti q.
Proof.
  unfold fdt_init_get_opaque, fdt_init_set_opaque. cbn [fdti_dev_opaques].
  destruct (decide (p = q)) as [->|Hne].
  - rewrite lookup_insert_eq, (bool_decide_eq_true_2 (q = q)) by reflexivity.
    reflexivity.
  - rewrite lookup_insert_ne, (bool_decide_eq_false_2 (p = q)) by assumption.
    reflexivity.
Qed.

(** What the others publish under a path: the last registration counts. *)
Lemma get_opaque_others (regs1 regs2 : list (path * Object))
    (fdti : FDTMachineInfo) (q : path) (o : Object) :
  q ∉ regs2.*1 ->
  fdt_init_get_opaque
    (fold_left (fun fdti r => fdt_init_set_opaque fdti r.1 r.2)
               (regs1 ++ (q, o) :: regs2) fdti) q = o
  /\ fdt_init_has_opaque
       (fold_left (fun fdti r => fdt_init_set_opaque fdti r.1 r.2)
                  (regs1 ++ (q, o) :: regs2) fdti) q = true.
Proof.
  intros Hnot. rewrite fold_left_app. cbn [fold_left fst snd].
  generalize (fold_left (fun fdti r => fdt_init_set_opaque fdti r.1 r.2)
                        regs1 fdti).
  intros fdti1.
  assert (Hstart : fdt_init_get_opaque (fdt_init_set_opaque fdti1 q o) q = o
                   /\ fdt_init_has_opaque (fdt_init_set_opaque fdti1 q o) q = true).
  { rewrite get_opaque_set, has_opaque_set.
    rewrite (bool_decide_eq_true_2 (q = q)) by reflexivity. auto. }
  revert Hstart. generalize (fdt_init_set_opaque fdti1 q o). intros fdti2.
  revert fdti2. induction regs2 as [|[p o'] regs2 IH]; intros fdti2 Hstart;
    cbn [fold_left]; [exact Hstart|].
  cbn [fmap list_fmap fst] in Hnot. apply not_elem_of_cons in Hnot as [Hne Hnot].
  apply (IH Hnot). cbn [fst snd]. rewrite get_opaque_set, has_opaque_set.
  rewrite (bool_decide_eq_false_2 (p = q)) by congruence. exact Hstart.
Qed.

Lemma mdio_wake (node_path : path) (Opaque : Object) (parent : path)
    (regs1 regs2 : list (path * Object)) (obj : Object) (bw : builder_world) :
  parent ∉ regs2.*1 ->
  zynq7000_mdio_phy_connect node_path Opaque (MdioYielded parent)
    (others_register bw (regs1 ++ (parent, obj) :: regs2)) =
  (MdioReturned 0,
   {| bw_fdti := bw_fdti (others_register bw (regs1 ++ (parent, obj) :: regs2));
      bw_children := bw_children bw ++ [(obj, "mdio_child"%string, Opaque)];
      bw_links := bw_links bw ++ [(obj, "mdio"%string, Opaque)];
      bw_trace := bw_trace bw ++ [EvAddChild obj "mdio_child" Opaque;
                                  EvSetLink obj "mdio" Opaque] |}).
Proof.
  intros Hnot. cbn [zynq7000_mdio_phy_connect]. unfold mdio_wait_for_parent.
  destruct (get_opaque_others regs1 regs2 (bw_fdti bw) parent obj Hnot)
    as [Hget Hhas].
  set (fdti0 := bw_fdti (others_register bw (regs1 ++ (parent, obj) :: regs2))).
  assert (Hget0 : fdt_init_get_opaque fdti0 parent = obj) by exact Hget.
  assert (Hhas0 : fdt_init_has_opaque fdti0 parent = true) by exact Hhas.
  rewrite Hhas0, Hget0. reflexivity.
Qed.

Lemma mdio_enter_and_attach (node_path : path) (Opaque : Object) (parent : path)
    (regs1 regs2 : list (path * Object)) (obj : Object) (bw : builder_world) :
  qemu_devtree_getparent (fdti_fdt (bw_fdti bw)) node_path = Some parent ->
  parent ∉ regs2.*1 ->
  exists fdti,
    zynq7000_mdio_phy_connect node_path Opaque MdioEntry
      (others_register bw (regs1 ++ (parent, obj) :: regs2)) =
    (MdioReturned 0,
     {| bw_fdti := fdti;
        bw_children := bw_children bw ++ [(obj, "mdio_child"%string, Opaque)];
        bw_links := bw_links bw ++ [(obj, "mdio"%string, Opaque)];
        bw_trace := bw_trace bw ++ [EvSetOpaque node_path Opaque;
                                    EvAddChild obj "mdio_child" Opaque;
                                    EvSetLink obj "mdio" Opaque] |}).
Proof.
  intros Hparent Hnot. cbn [zynq7000_mdio_phy_connect].
  cbn [bw_fdti fdt_init_set_opaque fdti_fdt].
  rewrite others_register_fdt, Hparent.
  unfold mdio_wait_for_parent. cbn [bw_fdti bw_children bw_links bw_trace].
  destruct (get_opaque_others regs1 regs2 (bw_fdti bw) parent obj Hnot)
    as [Hget Hhas].
  set (fdti0 := bw_fdti (others_register bw (regs1 ++ (parent, obj) :: regs2))).
  assert (Hget0 : fdt_init_get_opaque fdti0 parent = obj) by exact Hget.
  assert (Hhas0 : fdt_init_has_opaque fdti0 parent = true) by exact Hhas.
  change ({| fdti_fdt := fdti_fdt fdti0;
             fdti_dev_opaques := <[node_path:=Opaque]> (fdti_dev_opaques fdti0) |})
    with (fdt_init_set_opaque fdti0 node_path Opaque).
  rewrite has_opaque_set, get_opaque_set, Hhas0, Hget0.
  rewrite (bool_decide_eq_false_2 (node_path = parent))
    by (eapply getparent_differs; exact Hparent).
  cbn [orb]. eexists. f_equal. f_equal.
  cbn [others_register bw_trace]. rewrite <- app_assoc. reflexivity.
Qed.

(** X15: the MDIO connect task attaches as soon as its parent is
    published.  If the parent's instance is registered, last as [obj],
    just before a turn of the task and not earlier, then the task has
    yielded once in each turn before, returns 0 in that turn having made
    itself the ["mdio_child"] of [obj] and the target of [obj]'s ["mdio"]
    link, and its later turns change nothing. *)
Theorem mdio_attaches_when_parent_appears (node_path : path) (Opaque : Object)
    (parent : path) (before after : list (list (path * Object)))
    (regs1 regs2 : list (path * Object)) (obj : Object) (bw : builder_world) :
  qemu_devtree_getparent (fdti_fdt (bw_fdti bw)) node_path = Some parent ->
  fdt_init_has_opaque (bw_fdti bw) parent = false ->
  Forall (fun regs => parent ∉ regs.*1) before ->
  parent ∉ regs2.*1 ->
  let '(task, bw') :=
    mdio_run node_path Opaque
      (before ++ (regs1 ++ (parent, obj) :: regs2) :: after) MdioEntry bw in
  task = MdioReturned 0
  /\ bw_trace bw' =
       bw_trace bw ++ EvSetOpaque node_path Opaque
         :: repeat EvYield (length before)
         ++ [EvAddChild obj "mdio_child" Opaque; EvSetLink obj "mdio" Opaque]
  /\ bw_children bw' = bw_children bw ++ [(obj, "mdio_child"%string, Opaque)]
  /\ bw_links bw' = bw_links bw ++ [(obj, "mdio"%string, Opaque)].
Proof.
  intros Hparent Habsent Hbefore Hnot.
  rewrite mdio_run_app.
  destruct before as [|regs0 before].
  - cbn [mdio_run fst snd length repeat app].
    destruct (mdio_enter_and_attach node_path Opaque parent regs1 regs2 obj bw
                Hparent Hnot) as [fdti ->].
    pose proof (mdio_run_settled node_path Opaque after (MdioReturned 0)
                  {| bw_fdti := fdti;
                     bw_children := bw_children bw ++ [(obj, "mdio_child"%string, Opaque)];
                     bw_links := bw_links bw ++ [(obj, "mdio"%string, Opaque)];
                     bw_trace := bw_trace bw ++ [EvSetOpaque node_path Opaque;
                                                 EvAddChild obj "mdio_child" Opaque;
                                                 EvSetLink obj "mdio" Opaque] |}
                  eq_refl) as Hrest.
    destruct (mdio_run _ _ after _ _) as [task' bw'].
    destruct Hrest as (-> & -> & -> & ->). cbn [bw_children bw_links bw_trace].
    auto.
  - destruct (mdio_run_entry_parked node_path Opaque parent (regs0 :: before) bw
                Hparent Habsent Hbefore ltac:(discriminate)) as [fdti ->].
    cbn [fst snd]. cbn [mdio_run].
    set (bwk := {| bw_fdti := fdti; bw_children := _; bw_links := _;
                   bw_trace := _ |}).
    rewrite (mdio_wake node_path Opaque parent regs1 regs2 obj bwk Hnot).
    match goal with
    | |- context [mdio_run _ _ after (MdioReturned 0) ?b] =>
        pose proof (mdio_run_settled node_path Opaque after (MdioReturned 0) b
                      eq_refl) as Hrest
    end.
    destruct (mdio_run _ _ after _ _) as [task' bw'].
    destruct Hrest as (-> & -> & -> & ->).
    cbn [bw_children bw_links bw_trace bwk].
    split; [reflexivity|]. split; [|auto].
    rewrite <- app_assoc. reflexivity.
Qed.

Lemma path_split_cons (s : string) (p : path) :
  exists d b, path_split (s :: p) = Some (d, b).
Proof.
  revert s. induction p as [|s' p IH]; intros s.
  - exists [], s. reflexivity.
  - destruct (IH s') as (d & b & Hsplit). exists (s :: d), b.
    change (path_split (s :: s' :: p))
      with ('(d, b) ← path_split (s' :: p); Some (s :: d, b)).
    rewrite Hsplit. reflexivity.
Qed.

Lemma mdio_run_no_abort (node_path : path) (Opaque : Object)
    (schedule : list (list (path * Object))) (task : mdio_task)
    (bw : builder_world) :
  task <> MdioEntry -> task <> MdioAborted ->
  (mdio_run node_path Opaque schedule task bw).1 <> MdioAborted.
Proof.
  revert task bw. induction schedule as [|regs schedule IH]; intros task bw He Ha;
    cbn [mdio_run]; [exact Ha|].
  destruct task as [|parent|ret|]; try congruence;
    cbn [zynq7000_mdio_phy_connect].
  - unfold mdio_wait_for_parent.
    destruct (fdt_init_has_opaque _ _); apply IH; discriminate.
  - apply IH; discriminate.
Qed.

(** X16: the MDIO connect task ends in [abort()] exactly when its node has
    no parent in the tree, that is, when its path is the root's or does
    not resolve; with a parent in the tree no schedule makes it abort. *)
Theorem mdio_aborts_iff_no_parent (node_path : path) (Opaque : Object)
    (regs : list (path * Object)) (schedule : list (list (path * Object)))
    (bw : builder_world) :
  (mdio_run node_path Opaque (regs :: schedule) MdioEntry bw).1 = MdioAborted
  <-> (node_path = []
       \/ fdt_path_offset (fdt_root (fdti_fdt (bw_fdti bw))) node_path = None).
Proof.
  assert (Hparent : qemu_devtree_getparent (fdti_fdt (bw_fdti bw)) node_path = None
                    <-> (node_path = []
                         \/ fdt_path_offset (fdt_root (fdti_fdt (bw_fdti bw)))
                              node_path = None)).
  { unfold qemu_devtree_getparent.
    destruct (fdt_path_offset _ node_path) as [n|].
    - destruct node_path as [|s p].
      + cbn. split; auto.
      + destruct (path_split_cons s p) as (d & b & ->).
        split; [discriminate|]. intros [?|?]; discriminate.
    - split; auto. }
  rewrite <- Hparent. clear Hparent.
  cbn [mdio_run zynq7000_mdio_phy_connect].
  cbn [bw_fdti fdt_init_set_opaque fdti_fdt].
  rewrite others_register_fdt.
  destruct (qemu_devtree_getparent _ node_path) as [parent|].
  - split; [|discriminate]. intros Habort. exfalso. revert Habort.
    unfold mdio_wait_for_parent.
    destruct (fdt_init_has_opaque _ _); apply mdio_run_no_abort; discriminate.
  - split; [reflexivity|]. intros _.
    match goal with
    | |- (mdio_run _ _ _ MdioAborted ?b).1 = _ =>
        pose proof (mdio_run_settled node_path Opaque schedule MdioAborted b
                      eq_refl) as H
    end.
    destruct (mdio_run _ _ schedule _ _) as [task' bw']. apply H.
Qed.

(** ** The Zynq-7000 machine: the spin code lies in the on-chip memory *)

Lemma reconcile_ram_map_grows (C H : Z) (area : container) (P R : Z) (w : world) :
  exists added, w_map (reconcile_ram C H area P R w) = w_map w ++ added.
Proof.
  unfold reconcile_ram. destruct (P <? R).
  - destruct (C <? R); destruct (negb _); cbn [world_map w_map].
    + eexists. rewrite <- app_assoc. reflexivity.
    + eexists. reflexivity.
    + eexists. reflexivity.
    + exists []. rewrite app_nil_r. reflexivity.
  - exists []. rewrite app_nil_r. reflexivity.
Qed.

Lemma init_map_grows (host target : bool) (C H : Z)
    (load : string -> option (fdt_node * Z)) (create : fdt_node -> machine_objects)
    (machine : MachineState) (w : world) (fdt' : fdt_blob) (w' : world) :
  arm_generic_fdt_init host target C H load create machine w = Done (fdt', w') ->
  exists added, w_map w' = w_map w ++ added.
Proof.
  intros Hrun.
  destruct (arm_generic_fdt_init_world _ _ _ _ _ _ _ _ _ _ Hrun)
    as (root & sw & fdt1 & clone & fdt2 & node_path & fdt3 & mem_area & w1
        & _ & _ & _ & _ & _ & _ & _ & Hw1 & _ & Hw').
  cbv zeta in Hw'.
  destruct (world_after_class_check_keeps machine w) as (Hm0 & _).
  assert (H1 : exists added, w_map w1 = w_map w ++ added).
  { rewrite <- Hm0. destruct (machine_is_zynq_7000 machine).
    - destruct (map_memory_regions_adds _ _ _ _ Hw1)
        as (_ & _ & _ & _ & added & Hmap & _). eauto.
    - destruct Hw1 as (memory_max & _ & ->). apply reconcile_ram_map_grows. }
  destruct H1 as [added H1]. exists added. rewrite <- H1. subst w'.
  destruct (machine_kernel_filename machine); [|reflexivity].
  destruct (after_load_kernel host target
              (generic_fdt_binfo machine (create (fdt_root fdt3)) mem_area sw)
              (world_set_binfo w1
                 (generic_fdt_binfo machine (create (fdt_root fdt3)) mem_area sw)))
    as (_ & -> & _). reflexivity.
Qed.

Lemma mem_bytes32_length (order : bool) (x : Z) : length (mem_bytes32 order x) = 4%nat.
Proof. destruct order; reflexivity. Qed.

Lemma smpboot_blob_length (order : bool) (l : list Z) :
  length (flat_map (mem_bytes32 order) l) = (4 * length l)%nat.
Proof.
  induction l as [|x l IH]; [reflexivity|].
  cbn [flat_map]. rewrite length_app, mem_bytes32_length, IH. cbn [length]. lia.
Qed.

(** X27: [arm_generic_fdt_7000_init] maps 256K of on-chip memory at
    0xFFFC0000, and what the kernel loader deposits for the secondary CPUs
    lies inside it: the blob starts at the descriptor's secondary loader
    start and ends at or below the end of the on-chip memory, and the boot
    register address lies inside as well. *)
Theorem zynq7000_spin_code_in_ocm (host target : bool) (C H : Z)
    (load : string -> option (fdt_node * Z)) (create : fdt_node -> machine_objects)
    (pflash_drive : bool) (machine : MachineState) (w : world)
    (calls : list device_call) (fdt' : fdt_blob) (w' : world) :
  length (w_smpboot w) = 2%nat ->
  arm_generic_fdt_7000_init host target C H load create pflash_drive machine w
    = Done (calls, fdt', w') ->
  In (MapRam SystemMemory zynq_ocm_ram) (w_map w')
  /\ inside_region zynq_ocm_ram (bi_smp_bootreg_addr (w_binfo w')) 4
  /\ exists deposited,
       w_roms w' = w_roms w ++ deposited
       /\ Forall (fun rom =>
                    rom_addr rom = bi_smp_loader_start (w_binfo w')
                    /\ inside_region zynq_ocm_ram (rom_addr rom)
                         (Z.of_nat (length (rom_data rom))))
                 deposited.
Proof.
  intros Hlen Hrun. unfold arm_generic_fdt_7000_init in Hrun.
  apply bind_Done in Hrun as ([fdt1 w1] & Hinit & Hrun).
  injection Hrun as <- <- <-.
  split.
  { destruct (init_map_grows _ _ _ _ _ _ _ _ _ _ Hinit) as [added ->].
    cbn [world_map w_map]. apply in_or_app. left. apply in_or_app. right.
    left. reflexivity. }
  destruct (arm_generic_fdt_init_Done _ _ _ _ _ _ _ _ _ _ Hinit)
    as (root & sw & fdt1' & clone & fdt2 & node_path & fdt3 & mem_area & w2
        & _ & _ & _ & _ & _ & Hroms & Hsmp & _ & Hw').
  cbv zeta in Hw'. cbn [world_map w_roms w_smpboot] in Hroms, Hsmp.
  subst w1.
  destruct (machine_kernel_filename machine) as [kernel|].
  - unfold arm_load_kernel.
    cbn [generic_fdt_binfo bi_write_secondary_boot bi_nb_cpus].
    destruct (1 <? fdt_generic_num_cpus _);
      cbn [w_binfo w_roms w_smpboot world_set_binfo arm_write_secondary_boot
           generic_fdt_binfo bi_smp_loader_start bi_smp_bootreg_addr].
    + split; [vm_compute; split; discriminate|].
      eexists [_]. rewrite Hroms. split; [reflexivity|].
      constructor; [|constructor]. cbn [rom_addr rom_data].
      split; [reflexivity|].
      rewrite smpboot_blob_length, length_fmap, Hsmp, Hlen.
      vm_compute. split; discriminate.
    + split; [vm_compute; split; discriminate|].
      exists []. rewrite Hroms, app_nil_r. auto.
  - cbn [w_binfo w_roms world_set_binfo generic_fdt_binfo bi_smp_loader_start
         bi_smp_bootreg_addr].
    split; [vm_compute; split; discriminate|].
    exists []. rewrite Hroms, app_nil_r. auto.
Qed.

(** ** The statements at work on the test data *)

Lemma zynq_init_ram_below_devices_witness :
  NoDup (device_bases (lb_calls (sample_board 3)))
  /\ forall size base,
       In size (ram_inits "zynq.ext_ram" (lb_calls (sample_board 3))) ->
       In base (device_bases (lb_calls (sample_board 3))) ->
       size <= 0x80000000 /\ 0xE0000000 <= base.
Proof.
  exact (zynq_init_ram_below_devices (fun _ => true) 3 sample_args
           (sample_board 3) ltac:(vm_compute; reflexivity)).
Defined.

Lemma zynq_init_irqs_in_bounds_witness :
  NoDup (pic_inputs (lb_calls (sample_board 3)))
  /\ Forall (fun n => 0 <= n < 64) (pic_inputs (lb_calls (sample_board 3))).
Proof.
  exact (zynq_init_irqs_in_bounds (fun _ => true) 3 sample_args
           (sample_board 3) ltac:(vm_compute; reflexivity)).
Defined.

Lemma zynq_init_two_nics_at_most_witness :
  created "cadence_gem" (lb_calls (sample_board 3)) = 2%nat
  /\ nics_used (lb_calls (sample_board 3)) = [0; 1]%nat.
Proof.
  exact (zynq_init_two_nics_at_most (fun _ => true) 3 sample_args
           (sample_board 3) ltac:(vm_compute; reflexivity)).
Defined.

Lemma zynq_init_loads_kernel_last_witness :
  last (lb_calls (sample_board 1)) = Some ArmLoadKernel
  /\ length (List.filter is_arm_load_kernel (lb_calls (sample_board 1))) = 1%nat
  /\ bi_nb_cpus (lb_binfo (sample_board 1)) = 1
  /\ In (QdevPropSetUint "num-cpu" 1) (lb_calls (sample_board 1)).
Proof.
  exact (zynq_init_loads_kernel_last (fun _ => true) 1 sample_args
           (sample_board 1) ltac:(vm_compute; reflexivity)).
Defined.

Lemma arm_write_secondary_boot_twice_witness :
  let w2 := arm_write_secondary_boot false true
              (arm_write_secondary_boot false true (world_at_start 0)) in
  w_smpboot w2 = w_smpboot (world_at_start 0)
  /\ rom_data <$> last_rom (arm_write_secondary_boot false true w2)
     = rom_data <$> last_rom (arm_write_secondary_boot false true
                                (world_at_start 0)).
Proof.
  exact (arm_write_secondary_boot_twice false true (world_at_start 0)
           ltac:(repeat constructor; vm_compute; discriminate)).
Defined.

Lemma quirk_target_present_patched_witness :
  exists fdt',
    zynq7000_usb_nuke_phy sample_quirk_fdt = Done fdt'
    /\ qemu_fdt_getprop fdt' sample_usb_path "dr_mode" = Some (string_value "host")
    /\ fdt_history fdt'
       = fdt_history sample_quirk_fdt
         ++ [OpSetProp sample_usb_path "dr_mode" (string_value "host")]
    /\ same_shape sample_quirk_fdt fdt'
    /\ forall p other, other <> "dr_mode"%string ->
         qemu_fdt_getprop fdt' p other = qemu_fdt_getprop sample_quirk_fdt p other.
Proof.
  exact (proj1 (quirk_target_present_patched sample_quirk_fdt
                  ltac:(vm_compute; reflexivity))
           sample_usb_path ltac:(vm_compute; reflexivity)).
Defined.

Lemma property_quirks_idempotent_witness :
  exists fdt'',
    zynq7000_usb_nuke_phy
      (sample_outcome sample_quirk_fdt (zynq7000_usb_nuke_phy sample_quirk_fdt))
    = Done fdt''
    /\ fdt_root fdt''
       = fdt_root (sample_outcome sample_quirk_fdt
                     (zynq7000_usb_nuke_phy sample_quirk_fdt)).
Proof.
  exact (proj1 property_quirks_idempotent sample_quirk_fdt
           (sample_outcome sample_quirk_fdt (zynq7000_usb_nuke_phy sample_quirk_fdt))
           ltac:(vm_compute; reflexivity)).
Defined.

Lemma reset_cbar_on_every_a9_witness :
  exists fdt',
    zynq7000_reset_cbar_patch sample_quirk_fdt = Done fdt'
    /\ same_shape sample_quirk_fdt fdt'
    /\ fdt_nodes_by_compatible fdt' "arm,cortex-a9"
       = fdt_nodes_by_compatible sample_quirk_fdt "arm,cortex-a9"
    /\ forall p, In p (fdt_nodes_by_compatible fdt' "arm,cortex-a9") ->
         qemu_fdt_getprop_cell fdt' p "reset-cbar" 0 = 0xF8F00000.
Proof.
  exact (reset_cbar_on_every_a9 sample_quirk_fdt ltac:(vm_compute; reflexivity)).
Defined.

Lemma qspi_clone_property_writes_witness :
  qemu_fdt_getprop_cell (sample_clone 0).1 sample_qspi_path "#bus-cells" 0 = 1
  /\ forall child,
       head (qemu_devtree_get_children (sample_fdt 0) sample_qspi_path)
         = Some child ->
       (sample_clone 0).2 = None ->
       qemu_fdt_getprop (sample_clone 0).1 child "reg" = Some (cells_value [0; 0]).
Proof.
  exact (qspi_clone_property_writes (sample_fdt 0) (sample_clone 0).1
           (sample_clone 0).2 sample_qspi_path
           ltac:(vm_compute; reflexivity) ltac:(vm_compute; reflexivity)
           ltac:(vm_compute; reflexivity)).
Defined.

Lemma qspi_clone_helper_content_witness :
  exists qspi child bytes,
    qemu_devtree_node_by_compatible (sample_fdt 1) "xlnx,zynq-qspi-1.0" = Some qspi
    /\ sample_helper_path = qspi ++ [QSPI_DUMMY_NAME]
    /\ head (qemu_devtree_get_children (sample_fdt 1) qspi) = Some child
    /\ qemu_fdt_getprop (sample_fdt 1) child "compatible" = Some bytes
    /\ fdt_path_offset (fdt_root (sample_clone 1).1) sample_helper_path =
         Some (FdtNode QSPI_DUMMY_NAME
                 (<["reg"%string := cells_value [0; 1]]>
                    (<["compatible"%string := string_value (cstring bytes)]> ∅))
                 [])
    /\ head (qemu_devtree_get_children (sample_clone 1).1 qspi)
       = Some sample_helper_path.
Proof.
  exact (qspi_clone_helper_content (sample_fdt 1) (sample_clone 1).1
           sample_helper_path ltac:(vm_compute; reflexivity)).
Defined.

Lemma qspi_clone_not_repeatable_witness :
  zynq7000_qspi_flash_node_clone (sample_clone 1).1
  = Exit 1 "FDT: Failed to create subnode".
Proof.
  exact (qspi_clone_not_repeatable (sample_fdt 1) (sample_clone 1).1
           sample_helper_path ltac:(vm_compute; reflexivity)
           ltac:(vm_compute; discriminate)).
Defined.

Lemma clone_helper_leaves_no_trace_witness :
  exists qspi child,
    qemu_devtree_node_by_compatible (sample_fdt 1) "xlnx,zynq-qspi-1.0" = Some qspi
    /\ fdt_root (fdt_del_node (sample_clone 1).1 sample_helper_path) =
       fdt_root (fdt_setprop
                   (fdt_setprop (sample_fdt 1) qspi "#bus-cells" (cell_value 1))
                   child "reg" (cells_value [0; 0])).
Proof.
  exact (clone_helper_leaves_no_trace (sample_fdt 1) (sample_clone 1).1
           sample_helper_path ltac:(vm_compute; reflexivity)).
Defined.

Lemma mdio_attaches_when_parent_appears_witness :
  let '(task, bw') :=
    mdio_run sample_mdio_path 77
      ([[]; []] ++ ([] ++ (sample_ethernet_path, 42) :: []) :: [[]])
      MdioEntry sample_builder_world in
  task = MdioReturned 0
  /\ bw_trace bw' =
       bw_trace sample_builder_world ++ EvSetOpaque sample_mdio_path 77
         :: repeat EvYield 2
         ++ [EvAddChild 42 "mdio_child" 77; EvSetLink 42 "mdio" 77]
  /\ bw_children bw'
     = bw_children sample_builder_world ++ [(42, "mdio_child"%string, 77)]
  /\ bw_links bw' = bw_links sample_builder_world ++ [(42, "mdio"%string, 77)].
Proof.
  exact (mdio_attaches_when_parent_appears sample_mdio_path 77
           sample_ethernet_path [[]; []] [[]] [] [] 42 sample_builder_world
           ltac:(reflexivity) ltac:(reflexivity)
           ltac:(repeat constructor; apply not_elem_of_nil)
           ltac:(apply not_elem_of_nil)).
Defined.

Lemma scan_memory_max_is_maximum_witness :
  let fdt := {| fdt_root := sample_zynqmp_tree (512 * MiB); fdt_history := [] |} in
  exists memory_max,
    scan_memory_max fdt ["memory@0"%string]
      (fdt_nodes_by_compatible fdt "qemu:memory-region") 0 = Done memory_max
    /\ largest_described fdt 1
         (fdt_nodes_by_compatible fdt "qemu:memory-region") 0 memory_max.
Proof.
  exact (scan_memory_max_is_maximum
           {| fdt_root := sample_zynqmp_tree (512 * MiB); fdt_history := [] |}
           ["memory@0"%string]
           (fdt_nodes_by_compatible
              {| fdt_root := sample_zynqmp_tree (512 * MiB); fdt_history := [] |}
              "qemu:memory-region")
           0 1 ltac:(vm_compute; reflexivity)).
Defined.

Lemma reconcile_ram_at_ceiling_witness :
  w_map (reconcile_ram (2 * GiB) 0x800000000 SystemMemory (2 * GiB) (3 * GiB)
           (world_at_start (3 * GiB))) =
    w_map (world_at_start (3 * GiB)) ++
    [MapRam SystemMemory {| rr_name := "ddr-ram-high";
                            rr_size := 3 * GiB - 2 * GiB;
                            rr_offset := 0x800000000 |}].
Proof.
  exact (reconcile_ram_at_ceiling (2 * GiB) 0x800000000 SystemMemory (3 * GiB)
           (world_at_start (3 * GiB))
           ltac:(vm_compute; discriminate) ltac:(reflexivity) ltac:(reflexivity)).
Defined.

Lemma reconcile_ram_above_ceiling_witness :
  w_map (reconcile_ram (2 * GiB) 0x800000000 SystemMemory (3 * GiB) (4 * GiB)
           (world_at_start (4 * GiB))) =
    w_map (world_at_start (4 * GiB)) ++
    [MapRam SystemMemory {| rr_name := "ddr-ram-high";
                            rr_size := 4 * GiB - 2 * GiB;
                            rr_offset := 0x800000000 |};
     MapRam SystemMemory {| rr_name := "ddr-ram-low";
                            rr_size := 2 ^ 64 - (3 * GiB - 2 * GiB);
                            rr_offset := 3 * GiB |}].
Proof.
  exact (reconcile_ram_above_ceiling (2 * GiB) 0x800000000 SystemMemory
           (3 * GiB) (4 * GiB) (world_at_start (4 * GiB))
           ltac:(vm_compute; discriminate) ltac:(reflexivity) ltac:(reflexivity)
           ltac:(reflexivity)).
Defined.

Lemma reconcile_ram_no_empty_region_witness :
  exists added,
    w_map (reconcile_ram (2 * GiB) 0x800000000 SystemMemory (512 * MiB) (3 * GiB)
             (world_at_start (3 * GiB)))
    = w_map (world_at_start (3 * GiB)) ++ added
    /\ (length added <= 2)%nat
    /\ Forall (fun m => exists r, m = MapRam SystemMemory r
                                  /\ 0 < rr_size r < 2 ^ 64) added.
Proof.
  exact (reconcile_ram_no_empty_region (2 * GiB) 0x800000000 SystemMemory
           (512 * MiB) (3 * GiB) (world_at_start (3 * GiB))
           ltac:(vm_compute; discriminate)
           ltac:(split; [vm_compute; discriminate|reflexivity])).
Defined.

Lemma init_needs_description_witness :
  arm_generic_fdt_init false false (2 * GiB) 0x800000000
    (sample_load 1) (sample_create 1)
    {| machine_class_name := ZYNQ7000_MACHINE_NAME;
       machine_ram_size := 512 * MiB;
       machine_kernel_filename := None;
       machine_kernel_cmdline := None;
       machine_initrd_filename := None;
       machine_opt_dtb := None;
       machine_opt_hw_dtb := None |}
    (world_at_start (512 * MiB)) = Abort.
Proof.
  exact (proj1 (init_needs_description false false (2 * GiB) 0x800000000
                  (sample_load 1) (sample_create 1)
                  {| machine_class_name := ZYNQ7000_MACHINE_NAME;
                     machine_ram_size := 512 * MiB;
                     machine_kernel_filename := None;
                     machine_kernel_cmdline := None;
                     machine_initrd_filename := None;
                     machine_opt_dtb := None;
                     machine_opt_hw_dtb := None |}
                  (world_at_start (512 * MiB)))
           eq_refl eq_refl).
Defined.

Lemma init_stderr_only_deprecation_witness :
  w_stderr (sample_result 1 2 None).2 =
    w_stderr (world_at_start (512 * MiB)) ++
    (if String.eqb (machine_class_name (sample_machine None))
                   DEP_GENERAL_MACHINE_NAME
     then [DEPRECATION_MESSAGE] else []).
Proof.
  exact (init_stderr_only_deprecation false false (2 * GiB) 0x800000000
           (sample_load 1) (sample_create 2) (sample_machine None)
           (world_at_start (512 * MiB))
           (sample_result 1 2 None).1 (sample_result 1 2 None).2
           ltac:(vm_compute; reflexivity)).
Defined.


Lemma zynq7000_machine_ignores_ram_request_witness :
  let w' := (sample_result 1 2 None).2 in
  w_ram_size w' = w_ram_size (world_at_start (512 * MiB))
  /\ w_memory_opt_size w' = w_memory_opt_size (world_at_start (512 * MiB))
  /\ exists added,
       w_map w' = w_map (world_at_start (512 * MiB)) ++ added
       /\ Forall (fun m => exists p a, m = MapNodeRegion SystemMemory p a) added.
Proof.
  exact (zynq7000_machine_ignores_ram_request false false (2 * GiB) 0x800000000
           (sample_load 1) (sample_create 2) (sample_machine None)
           (world_at_start (512 * MiB))
           (sample_result 1 2 None).1 (sample_result 1 2 None).2
           ltac:(reflexivity) ltac:(vm_compute; reflexivity)).
Defined.

Lemma general_machine_keeps_complete_description_witness :
  fdt_root (sample_zynqmp_result (512 * MiB) (3 * GiB)).1
    = sample_zynqmp_tree (512 * MiB)
  /\ fdt_history (sample_zynqmp_result (512 * MiB) (3 * GiB)).1
     = [OpCreateMachine].
Proof.
  exact (general_machine_keeps_complete_description false false (2 * GiB)
           0x800000000 (fun _ => Some (sample_zynqmp_tree (512 * MiB), 4096))
           (sample_create 4)
           {| machine_class_name := GENERAL_MACHINE_NAME;
              machine_ram_size := 3 * GiB;
              machine_kernel_filename := None;
              machine_kernel_cmdline := None;
              machine_initrd_filename := None;
              machine_opt_dtb := None;
              machine_opt_hw_dtb := Some "zynqmp.dtb"%string |}
           (world_at_start (3 * GiB))
           (sample_zynqmp_result (512 * MiB) (3 * GiB)).1
           (sample_zynqmp_result (512 * MiB) (3 * GiB)).2
           (sample_zynqmp_tree (512 * MiB)) ["memory@0"%string]
           (string_value "qemu:memory-region")
           ltac:(reflexivity) ltac:(reflexivity) ltac:(vm_compute; reflexivity)
           ltac:(vm_compute; reflexivity) ltac:(vm_compute; reflexivity)).
Defined.

Lemma general_machine_needs_memory_phandle_witness :
  arm_generic_fdt_init false false (2 * GiB) 0x800000000
    (fun _ => Some (sample_bare_tree, 4096)) (sample_create 4)
    (sample_general_machine (3 * GiB)) (world_at_start (3 * GiB))
  <> Done ({| fdt_root := sample_bare_tree; fdt_history := [OpCreateMachine] |},
           world_at_start (3 * GiB)).
Proof.
  exact (general_machine_needs_memory_phandle false false (2 * GiB) 0x800000000
           (fun _ => Some (sample_bare_tree, 4096)) (sample_create 4)
           (sample_general_machine (3 * GiB)) (world_at_start (3 * GiB))
           sample_bare_tree
           ltac:(reflexivity) ltac:(reflexivity) ltac:(vm_compute; reflexivity)
           _).
Defined.

Lemma zynq7000_spin_code_in_ocm_witness :
  let w' := (sample_7000_result 2 (Some "zImage"%string)).2 in
  In (MapRam SystemMemory zynq_ocm_ram) (w_map w')
  /\ inside_region zynq_ocm_ram (bi_smp_bootreg_addr (w_binfo w')) 4
  /\ exists deposited,
       w_roms w' = w_roms (world_at_start (512 * MiB)) ++ deposited
       /\ Forall (fun rom =>
                    rom_addr rom = bi_smp_loader_start (w_binfo w')
                    /\ inside_region zynq_ocm_ram (rom_addr rom)
                         (Z.of_nat (length (rom_data rom))))
                 deposited.
Proof.
  exact (zynq7000_spin_code_in_ocm false false (2 * GiB) 0x800000000
           (sample_load 1) (sample_create 2) false
           (sample_machine (Some "zImage"%string)) (world_at_start (512 * MiB))
           (sample_7000_result 2 (Some "zImage"%string)).1.1
           (sample_7000_result 2 (Some "zImage"%string)).1.2
           (sample_7000_result 2 (Some "zImage"%string)).2
           ltac:(reflexivity) ltac:(vm_compute; reflexivity)).
Defined.
